(** * Influence of technical indicators: the CNN notebook pipeline

    A shallow embedding of [Notebooks/CNN_Model.ipynb] and the properties
    of its stages: data acquisition, indicator engine, stationarity
    transform and check, feature subset enumeration, scaling, splitting,
    window formatting and evaluation.

    Numbers.  The notebook computes on IEEE-754 doubles.  Finite values are
    modelled as exact rationals ([Qc], canonical fractions with Leibniz
    equality), so rounding, overflow and underflow are not part of the
    model; the special values that decide where a result is defined
    (negative zero, the infinities and NaN) are modelled explicitly in
    [float64].  Python lists are Rocq lists, pandas Series are lists of
    [float64], a DataFrame is a list of named columns, and numpy arrays that
    reach scikit-learn are lists of rows of [Qc].  Where a property depends
    on the rounding itself, the stage is written a second time over the
    kernel's binary64 numbers ([PrimFloat], module [f64]), whose operations
    round to nearest, ties to even, as numpy's do. *)

From Stdlib Require Import QArith Qcanon Qround Lqa ZArith Lia.
From Stdlib Require Floats.
From stdpp Require Import base option list strings gmap numbers pretty sorting.

Local Open Scope Qc_scope.

(** ** Part I: the model *)

(** *** Rational constants *)

Definition Qz (z : Z) : Qc := Q2Qc (inject_Z z).

(** *** IEEE special values around exact finite numbers *)

Inductive float64 : Type :=
| Num (q : Qc)        (* a finite value; [Num 0] is +0.0 *)
| NegZero             (* -0.0 *)
| Inf (neg : bool)    (* [Inf false] is +inf, [Inf true] is -inf *)
| NaN.

#[global] Instance float64_eq_dec : EqDecision float64.
Proof. solve_decision. Defined.

Definition Qc_ltb (x y : Qc) : bool := bool_decide (x < y).
Definition Qc_leb (x y : Qc) : bool := bool_decide (x <= y).
Definition Qc_eqb (x y : Qc) : bool := bool_decide (x = y).

Definition mkzero (neg : bool) : float64 := if neg then NegZero else Num 0.

Definition signbit (x : float64) : bool :=
  match x with
  | Num q => Qc_ltb q 0
  | NegZero => true
  | Inf s => s
  | NaN => false
  end.

Definition is_zero (x : float64) : bool :=
  match x with
  | Num q => Qc_eqb q 0
  | NegZero => true
  | _ => false
  end.

Definition isnan (x : float64) : bool :=
  match x with NaN => true | _ => false end.

(** The finite value of a float, if it has one. *)
Definition finite (x : float64) : option Qc :=
  match x with
  | Num q => Some q
  | NegZero => Some 0
  | _ => None
  end.

Definition fneg (x : float64) : float64 :=
  match x with
  | Num q => if Qc_eqb q 0 then NegZero else Num (- q)
  | NegZero => Num 0
  | Inf s => Inf (negb s)
  | NaN => NaN
  end.

Definition fadd (x y : float64) : float64 :=
  match x, y with
  | NaN, _ | _, NaN => NaN
  | Inf s, Inf s' => if Bool.eqb s s' then Inf s else NaN
  | Inf s, _ | _, Inf s => Inf s
  | NegZero, NegZero => NegZero
  | NegZero, Num b => Num b
  | Num a, NegZero => Num a
  | Num a, Num b => Num (a + b)
  end.

Definition fsub (x y : float64) : float64 := fadd x (fneg y).

Definition fmul (x y : float64) : float64 :=
  match x, y with
  | NaN, _ | _, NaN => NaN
  | Inf s, o | o, Inf s =>
      if is_zero o then NaN else Inf (xorb s (signbit o))
  | _, _ =>
      match finite x, finite y with
      | Some a, Some b =>
          if Qc_eqb (a * b) 0 then mkzero (xorb (signbit x) (signbit y))
          else Num (a * b)
      | _, _ => NaN
      end
  end.

Definition fdiv (x y : float64) : float64 :=
  match x, y with
  | NaN, _ | _, NaN => NaN
  | Inf _, Inf _ => NaN
  | Inf s, o => Inf (xorb s (signbit o))
  | o, Inf s => mkzero (xorb (signbit o) s)
  | _, _ =>
      match finite x, finite y with
      | Some a, Some b =>
          if Qc_eqb b 0 then
            if Qc_eqb a 0 then NaN else Inf (xorb (signbit x) (signbit y))
          else if Qc_eqb a 0 then mkzero (xorb (signbit x) (signbit y))
          else Num (a / b)
      | _, _ => NaN
      end
  end.

(** IEEE comparisons: every comparison with NaN is false, the two zeros are
    equal. *)
Definition fcmp (x y : float64) : option comparison :=
  match x, y with
  | NaN, _ | _, NaN => None
  | Inf s, Inf s' =>
      Some (if Bool.eqb s s' then Eq else if s then Lt else Gt)
  | Inf s, _ => Some (if s then Lt else Gt)
  | _, Inf s => Some (if s then Gt else Lt)
  | _, _ =>
      match finite x, finite y with
      | Some a, Some b =>
          Some (if Qc_eqb a b then Eq else if Qc_ltb a b then Lt else Gt)
      | _, _ => None
      end
  end.

Definition feqb (x y : float64) : bool :=
  match fcmp x y with Some Eq => true | _ => false end.
Definition fleb (x y : float64) : bool :=
  match fcmp x y with Some Eq | Some Lt => true | _ => false end.
Definition fgeb (x y : float64) : bool :=
  match fcmp x y with Some Eq | Some Gt => true | _ => false end.

(** *** pandas: Series and DataFrame operations used by the notebook *)

Module pd.

Abbreviation Series := (list float64).

(** [Series.diff()]: the first row has no predecessor and is NaN, row [t]
    holds [s[t] - s[t-1]]. *)
Definition diff (s : Series) : Series :=
  match s with
  | [] => []
  | _ :: tl => NaN :: zip_with fsub tl s
  end.

(** [Series.shift(n)] for [n >= 0]: rows move down by [n], the first [n]
    rows become NaN. *)
Definition shift (n : nat) (s : Series) : Series :=
  replicate (n `min` length s) NaN ++ take (length s - n) s.

(** [Series.clip(lower=lo)]: values below [lo] are replaced by [lo]; NaN
    stays NaN. *)
Definition clip_lower (lo : float64) (s : Series) : Series :=
  map (fun x => if isnan x then NaN else if fgeb x lo then x else lo) s.

(** [Series.clip(upper=hi)]. *)
Definition clip_upper (hi : float64) (s : Series) : Series :=
  map (fun x => if isnan x then NaN else if fleb x hi then x else hi) s.

(** [c * series] and [c + series], [c / series], [c - series] for a scalar
    [c]; [a / b] for two Series on the same index. *)
Definition rmul (c : float64) (s : Series) : Series := map (fmul c) s.
Definition radd (c : float64) (s : Series) : Series := map (fadd c) s.
Definition rdiv (c : float64) (s : Series) : Series := map (fdiv c) s.
Definition rsub (c : float64) (s : Series) : Series := map (fsub c) s.
Definition div (a b : Series) : Series := zip_with fdiv a b.
Definition sub (a b : Series) : Series := zip_with fsub a b.

(** The rows [t-w+1 .. t] of a Series: the window that ends at row [t]. *)
Definition window (w t : nat) (s : Series) : list float64 :=
  take w (drop (S t - w) s).

Definition Qsum (l : list Qc) : Qc := foldr Qcplus 0 l.

(** [rolling(w).mean()]: defined once [w] observations are in the window
    ([min_periods] defaults to the window size). *)
Definition rolling_mean (w : nat) (s : Series) : Series :=
  imap (fun t _ =>
          if bool_decide (1 <= w <= S t)%nat then
            match mapM finite (window w t s) with
            | Some xs => Num (Qsum xs / Qz (Z.of_nat w))
            | None => NaN
            end
          else NaN) s.

(** Sample variance ([ddof = 1]) of a full window. *)
Definition sample_var (xs : list Qc) : Qc :=
  let m := Qsum xs / Qz (Z.of_nat (length xs)) in
  Qsum (map (fun x => (x - m) * (x - m)) xs) / Qz (Z.of_nat (length xs) - 1).

(** [rolling(w).std()]: the square root of the sample variance; with fewer
    than two observations the variance has no degrees of freedom and the
    result is NaN.  The square root itself is numpy's and is a parameter
    of the model. *)
Definition rolling_std (sqrt : Qc -> Qc) (w : nat) (s : Series) : Series :=
  imap (fun t _ =>
          if bool_decide (2 <= w <= S t)%nat then
            match mapM finite (window w t s) with
            | Some xs => Num (sqrt (sample_var xs))
            | None => NaN
            end
          else NaN) s.

(** [ewm(...).mean()] with [ignore_na=False], [min_periods=0]: the state of
    pandas' loop. *)
Record ewm_state := {
  weighted : float64;
  old_wt : Qc;
  nobs : nat
}.

Definition ewm_out (st : ewm_state) : float64 :=
  if bool_decide (1 <= nobs st)%nat then weighted st else NaN.

Definition ewm_init (v0 : float64) : ewm_state :=
  {| weighted := v0; old_wt := 1; nobs := if isnan v0 then 0 else 1 |}.

Definition ewm_step (adjust : bool) (alpha : Qc) (st : ewm_state)
    (cur : float64) : ewm_state :=
  let is_observation := negb (isnan cur) in
  let nobs' := (nobs st + if is_observation then 1 else 0)%nat in
  let new_wt := if adjust then 1 else alpha in
  if negb (isnan (weighted st)) then
    let old_wt' := old_wt st * (1 - alpha) in
    if is_observation then
      {| weighted :=
           if negb (feqb (weighted st) cur) then
             fdiv (fadd (fmul (Num old_wt') (weighted st))
                        (fmul (Num new_wt) cur))
                  (Num (old_wt' + new_wt))
           else weighted st;
         old_wt := if adjust then old_wt' + new_wt else 1;
         nobs := nobs' |}
    else {| weighted := weighted st; old_wt := old_wt'; nobs := nobs' |}
  else if is_observation then
    {| weighted := cur; old_wt := old_wt st; nobs := nobs' |}
  else {| weighted := weighted st; old_wt := old_wt st; nobs := nobs' |}.

Fixpoint ewm_loop (adjust : bool) (alpha : Qc) (st : ewm_state)
    (vals : list float64) : list float64 :=
  match vals with
  | [] => []
  | cur :: tl =>
      let st' := ewm_step adjust alpha st cur in
      ewm_out st' :: ewm_loop adjust alpha st' tl
  end.

Definition ewm_mean (adjust : bool) (alpha : Qc) (s : Series) : Series :=
  match s with
  | [] => []
  | v0 :: tl => ewm_out (ewm_init v0) :: ewm_loop adjust alpha (ewm_init v0) tl
  end.

(** [ewm(com=c)] and [ewm(span=n)] fix the smoothing factor. *)
Definition alpha_of_com (com : Qc) : Qc := 1 / (1 + com).
Definition alpha_of_span (span : Qc) : Qc := alpha_of_com ((span - 1) / (1 + 1)).

(** A DataFrame: named columns in order, all of the same length. *)
Abbreviation DataFrame := (list (string * list float64)).

Definition columns (df : DataFrame) : list string := map fst df.

Definition nrows (df : DataFrame) : nat :=
  match df with
  | [] => 0
  | (_, c) :: _ => length c
  end.

(** [df[name]]: [None] stands for the [KeyError] of a missing column. *)
Fixpoint getitem (df : DataFrame) (name : string) : option Series :=
  match df with
  | [] => None
  | (n, c) :: rest => if decide (n = name) then Some c else getitem rest name
  end.

(** [df[name] = s]: an existing column is replaced in place, a new one is
    appended. *)
Fixpoint setitem (df : DataFrame) (name : string) (s : Series) : DataFrame :=
  match df with
  | [] => [(name, s)]
  | (n, c) :: rest =>
      if decide (n = name) then (n, s) :: rest
      else (n, c) :: setitem rest name s
  end.

(** [df.pop(name)]: the column and the frame without it. *)
Fixpoint pop (df : DataFrame) (name : string) : option (Series * DataFrame) :=
  match df with
  | [] => None
  | (n, c) :: rest =>
      if decide (n = name) then Some (c, rest)
      else '(s, rest') ← pop rest name; Some (s, (n, c) :: rest')
  end.

(** [df.insert(loc, name, s)]: [ValueError] when the name is already a
    column, [IndexError] when [loc] is not within [0 .. len(columns)]. *)
Definition insert (df : DataFrame) (loc : nat) (name : string) (s : Series)
    : option DataFrame :=
  if bool_decide (name ∈ columns df) then None
  else if bool_decide (loc <= length df)%nat then
    Some (take loc df ++ (name, s) :: drop loc df)
  else None.

(** [df.drop(labels, axis=1)]: every label must be a column. *)
Definition drop_columns (df : DataFrame) (labels : list string)
    : option DataFrame :=
  if forallb (fun l => bool_decide (l ∈ columns df)) labels then
    Some (filter (fun nc => nc.1 ∉ labels) df)
  else None.

(** [df[names]]: the listed columns, in the listed order. *)
Definition select (df : DataFrame) (names : list string) : option DataFrame :=
  mapM (fun n => c ← getitem df n; Some (n, c)) names.

Definition row_has_na (df : DataFrame) (i : nat) : bool :=
  existsb (fun nc => match nc.2 !! i with
                     | Some x => isnan x
                     | None => false
                     end) df.

Fixpoint filter_mask {A} (mask : list bool) (l : list A) : list A :=
  match mask, l with
  | b :: mask', x :: l' =>
      if b then x :: filter_mask mask' l' else filter_mask mask' l'
  | _, _ => []
  end.

(** [df.dropna()]: rows with a NaN in any column are removed. *)
Definition dropna (df : DataFrame) : DataFrame :=
  let keep := map (fun i => negb (row_has_na df i)) (seq 0 (nrows df)) in
  map (fun nc => (nc.1, filter_mask keep nc.2)) df.

(** [df.diff()]: column by column. *)
Definition frame_diff (df : DataFrame) : DataFrame :=
  map (fun nc => (nc.1, diff nc.2)) df.

End pd.

(** *** Python runtime: exceptions and the list iterator *)

Inductive exn : Type :=
| NameError (name : string)
| KeyError
| ValueError
| IndexError
| TypeError
| ZeroDivisionError.

(** A computation that returns or raises. *)
Definition result (A : Type) : Type := exn + A.

Definition ret {A} (a : A) : result A := inr a.
Definition raise {A} (e : exn) : result A := inl e.
Definition bind {A B} (m : result A) (k : A -> result B) : result B :=
  match m with
  | inl e => inl e
  | inr a => k a
  end.

(** [l.remove(x)]: the first element equal to [x] goes. *)
Fixpoint list_remove (x : string) (l : list string) : list string :=
  match l with
  | [] => []
  | y :: l' => if decide (y = x) then l' else y :: list_remove x l'
  end.

(** [l[i]] and [s.iloc[i]] for a Python integer [i]: a negative index counts
    from the end, an index out of range raises. *)
Definition py_index {A} (l : list A) (i : Z) : option A :=
  if bool_decide (0 <= i)%Z then l !! Z.to_nat i
  else if bool_decide (- Z.of_nat (length l) <= i)%Z
       then l !! Z.to_nat (Z.of_nat (length l) + i)
       else None.

(** [l[a:b]] for non-negative bounds. *)
Definition py_slice {A} (a b : nat) (l : list A) : list A :=
  take (b - a) (drop a l).

(** *** Download historical stock data *)

(** The columns [get_historical_stock_data] drops from every frame. *)
Definition unused_columns : list string :=
  ["High"; "Low"; "Volume"; "Dividends"; "Stock Splits"].

(** The state of the download loop: [tickers] is the caller's list, which the
    loop mutates while the [for] statement iterates over it; [pos] is the
    position of that list iterator; [out] collects the printed messages. *)
Record acq_state := {
  tickers : list string;
  pos : nat;
  hist_data : list pd.DataFrame;
  out : list string
}.

Definition removed_msg (ticker : string) : string :=
  "Error with ticker " +:+ ticker +:+ "! REMOVED it!".

(** One turn of [for ticker in tickers]: [None] when the iterator is
    exhausted.  [history ticker] is the provider's answer, [None] when the
    call raises.  The frame is appended before its columns are dropped, so a
    [KeyError] raised by [drop] leaves the appended frame in the list. *)
Definition fetch_step (history : string -> option pd.DataFrame)
    (st : acq_state) : option acq_state :=
  match tickers st !! pos st with
  | None => None
  | Some ticker =>
      Some
        match history ticker with
        | Some df =>
            match pd.drop_columns df unused_columns with
            | Some df' =>
                {| tickers := tickers st; pos := S (pos st);
                   hist_data := hist_data st ++ [df']; out := out st |}
            | None =>
                {| tickers := list_remove ticker (tickers st);
                   pos := S (pos st);
                   hist_data := hist_data st ++ [df];
                   out := out st ++ [removed_msg ticker] |}
            end
        | None =>
            {| tickers := list_remove ticker (tickers st);
               pos := S (pos st);
               hist_data := hist_data st;
               out := out st ++ [removed_msg ticker] |}
        end
  end.

Fixpoint fetch_loop (fuel : nat) (history : string -> option pd.DataFrame)
    (st : acq_state) : acq_state :=
  match fuel with
  | 0 => st
  | S fuel' =>
      match fetch_step history st with
      | None => st
      | Some st' => fetch_loop fuel' history st'
      end
  end.

(** The function returns the frames; the caller's ticker list and the printed
    output are the other two observable results.  The loop runs at most once
    per element of the list it started with. *)
Definition get_historical_stock_data
    (history : string -> option pd.DataFrame) (tickers0 : list string)
    : acq_state :=
  fetch_loop (length tickers0) history
    {| tickers := tickers0; pos := 0; hist_data := []; out := [] |}.

(** *** Calculate technical indicators *)

(** The RSI block of [calc_technical_indicators] on the Open column. *)
Definition rsi_delta (open : pd.Series) : pd.Series := pd.diff open.
Definition rsi_up (open : pd.Series) : pd.Series :=
  pd.clip_lower (Num 0) (rsi_delta open).
Definition rsi_down (open : pd.Series) : pd.Series :=
  pd.rmul (Num (- 1)) (pd.clip_upper (Num 0) (rsi_delta open)).
Definition rsi_ema_up (open : pd.Series) : pd.Series :=
  pd.ewm_mean false (pd.alpha_of_com (Qz 14)) (rsi_up open).
Definition rsi_ema_down (open : pd.Series) : pd.Series :=
  pd.ewm_mean false (pd.alpha_of_com (Qz 14)) (rsi_down open).
Definition rsi_rs (open : pd.Series) : pd.Series :=
  pd.div (rsi_ema_up open) (rsi_ema_down open).
Definition rsi (open : pd.Series) : pd.Series :=
  pd.rsub (Num (Qz 100)) (pd.rdiv (Num (Qz 100)) (pd.radd (Num 1) (rsi_rs open))).

Definition macd (open : pd.Series) : pd.Series :=
  pd.sub (pd.ewm_mean true (pd.alpha_of_span (Qz 12)) open)
         (pd.ewm_mean true (pd.alpha_of_span (Qz 26)) open).

Definition momentum (w : nat) (open : pd.Series) : pd.Series :=
  pd.sub open (pd.shift w open).

(** The frame with the five indicator columns, before [dropna]. *)
Definition with_indicators (sqrt : Qc -> Qc)
    (volatility_window momentum_window ma_window : nat) (df : pd.DataFrame)
    : option pd.DataFrame :=
  open ← pd.getitem df "Open";
  let df := pd.setitem df ("Vol_" +:+ pretty volatility_window)
              (pd.rolling_std sqrt volatility_window open) in
  open ← pd.getitem df "Open";
  let df := pd.setitem df "RSI" (rsi open) in
  open ← pd.getitem df "Open";
  let df := pd.setitem df "MACD" (macd open) in
  open ← pd.getitem df "Open";
  let df := pd.setitem df ("Mom_" +:+ pretty momentum_window)
              (momentum momentum_window open) in
  open ← pd.getitem df "Open";
  Some (pd.setitem df ("MA_" +:+ pretty ma_window)
          (pd.rolling_mean ma_window open)).

(** The loop body for one frame: indicators, [dropna], then the target
    column moved to the end.  The position passed to [insert] is computed
    before [pop] removes the column. *)
Definition calc_technical_indicators_frame (sqrt : Qc -> Qc)
    (volatility_window momentum_window ma_window : nat) (df : pd.DataFrame)
    : option pd.DataFrame :=
  df ← with_indicators sqrt volatility_window momentum_window ma_window df;
  let df := pd.dropna df in
  let loc := (length (pd.columns df) - 1)%nat in
  '(close, df) ← pd.pop df "Close";
  pd.insert df loc "Close" close.

Definition calc_technical_indicators (sqrt : Qc -> Qc)
    (hist_data_all_stocks : list pd.DataFrame)
    (volatility_window momentum_window ma_window : nat)
    : option (list pd.DataFrame) :=
  mapM (calc_technical_indicators_frame sqrt volatility_window
          momentum_window ma_window) hist_data_all_stocks.

(** *** Establish stationarity using the first difference method *)

Definition make_stationary_frame (df : pd.DataFrame) : pd.DataFrame :=
  pd.dropna (pd.frame_diff df).

Definition make_stationary (hist_data_all_stocks : list pd.DataFrame)
    : list pd.DataFrame :=
  map make_stationary_frame hist_data_all_stocks.

(** The same function on binary64 numbers: [diff] subtracts with the
    rounding of double arithmetic, [dropna] removes the rows that hold a
    NaN. *)
Module f64.

Abbreviation Series := (list PrimFloat.float).
Abbreviation DataFrame := (list (string * list PrimFloat.float)).

Definition diff (s : Series) : Series :=
  match s with
  | [] => []
  | _ :: tl => PrimFloat.nan :: zip_with PrimFloat.sub tl s
  end.

Definition nrows (df : DataFrame) : nat :=
  match df with
  | [] => 0
  | (_, c) :: _ => length c
  end.

Definition row_has_na (df : DataFrame) (i : nat) : bool :=
  existsb (fun nc : string * Series =>
             match nc.2 !! i with
             | Some x => PrimFloat.is_nan x
             | None => false
             end) df.

Definition dropna (df : DataFrame) : DataFrame :=
  let keep := map (fun i => negb (row_has_na df i)) (seq 0 (nrows df)) in
  map (fun nc => (nc.1, pd.filter_mask keep nc.2)) df.

Definition frame_diff (df : DataFrame) : DataFrame :=
  map (fun nc => (nc.1, diff nc.2)) df.

Definition make_stationary_frame (df : DataFrame) : DataFrame :=
  dropna (frame_diff df).

Definition make_stationary (hist_data_all_stocks : list DataFrame)
    : list DataFrame :=
  map make_stationary_frame hist_data_all_stocks.

(** The running sum of [ds] added onto [start], one double addition per
    row. *)
Fixpoint running_sum (start : PrimFloat.float) (ds : Series) : Series :=
  match ds with
  | [] => []
  | d :: ds' =>
      PrimFloat.add start d :: running_sum (PrimFloat.add start d) ds'
  end.

End f64.

(** *** Check for stationarity using the KPSS test *)

(** What a global name of the notebook is bound to.  Only a binding of
    [kpss] would be called by the code below; it returns the statistic, the
    p-value, the number of lags and the table of critical values. *)
Inductive pyobj : Type :=
| PyImported
| PyDefined
| PyKpss (f : pd.Series -> result (Qc * Qc * nat * list (string * Qc))).

(** The names bound by the import cell of the notebook, in its order. *)
Definition imported_names : list string :=
  ["np"; "pd"; "os"; "plt"; "yfinance"; "datetime"; "time"; "itertools";
   "MinMaxScaler"; "train_test_split"; "Sequential"; "load_model"; "Dense";
   "Flatten"; "Conv1D"; "MaxPooling1D"; "mean_absolute_error"].

(** The names bound by the cells between the imports and the stationarity
    check. *)
Definition defined_names : list string :=
  ["get_historical_stock_data"; "tickers"; "start_date"; "end_date";
   "hist_data_all_stocks"; "calc_technical_indicators";
   "hist_data_all_stocks_non_stationary"; "i"; "make_stationary";
   "hist_data_all_stocks_stationary"; "test_stationary"].

Definition notebook_globals : gmap string pyobj :=
  list_to_map (map (fun n => (n, PyImported)) imported_names ++
               map (fun n => (n, PyDefined)) defined_names).

(** [test_stationary]: the name [kpss] is looked up in the globals when the
    function runs.  The [for] loop over the critical values returns in its
    first turn; with no critical value the function falls off its end and
    returns Python's [None], here the inner [None]. *)
Definition test_stationary (globals : gmap string pyobj) (data : pd.Series)
    (significance : Qc) : result (option bool) :=
  match globals !! "kpss" with
  | None => raise (NameError "kpss")
  | Some (PyKpss kpss) =>
      bind (kpss data) (fun '(statistic, p_value, n_lags, critical_values) =>
        match critical_values with
        | [] => ret None
        | _ :: _ =>
            if Qc_ltb p_value significance then ret (Some false)
            else ret (Some true)
        end)
  | Some _ => raise TypeError
  end.

Definition default_significance : Qc := Qz 5 / Qz 100.

(** The cell that loops through all companies and columns: the printed
    lines, unless a call raises, which ends the cell.  [tickers[i]] is read
    only when a line is printed. *)
Fixpoint check_columns (globals : gmap string pyobj) (ticker : option string)
    (cols : list (string * pd.Series)) : result (list string) :=
  match cols with
  | [] => ret []
  | (name, data) :: rest =>
      bind (test_stationary globals data default_significance) (fun r =>
      bind (if bool_decide (r = Some true) then ret []
            else match ticker with
                 | Some t => ret [t +:+ " " +:+ name +:+ " not stationary"]
                 | None => raise IndexError
                 end) (fun line =>
      bind (check_columns globals ticker rest) (fun printed =>
        ret (line ++ printed))))
  end.

Fixpoint stationarity_check (globals : gmap string pyobj)
    (tickers : list string) (frames : list pd.DataFrame) (i : nat)
    : result (list string) :=
  match frames with
  | [] => ret []
  | df :: rest =>
      bind (check_columns globals (tickers !! i) df) (fun printed =>
      bind (stationarity_check globals tickers rest (S i)) (fun printed' =>
        ret (printed ++ printed')))
  end.

(** *** Create all possible feature combinations *)

Module itertools.

(** [itertools.combinations(l, r)]: the [r]-element subsequences of [l], in
    lexicographic order of their positions. *)
Fixpoint combinations {A} (l : list A) (r : nat) : list (list A) :=
  match r, l with
  | 0, _ => [[]]
  | S _, [] => []
  | S r', x :: xs => map (cons x) (combinations xs r') ++ combinations xs r
  end.

End itertools.

(** The cell's loop, for the column index of the first stationary frame. *)
Definition feature_combinations (columns : list string) : list (list string) :=
  let n_features := take (length columns - 1) columns in
  concat
    (map (fun i =>
            map (fun subset => subset ++ ["Close"])
                (filter (fun subset => length subset ≠ 0%nat)
                        (itertools.combinations n_features i)))
         (seq 0 (length columns + 1))).

(** One frame per feature combination for one stock. *)
Definition frames_of_combinations (df : pd.DataFrame)
    (combos : list (list string)) : option (list pd.DataFrame) :=
  mapM (pd.select df) combos.

(** *** Scale between 0 and 1 using MinMaxScaler; split; window *)

Module sklearn.

(** A numpy array of shape (samples, features): a list of rows. *)
Abbreviation matrix := (list (list Qc)).

Definition Qc_min (a b : Qc) : Qc := if Qc_leb a b then a else b.
Definition Qc_max (a b : Qc) : Qc := if Qc_leb a b then b else a.

(** The fitted attributes of a [MinMaxScaler] with the default
    [feature_range=(0, 1)], one entry per column. *)
Record MinMaxScaler := {
  data_min_ : list Qc;
  data_max_ : list Qc;
  scale_ : list Qc;
  min_ : list Qc
}.

(** [np.finfo(np.float64).eps], 2^-52. *)
Definition float_eps : Qc := Q2Qc (1 # 4503599627370496).

(** [_handle_zeros_in_scale]: a column whose range is below [10 * eps] counts
    as constant and is scaled by 1. *)
Definition handle_zeros_in_scale (r : Qc) : Qc :=
  if Qc_ltb r (Qz 10 * float_eps) then 1 else r.

(** [fit]: column minima and maxima over all the rows given; an array
    without rows is rejected. *)
Definition fit (X : matrix) : option MinMaxScaler :=
  match X with
  | [] => None
  | row :: rows =>
      let data_min := foldl (zip_with Qc_min) row rows in
      let data_max := foldl (zip_with Qc_max) row rows in
      let data_range := zip_with Qcminus data_max data_min in
      let scale := map (fun r => (1 - 0) / handle_zeros_in_scale r) data_range in
      Some {| data_min_ := data_min; data_max_ := data_max; scale_ := scale;
              min_ := zip_with (fun m s => 0 - m * s) data_min scale |}
  end.

(** The arithmetic of [transform]: [X * scale_ + min_], row by row.  The
    notebook reaches it through [fit_transform] only, after [fit] has
    accepted the array. *)
Definition transform (sc : MinMaxScaler) (X : matrix) : matrix :=
  map (fun row => zip_with Qcplus (zip_with Qcmult row (scale_ sc)) (min_ sc)) X.

(** [inverse_transform]: [(X - min_) / scale_]; an array without rows is
    rejected with a [ValueError], here [None]. *)
Definition inverse_transform (sc : MinMaxScaler) (X : matrix) : option matrix :=
  match X with
  | [] => None
  | _ :: _ =>
      Some (map (fun row => zip_with Qcdiv (zip_with Qcminus row (min_ sc))
                              (scale_ sc)) X)
  end.

(** [train_test_split(X, Y, train_size=ts, shuffle=False)]: the first
    [floor(ts * n)] rows train, the rest test.  The product is the exact
    one; scikit-learn floors the product of two doubles, which is the same
    number of rows for the notebook's [train_size] of 0.8. *)
Definition train_test_split {A B} (X : list A) (Y : list B) (train_size : Qc)
    : option (list A * list A * list B * list B) :=
  if bool_decide (length X = length Y) && Qc_ltb 0 train_size
     && Qc_ltb train_size 1 then
    let n_train := Z.to_nat (Qfloor (train_size * Qz (Z.of_nat (length X)))) in
    if bool_decide (n_train = 0%nat) then None
    else Some (take n_train X, drop n_train X, take n_train Y, drop n_train Y)
  else None.

End sklearn.

(** The values of a frame as an array of rows.  The frames that reach the
    scaler hold finite numbers only; a frame with another cell has no image
    in the model. *)
Definition to_numpy (df : pd.DataFrame) : option sklearn.matrix :=
  mapM (fun i => mapM (fun nc : string * pd.Series => nc.2 !! i ≫= finite) df)
       (seq 0 (pd.nrows df)).

Definition is_close (nc : string * pd.Series) : bool :=
  bool_decide (nc.1 = "Close").

(** The body of [scale_values] for one frame: both scalers are fitted on the
    frame as it is passed in, all rows of it. *)
Definition scale_values_frame (df : pd.DataFrame)
    : option (sklearn.matrix * sklearn.matrix *
              sklearn.MinMaxScaler * sklearn.MinMaxScaler) :=
  features ← to_numpy (filter (fun nc => negb (is_close nc)) df);
  feature_scaler ← sklearn.fit features;
  target ← to_numpy (filter (fun nc => is_close nc) df);
  target_scaler ← sklearn.fit target;
  Some (sklearn.transform feature_scaler features,
        sklearn.transform target_scaler target,
        feature_scaler, target_scaler).

Definition scale_values
    (hist_data_all_stocks_feature_combinations : list (list pd.DataFrame))
    : option (list (list (sklearn.matrix * sklearn.matrix *
                          sklearn.MinMaxScaler * sklearn.MinMaxScaler))) :=
  mapM (mapM scale_values_frame) hist_data_all_stocks_feature_combinations.

Definition default_train_size : Qc := Qz 8 / Qz 10.

Definition split_data
    (scaled : list (list (sklearn.matrix * sklearn.matrix)))
    (train_size : Qc) :=
  mapM (mapM (fun xy : sklearn.matrix * sklearn.matrix =>
                sklearn.train_test_split xy.1 xy.2 train_size)) scaled.

(** [format_dataset]: for every [i] in [range(L, len(x_values))] the slice
    [x_values[i-L:i]] and the label [y_values[i]]; a missing label is an
    [IndexError], here [None]. *)
Definition format_dataset {A B} (x_values : list A) (y_values : list B)
    (CNN_input_vector_size : nat) : option (list (list A) * list B) :=
  let L := CNN_input_vector_size in
  let idx := seq L (length x_values - L) in
  dataY ← mapM (fun i => y_values !! i) idx;
  Some (map (fun i => py_slice (i - L) i x_values) idx, dataY).

Definition default_lookback : nat := 10.

(** *** Create predictions and calculate MAPE and accuracy *)

Definition np_sign (x : Qc) : Z :=
  if Qc_ltb x 0 then (-1)%Z else if Qc_eqb x 0 then 0%Z else 1%Z.

(** The truth value of the array [np.sign(a) == np.sign(b)]: defined for an
    array of one element. *)
Definition same_sign (a b : list Qc) : result bool :=
  match zip_with (fun x y => bool_decide (np_sign x = np_sign y)) a b with
  | [t] => ret t
  | _ => raise ValueError
  end.

(** The loop over [k] for one (stock, feature combination): the count of equal
    signs, the reconstructed predictions and the reconstructed targets. *)
Fixpoint evaluation_loop (ns_close : pd.Series)
    (pred_rescaled y_test_rescaled : sklearn.matrix) (n_pred : nat) (k : nat)
    (todo : sklearn.matrix)
    : result (nat * list (list float64) * list (list float64)) :=
  match todo with
  | [] => ret (0%nat, [], [])
  | p :: todo' =>
      match y_test_rescaled !! k with
      | None => raise IndexError
      | Some y =>
          bind (same_sign p y) (fun same =>
          match py_index ns_close
                  (Z.of_nat (length ns_close) - Z.of_nat n_pred + Z.of_nat k)
          with
          | None => raise IndexError
          | Some level =>
              bind (evaluation_loop ns_close pred_rescaled y_test_rescaled
                      n_pred (S k) todo')
                (fun '(same_direction, preds, ys) =>
                   ret ((if same then 1 else 0) + same_direction,
                        map (fun v => fadd level (Num v)) p :: preds,
                        map (fun v => fadd level (Num v)) y :: ys)%nat)
          end)
      end
  end.

(** [same_direction / len(pred_rescaled)]. *)
Definition accuracy_of (same_direction n_pred : nat) : result Qc :=
  if bool_decide (n_pred = 0%nat) then raise ZeroDivisionError
  else ret (Qz (Z.of_nat same_direction) / Qz (Z.of_nat n_pred)).

(** The outcome of the evaluation of one model. *)
Record evaluation := {
  direction_accuracy : Qc;
  pred_rescaled_inversed_difference : list (list float64);
  y_test_rescaled_inversed_difference : list (list float64)
}.

(** The evaluation cell for one (stock, feature combination) once both
    arrays are scaled back. *)
Definition evaluate_rescaled (ns_close : pd.Series)
    (pred_rescaled y_test_rescaled : sklearn.matrix) : result evaluation :=
  bind (evaluation_loop ns_close pred_rescaled y_test_rescaled
          (length pred_rescaled) 0 pred_rescaled)
    (fun '(same_direction, preds, ys) =>
  bind (accuracy_of same_direction (length pred_rescaled)) (fun acc =>
    ret {| direction_accuracy := acc;
           pred_rescaled_inversed_difference := preds;
           y_test_rescaled_inversed_difference := ys |})).

(** The body of the evaluation cell for one (stock, feature combination):
    [y_test] is the windowed, scaled test target, [pred] the model's
    prediction on the windowed test features. *)
Definition evaluate (ns_close : pd.Series) (target_scaler : sklearn.MinMaxScaler)
    (y_test pred : sklearn.matrix) : result evaluation :=
  match sklearn.inverse_transform target_scaler y_test with
  | None => raise ValueError
  | Some y_test_rescaled =>
      match sklearn.inverse_transform target_scaler pred with
      | None => raise ValueError
      | Some pred_rescaled =>
          evaluate_rescaled ns_close pred_rescaled y_test_rescaled
      end
  end.

(** The data the evaluation of one (stock, feature combination) works on,
    as the cells before it prepare them from the stock's stationary frame. *)
Record prepared := {
  x_train : list sklearn.matrix;
  y_train : sklearn.matrix;
  x_test : list sklearn.matrix;
  y_test : sklearn.matrix;
  feature_scaler : sklearn.MinMaxScaler;
  target_scaler : sklearn.MinMaxScaler
}.

Definition prepare (stationary : pd.DataFrame) (combination : list string)
    : option prepared :=
  df ← pd.select stationary combination;
  '(scaled_features, scaled_target, fs, ts) ← scale_values_frame df;
  '(xtr, xte, ytr, yte) ←
      sklearn.train_test_split scaled_features scaled_target default_train_size;
  '(dataX_train, dataY_train) ← format_dataset xtr ytr default_lookback;
  '(dataX_test, dataY_test) ← format_dataset xte yte default_lookback;
  Some {| x_train := dataX_train; y_train := dataY_train;
          x_test := dataX_test; y_test := dataY_test;
          feature_scaler := fs; target_scaler := ts |}.

(** *** Concrete inputs used by the examples below *)

(** A provider answer with the seven columns of a price history. *)
Definition example_history_frame : pd.DataFrame :=
  map (fun n => (n, [Num (Qz 1); Num (Qz 2)]))
      ["Open"; "High"; "Low"; "Close"; "Volume"; "Dividends"; "Stock Splits"].

(** A provider that knows every ticker but ["XXXX"], for which the call
    raises. *)
Definition example_history (ticker : string) : option pd.DataFrame :=
  if bool_decide (ticker = "XXXX") then None else Some example_history_frame.

(** *** Quantities the properties are stated with *)

(** An array of shape (n, 1) from its single column. *)
Definition column (l : list Qc) : sklearn.matrix := map (fun v => [v]) l.

(** The number of positions where prediction and target have the same
    sign. *)
Fixpoint sign_matches (ps ys : list Qc) : nat :=
  match ps, ys with
  | p :: ps', y :: ys' =>
      ((if bool_decide (np_sign p = np_sign y) then 1 else 0)
       + sign_matches ps' ys')%nat
  | _, _ => 0%nat
  end.

Definition count_zero (ys : list Qc) : nat :=
  length (filter (fun y => y = 0) ys).

Definition count_nonneg (ys : list Qc) : nat :=
  length (filter (fun y => 0 <= y) ys).

(** The number of combinations of [l] of the sizes below [m]. *)
Definition combinations_upto {A} (l : list A) (m : nat) : nat :=
  foldr Nat.add 0%nat
    (map (fun r => length (itertools.combinations l r)) (seq 0 m)).

(** The combinations of size [i] as [feature_combinations] lists them: the
    empty one left out, the target appended. *)
Definition combination_row (n_features : list string) (i : nat)
    : list (list string) :=
  map (fun subset => subset ++ ["Close"])
      (filter (fun subset => length subset ≠ 0%nat)
              (itertools.combinations n_features i)).

(** The frame [calc_technical_indicators] starts from, by the docstring of
    [get_historical_stock_data]: the open and the close price. *)
Definition raw_frame (open close : pd.Series) : pd.DataFrame :=
  [("Open", open); ("Close", close)].

(** The rows of the indicator frame that survive [dropna]. *)
Definition indicator_mask (sqrt : Qc -> Qc) (vw mw maw : nat)
    (open close : pd.Series) : list bool :=
  map (fun i =>
         negb (pd.row_has_na
                 [("Open", open); ("Close", close);
                  ("Vol_" +:+ pretty vw, pd.rolling_std sqrt vw open);
                  ("RSI", rsi open); ("MACD", macd open);
                  ("Mom_" +:+ pretty mw, momentum mw open);
                  ("MA_" +:+ pretty maw, pd.rolling_mean maw open)] i))
      (seq 0 (length open)).

(** A concrete square root for the examples: the root rounded down to a
    multiple of 2^-52. *)
Definition Qc_sqrt (q : Qc) : Qc :=
  Q2Qc (Z.sqrt (Qnum q * 2 ^ 104 / Z.pos (Qden q)) # 2 ^ 52).

(** Ninety rows of prices for the examples. *)
Definition example_open : pd.Series :=
  map (fun t => Num (Qz (100 + Z.of_nat t * Z.of_nat t mod 17))) (seq 0 90).
Definition example_close : pd.Series :=
  map (fun t => Num (Qz (101 + Z.of_nat t * Z.of_nat t mod 13))) (seq 0 90).

(** A frame of finite numbers, from its columns. *)
Definition frame_of (cols : list (string * list Qc)) : pd.DataFrame :=
  map (fun nc => (nc.1, map Num nc.2)) cols.

(** [row[t] - row[t-1]] for every row but the first. *)
Definition first_differences (qs : list Qc) : list Qc :=
  zip_with Qcminus (tail qs) qs.

(** The running sum of [ds] added onto [start]. *)
Fixpoint running_sum (start : Qc) (ds : list Qc) : list Qc :=
  match ds with
  | [] => []
  | d :: ds' => (start + d) :: running_sum (start + d) ds'
  end.

(** The same frame below a first row of NaN. *)
Definition with_nan_row (cols : list (string * list Qc)) : pd.DataFrame :=
  map (fun nc => (nc.1, NaN :: map Num nc.2)) cols.

(** The first differences of every column. *)
Definition differenced (cols : list (string * list Qc))
    : list (string * list Qc) :=
  map (fun nc => (nc.1, first_differences nc.2)) cols.

(** Two frames of five rows that agree on the four training rows and differ
    in the last, held-out row of the target. *)
Definition leak_frame_a : pd.DataFrame :=
  frame_of [("RSI", [Qz 1; Qz 2; Qz 3; Qz 4; Qz 5]);
            ("Close", [Qz 1; Qz 2; Qz 3; Qz 4; Qz 5])].
Definition leak_frame_b : pd.DataFrame :=
  frame_of [("RSI", [Qz 1; Qz 2; Qz 3; Qz 4; Qz 5]);
            ("Close", [Qz 1; Qz 2; Qz 3; Qz 4; Qz 9])].

(** The first [n] rows of a frame. *)
Definition head_rows (n : nat) (df : pd.DataFrame) : pd.DataFrame :=
  map (fun nc => (nc.1, take n nc.2)) df.

(** The number of training rows of [train_test_split] on [n] rows. *)
Definition n_train_of (train_size : Qc) (n : nat) : nat :=
  Z.to_nat (Qfloor (train_size * Qz (Z.of_nat n))).

(** The default run for one stock and one feature combination, from the
    downloaded frame to the evaluation: the non-stationary copy is the frame
    after [calc_technical_indicators]; [model] stands for the trained
    network's prediction on the prepared data. *)
Definition default_run (sqrt : Qc -> Qc) (raw : pd.DataFrame)
    (combination : list string) (model : prepared -> sklearn.matrix)
    : option (result evaluation) :=
  non_stationary ← calc_technical_indicators_frame sqrt 20 20 20 raw;
  let stationary := make_stationary_frame non_stationary in
  p ← prepare stationary combination;
  ns_close ← pd.getitem non_stationary "Close";
  Some (evaluate ns_close (target_scaler p) (y_test p) (model p)).

(** A model that predicts every scaled test target exactly. *)
Definition oracle (p : prepared) : sklearn.matrix := y_test p.

(** The values a smoothed up- or down-move takes: a non-negative number or
    -0.0. *)
Definition nonneg_float (x : float64) : Prop :=
  match x with
  | Num q => 0 <= q
  | NegZero => True
  | _ => False
  end.

(** The RSI of one row from its two smoothed moves. *)
Definition rsi_of (ema_up ema_down : float64) : float64 :=
  fsub (Num (Qz 100))
       (fdiv (Num (Qz 100)) (fadd (Num 1) (fdiv ema_up ema_down))).

(** The up- and the down-move of a price change [d]. *)
Definition up_of (d : Qc) : float64 :=
  if fgeb (Num d) (Num 0) then Num d else Num 0.

Definition down_of (d : Qc) : float64 :=
  fmul (Num (- 1)) (if fleb (Num d) (Num 0) then Num d else Num 0).

(** One turn of the [ewm] loop with [adjust=False] on two observations. *)
Definition smooth (alpha : Qc) (w cur : float64) : float64 :=
  if negb (feqb w cur) then
    fdiv (fadd (fmul (Num (1 * (1 - alpha))) w) (fmul (Num alpha) cur))
         (Num (1 * (1 - alpha) + alpha))
  else w.

(** The number of elements at the head of [ps] that equal [p]. *)
Fixpoint constant_prefix (p : Qc) (ps : list Qc) : nat :=
  match ps with
  | [] => 0
  | q :: ps' => if Qc_eqb q p then S (constant_prefix p ps') else 0
  end.

(** The number of leading rows that hold the first row's price. *)
Definition leading_constant_rows (ps : list Qc) : nat :=
  match ps with
  | [] => 0
  | p :: ps' => S (constant_prefix p ps')
  end.

(** The number of leading rows in which some indicator is undefined. *)
Definition rows_without_lookback (vw mw maw : nat) (opens : list Qc) : nat :=
  Nat.max (Nat.max (Nat.max (vw - 1) mw) (maw - 1))
    (leading_constant_rows opens).

(** Finite values: numbers and -0.0. *)
Definition is_finite (x : float64) : bool :=
  match x with
  | Num _ | NegZero => true
  | _ => false
  end.

(** The prices of the example frame as rationals. *)
Definition example_open_prices : list Qc :=
  map (fun t => Qz (100 + Z.of_nat t * Z.of_nat t mod 17)) (seq 0 90).
Definition example_close_prices : list Qc :=
  map (fun t => Qz (101 + Z.of_nat t * Z.of_nat t mod 13)) (seq 0 90).

(** The levels the evaluation adds a rescaled value onto: one-element rows,
    as numpy returns them for an array of shape (n, 1). *)
Definition onto_levels (levels : list float64) (vs : list Qc)
    : list (list float64) :=
  zip_with (fun level v => [fadd level (Num v)]) levels vs.

(** An array whose rows all have [m] entries. *)
Definition rectangular (m : nat) (X : sklearn.matrix) : Prop :=
  Forall (fun row => length row = m) X.

(** The frame one ticker contributes when nothing raises: the provider's
    answer without the unused columns. *)
Definition kept_frame (history : string -> option pd.DataFrame)
    (ticker : string) : option pd.DataFrame :=
  df ← history ticker; pd.drop_columns df unused_columns.

(** What the [try] block leaves in the list of frames when it raises: the
    frame as downloaded when [drop] raised, nothing when the download did. *)
Definition left_over (history : string -> option pd.DataFrame)
    (ticker : string) : list pd.DataFrame :=
  match history ticker with
  | Some df => [df]
  | None => []
  end.

(** A provider that answers ["LATE"] with the two price columns only, and
    everything else as [example_history] does. *)
Definition example_partial_history (ticker : string) : option pd.DataFrame :=
  if bool_decide (ticker = "LATE")
  then Some [("Open", [Num (Qz 1)]); ("Close", [Num (Qz 2)])]
  else example_history ticker.

(** A frame whose columns all hold [n] rows. *)
Definition frame_rows (n : nat) (df : pd.DataFrame) : Prop :=
  Forall (fun nc : string * pd.Series => length nc.2 = n) df.

(** A frame without a missing value. *)
Definition no_nan (df : pd.DataFrame) : Prop :=
  Forall (fun nc : string * pd.Series => Forall (fun x => isnan x = false) nc.2) df.

(** The names of the columns [calc_technical_indicators] adds. *)
Definition indicator_names (vw mw maw : nat) : list string :=
  ["Vol_" +:+ pretty vw; "RSI"; "MACD"; "Mom_" +:+ pretty mw;
   "MA_" +:+ pretty maw].

(** What every intermediate frame [df] of [with_indicators] on [df0]
    satisfies. *)
Definition indicator_inv (df0 : pd.DataFrame) (vw mw maw : nat)
    (df : pd.DataFrame) : Prop :=
  (forall c, c ∈ pd.columns df0 -> c ∈ pd.columns df) /\
  (forall c, c ∈ pd.columns df ->
     c ∈ pd.columns df0 \/ c ∈ indicator_names vw mw maw) /\
  (NoDup (pd.columns df0) -> NoDup (pd.columns df)) /\
  (forall n, frame_rows n df0 -> frame_rows n df).

(** *** Mean absolute percentage error *)

Definition Qc_abs (q : Qc) : Qc := if Qc_ltb q 0 then - q else q.

(** [np.abs] on one float. *)
Definition fabs (x : float64) : float64 :=
  match x with
  | Num q => Num (Qc_abs q)
  | NegZero => Num 0
  | Inf _ => Inf false
  | NaN => NaN
  end.

(** An arithmetic operator on two one-dimensional arrays: equal lengths pair
    up, an array of length one is stretched, any other pair of lengths is a
    [ValueError]. *)
Definition np_broadcast (f : float64 -> float64 -> float64)
    (a b : list float64) : result (list float64) :=
  if bool_decide (length a = length b) then ret (zip_with f a b)
  else match a, b with
       | _, [y] => ret (map (fun x => f x y) a)
       | [x], _ => ret (map (f x) b)
       | _, _ => raise ValueError
       end.

(** [np.mean]: the sum over the count; the mean of an empty array is NaN. *)
Definition np_mean (xs : list float64) : float64 :=
  match xs with
  | [] => NaN
  | x :: tl => fdiv (foldl fadd x tl) (Num (Qz (Z.of_nat (length xs))))
  end.

Definition calc_mape (actual predicted : list float64) : result float64 :=
  bind (np_broadcast fsub actual predicted) (fun difference =>
  bind (np_broadcast fdiv difference actual) (fun ratio =>
  ret (fmul (np_mean (map fabs ratio)) (Num (Qz 100))))).

(** The relative errors [|a - p| / |a|] of finite values. *)
Definition relative_errors (actual predicted : list Qc) : list Qc :=
  zip_with (fun a p => Qc_abs ((a - p) / a)) actual predicted.

(** A float that is not a number or is infinite. *)
Definition not_finite (x : float64) : Prop := x = Inf false \/ x = NaN.

(** The values an absolute ratio takes. *)
Definition abs_value (x : float64) : Prop :=
  match x with
  | Num q => 0 <= q
  | NegZero => False
  | Inf s => s = false
  | NaN => True
  end.

(** *** Create the x labels for plotting *)

(** The separator the cell puts between two feature names: [" + \n"]. *)
Definition label_separator : string :=
  " + " +:+ String (Ascii.ascii_of_nat 10) EmptyString.

(** The loop over [j] for one combination of [len] names: [j] is compared
    with [len - 2], which is negative for a combination of one name. *)
Fixpoint x_label_loop (len : nat) (j : nat) (todo : list string)
    (str : string) : string :=
  match todo with
  | [] => str
  | name :: rest =>
      let str :=
        if bool_decide (name ≠ "Close") then
          let str := str +:+ name in
          if bool_decide (Z.of_nat j ≠ Z.of_nat len - 2)%Z
          then str +:+ label_separator else str
        else str in
      x_label_loop len (S j) rest str
  end.

Definition x_label (combination : list string) : string :=
  x_label_loop (length combination) 0 combination EmptyString.

Definition x_labels (feature_combinations : list (list string)) : list string :=
  map x_label feature_combinations.

(** The line the checking cell prints for a column. *)
Definition not_stationary_line (ticker : string) (nc : string * pd.Series)
    : string :=
  ticker +:+ " " +:+ nc.1 +:+ " not stationary".

(** A column the checking cell reports, for a test routine [kpss] that
    answers on it: the p-value is below 0.05, or the table of critical
    values is empty. *)
Definition reported
    (kpss : pd.Series -> result (Qc * Qc * nat * list (string * Qc)))
    (nc : string * pd.Series) : bool :=
  match kpss nc.2 with
  | inr (_, p_value, _, critical_values) =>
      bool_decide (critical_values = []) || Qc_ltb p_value default_significance
  | inl _ => false
  end.

(** *** The lists the evaluation cell fills for one stock *)

(** An element of one of the cell's lists: the reconstructed series of one
    model, which nothing changes once it is appended, or a reference to a
    list object. *)
Inductive pyval : Type :=
| PySeries (rows : list (list float64))
| PyListRef (l : positive).

(** The cell's state: the list objects by their address, and the two
    lists of numbers. *)
Record cell_state := {
  lists : gmap positive (list pyval);
  y_test_direction_accuracy : list Qc;
  mape : list float64
}.

(** [l.append(v)] on the list object at [l]. *)
Definition list_append (l : positive) (v : pyval)
    (h : gmap positive (list pyval)) : gmap positive (list pyval) :=
  alter (fun vs => vs ++ [v]) l h.

(** The loop over the feature combinations [j] of one stock.  [pred_l] and
    [y_l] are the addresses of
    [pred_rescaled_inversed_difference_single_stock] and
    [y_test_rescaled_inversed_difference_single_stock]; [models] holds, for
    every [j], the prepared data and the prediction of the loaded model;
    [mape_of] is the call of [calc_mape] on the two reconstructed lists. *)
Fixpoint evaluation_inner_loop
    (mape_of : list (list float64) -> list (list float64) -> result float64)
    (ns_close : pd.Series) (pred_l y_l : positive)
    (models : list (prepared * sklearn.matrix)) (st : cell_state)
    : result cell_state :=
  match models with
  | [] => ret st
  | (p, pred) :: rest =>
      bind (evaluate ns_close (target_scaler p) (y_test p) pred) (fun ev =>
      let accuracy := y_test_direction_accuracy st ++ [direction_accuracy ev] in
      let h := list_append pred_l
                 (PySeries (pred_rescaled_inversed_difference ev)) (lists st) in
      let h := list_append y_l (PyListRef y_l) h in
      bind (mape_of (y_test_rescaled_inversed_difference ev)
                    (pred_rescaled_inversed_difference ev)) (fun m =>
      evaluation_inner_loop mape_of ns_close pred_l y_l rest
        {| lists := h; y_test_direction_accuracy := accuracy;
           mape := mape st ++ [m] |}))
  end.

(** One turn of the loop over the stocks: two new, empty lists, then the
    loop over the feature combinations. *)
Definition evaluation_single_stock
    (mape_of : list (list float64) -> list (list float64) -> result float64)
    (ns_close : pd.Series) (pred_l y_l : positive)
    (models : list (prepared * sklearn.matrix)) (st : cell_state)
    : result cell_state :=
  evaluation_inner_loop mape_of ns_close pred_l y_l models
    {| lists := <[y_l := []]> (<[pred_l := []]> (lists st));
       y_test_direction_accuracy := y_test_direction_accuracy st;
       mape := mape st |}.

(** [calc_mape] on two lists of one-element arrays. *)
Definition calc_mape_columns (actual predicted : list (list float64))
    : result float64 :=
  calc_mape (concat actual) (concat predicted).

(** Two models of one stock for the examples: the scaled test target and a
    prediction, with a target scaler fitted on values between 0 and 2. *)
Definition example_prepared : prepared :=
  let sc := {| sklearn.data_min_ := [0]; sklearn.data_max_ := [Qz 2];
               sklearn.scale_ := [Q2Qc (1 # 2)]; sklearn.min_ := [0] |} in
  {| x_train := []; y_train := []; x_test := [];
     y_test := [[Q2Qc (1 # 2)]; [1]];
     feature_scaler := sc; target_scaler := sc |}.

Definition example_models : list (prepared * sklearn.matrix) :=
  [(example_prepared, [[1]; [0]]); (example_prepared, [[Q2Qc (1 # 2)]; [1]])].

(** *** The result tables *)

(** [np.array(values).reshape(-1, cols)]: the rows of [cols] consecutive
    values; [ValueError] when the number of values is no multiple of [cols],
    or when [cols] is 0 and the number of rows cannot be inferred. *)
Definition np_reshape_rows {A} (values : list A) (cols : nat)
    : result (list (list A)) :=
  if bool_decide (cols = 0%nat) then raise ValueError
  else if bool_decide (length values `mod` cols = 0)%nat then
    ret (map (fun i => take cols (drop (i * cols) values))
             (seq 0 (length values `div` cols)))
  else raise ValueError.

(** [pd.DataFrame(np.array(values).reshape(-1, len(x_labels)), columns=...,
    index=tickers)]: the rows of the table; the constructor raises
    [ValueError] unless there is one row per ticker. *)
Definition results_frame {A} (values : list A) (x_labels tickers : list string)
    : result (list (list A)) :=
  bind (np_reshape_rows values (length x_labels)) (fun rows =>
  if bool_decide (length rows = length tickers) then ret rows
  else raise ValueError).

(** ** Part II: properties *)

(** *** Lists *)

Lemma lookup_map {A B} (f : A -> B) (l : list A) (i : nat) :
  map f l !! i = f <$> l !! i.
Proof. apply list_lookup_fmap. Qed.

Lemma elem_of_map {A B} (f : A -> B) (l : list A) (y : B) :
  y ∈ map f l <-> exists x, y = f x /\ x ∈ l.
Proof. apply list_elem_of_fmap. Qed.

(** *** Window formatter *)

Lemma py_slice_window {A} (x : list A) (i L : nat) :
  (L <= i <= length x)%nat ->
  length (py_slice (i - L) i x) = L /\
  forall j, (j < L)%nat -> py_slice (i - L) i x !! j = x !! (i - L + j)%nat.
Proof.
  intros Hi. unfold py_slice. split.
  - rewrite length_take, length_drop. lia.
  - intros j Hj. rewrite lookup_take_lt by lia. by rewrite lookup_drop.
Qed.

Lemma mapM_lookup_seq {B} (y : list B) (a n : nat) :
  (n = 0 \/ a + n <= length y)%nat ->
  mapM (fun i => y !! i) (seq a n) = Some (take n (drop a y)).
Proof.
  intros [-> | Hn]; [done|]. apply mapM_Some. apply Forall2_same_length_lookup. split.
  - rewrite length_seq, length_take, length_drop. lia.
  - intros k i b Hi Hb. apply lookup_seq in Hi as [-> Hk].
    rewrite lookup_take_lt, lookup_drop in Hb by lia. done.
Qed.

(** C6.  For feature rows and targets of a common length [N] and a window
    length [L], [format_dataset] returns one sample for every [i] in
    [[L, N)]: its input is the rows [[i-L, i)] of the features and its label
    is target row [i]; there are exactly [N - L] samples, which is none when
    [L >= N]. *)
Theorem format_dataset_samples {A B} (x_values : list A) (y_values : list B)
    (L N : nat) :
  length x_values = N -> length y_values = N ->
  exists dataX dataY,
    format_dataset x_values y_values L = Some (dataX, dataY) /\
    length dataX = (N - L)%nat /\ length dataY = (N - L)%nat /\
    (forall i, (L <= i < N)%nat ->
       dataY !! (i - L)%nat = y_values !! i /\
       exists w, dataX !! (i - L)%nat = Some w /\ length w = L /\
         forall j, (j < L)%nat -> w !! j = x_values !! (i - L + j)%nat) /\
    ((L < N)%nat -> length dataX = (N - L)%nat /\ dataX <> []) /\
    ((N <= L)%nat -> dataX = [] /\ dataY = []).
Proof.
  intros Hx Hy. unfold format_dataset.
  rewrite mapM_lookup_seq by lia. simpl. eexists _, _. split; [reflexivity|].
  rewrite length_map, length_seq, length_take, length_drop, Hx, Hy.
  split; [done|]. split; [lia|]. split; [|split].
  - intros i Hi. split.
    + rewrite lookup_take_lt, lookup_drop by lia. f_equal. lia.
    + exists (py_slice (i - L) i x_values). split.
      * rewrite list_lookup_fmap, lookup_seq_lt by lia. simpl.
        by replace (L + (i - L))%nat with i by lia.
      * apply py_slice_window. lia.
  - intros HL. split; [done|]. intros Hnil.
    apply (f_equal length) in Hnil. rewrite length_map, length_seq in Hnil.
    simpl in Hnil. lia.
  - intros HL. replace (N - L)%nat with 0%nat by lia. done.
Qed.

Lemma format_dataset_samples_witness :
  exists dataX dataY,
    format_dataset [1; 2; 3; 4; 5]%nat [10; 20; 30; 40; 50]%nat 2
      = Some (dataX, dataY) /\
    length dataX = (5 - 2)%nat /\ length dataY = (5 - 2)%nat /\
    (forall i, (2 <= i < 5)%nat ->
       dataY !! (i - 2)%nat = [10; 20; 30; 40; 50]%nat !! i /\
       exists w, dataX !! (i - 2)%nat = Some w /\ length w = 2%nat /\
         forall j, (j < 2)%nat ->
           w !! j = [1; 2; 3; 4; 5]%nat !! (i - 2 + j)%nat) /\
    ((2 < 5)%nat -> length dataX = (5 - 2)%nat /\ dataX <> []) /\
    ((5 <= 2)%nat -> dataX = [] /\ dataY = []).
Proof.
  apply (format_dataset_samples [1; 2; 3; 4; 5]%nat [10; 20; 30; 40; 50]%nat
           2 5); reflexivity.
Defined.

(** *** Data acquisition *)

Lemma length_list_remove (x : string) (l : list string) :
  (length (list_remove x l) <= length l)%nat.
Proof.
  induction l as [|y l IH]; simpl; [lia|].
  destruct (decide (y = x)); simpl; lia.
Qed.

Lemma fetch_step_measure history st st' :
  fetch_step history st = Some st' ->
  (length (tickers st') - pos st' < length (tickers st) - pos st)%nat.
Proof.
  unfold fetch_step. destruct (tickers st !! pos st) as [t|] eqn:Ht; [|done].
  apply lookup_lt_Some in Ht. intros [= <-].
  pose proof (length_list_remove t (tickers st)).
  destruct (history t) as [df|]; [destruct (pd.drop_columns _ _)|]; simpl; lia.
Qed.

Lemma fetch_loop_finished history fuel st :
  (length (tickers st) - pos st <= fuel)%nat ->
  fetch_step history (fetch_loop fuel history st) = None.
Proof.
  revert st. induction fuel as [|fuel IH]; intros st Hfuel; simpl.
  - unfold fetch_step. rewrite lookup_ge_None_2; [done | lia].
  - destruct (fetch_step history st) as [st'|] eqn:Hstep; [|done].
    apply IH. apply fetch_step_measure in Hstep. lia.
Qed.

(** The fuel of [get_historical_stock_data] is enough: the iterator is
    exhausted in the state the function returns. *)
Lemma get_historical_stock_data_finished history tickers0 :
  fetch_step history (get_historical_stock_data history tickers0) = None.
Proof. apply fetch_loop_finished. simpl. lia. Qed.

(** C10.  With the tickers AAPL, XXXX, MSFT and a provider that fails on XXXX
    only, the download loop removes XXXX from the list it is iterating over,
    the iterator then skips MSFT, and the function returns one frame for the
    two surviving tickers: MSFT has no frame and the lists are not
    aligned. *)
Theorem get_historical_stock_data_skips_ticker :
  let st := get_historical_stock_data example_history ["AAPL"; "XXXX"; "MSFT"] in
  tickers st = ["AAPL"; "MSFT"] /\
  hist_data st = [[("Open", [Num (Qz 1); Num (Qz 2)]);
                   ("Close", [Num (Qz 1); Num (Qz 2)])]] /\
  out st = ["Error with ticker XXXX! REMOVED it!"] /\
  length (hist_data st) <> length (tickers st) /\
  example_history "MSFT" <> None.
Proof. vm_compute. repeat split; congruence. Qed.

(** *** Stationarity check *)

Lemma kpss_unbound : notebook_globals !! "kpss" = None.
Proof. reflexivity. Qed.

(** C9.  In the notebook's namespace the name [kpss] is unbound (no cell
    imports it), so every call of [test_stationary] raises [NameError]
    instead of returning a Boolean, and the checking cell stops with that
    error at the first column of the first frame. *)
Theorem test_stationary_raises_name_error :
  (forall data significance,
     test_stationary notebook_globals data significance
       = raise (NameError "kpss")) /\
  (forall tickers name data cols frames,
     stationarity_check notebook_globals tickers (((name, data) :: cols) :: frames) 0
       = raise (NameError "kpss")).
Proof.
  assert (Hcall : forall data significance,
            test_stationary notebook_globals data significance
              = raise (NameError "kpss")).
  { intros. unfold test_stationary. rewrite kpss_unbound. reflexivity. }
  split; [exact Hcall|].
  intros. cbn [stationarity_check check_columns]. rewrite Hcall. reflexivity.
Qed.

(** Had [kpss] been bound to the test routine, [test_stationary] would
    return [False] exactly for a p-value below the significance level. *)
Lemma test_stationary_with_kpss kpss data significance stat p lags k crit :
  kpss data = ret (stat, p, lags, k :: crit) ->
  test_stationary (<["kpss" := PyKpss kpss]> notebook_globals) data significance
    = ret (Some (negb (Qc_ltb p significance))).
Proof.
  intros Hk. unfold test_stationary. rewrite lookup_insert_eq, Hk. simpl.
  by destruct (Qc_ltb p significance).
Qed.

(** *** Directional accuracy *)

Lemma np_sign_zero_iff (y : Qc) : np_sign y = 0%Z <-> y = 0.
Proof.
  unfold np_sign, Qc_ltb, Qc_eqb. repeat case_bool_decide; split; try done.
  intros ->. by destruct (Qclt_not_eq 0 0).
Qed.

Lemma sign_matches_zero_prediction (ys : list Qc) :
  sign_matches (replicate (length ys) 0) ys = count_zero ys.
Proof.
  unfold count_zero. induction ys as [|y ys IH]; [done|].
  cbn [length replicate sign_matches]. rewrite IH, filter_cons.
  replace (np_sign 0) with 0%Z by (symmetry; by apply np_sign_zero_iff).
  destruct (decide (y = 0)) as [Hy|Hy]; case_bool_decide as Hs; try done.
  - destruct Hs. symmetry. by apply np_sign_zero_iff.
  - symmetry in Hs. by apply np_sign_zero_iff in Hs.
Qed.

Lemma py_index_from_end {A} (l : list A) (n k : nat) :
  (n <= length l)%nat -> (k < n)%nat ->
  py_index l (Z.of_nat (length l) - Z.of_nat n + Z.of_nat k)
    = l !! (length l - n + k)%nat.
Proof.
  intros Hn Hk. unfold py_index. rewrite bool_decide_eq_true_2 by lia.
  f_equal. lia.
Qed.

Lemma lookup_column (l : list Qc) (k : nat) :
  column l !! k = (fun v => [v]) <$> l !! k.
Proof. apply list_lookup_fmap. Qed.

(** The loop adds target and prediction onto the level at row
    [len - n + k] and counts the equal signs. *)
Lemma evaluation_loop_spec (ns : list float64) PR (ys ps' : list Qc) (n k : nat) :
  (n <= length ns)%nat -> (k + length ps' = n)%nat -> length ys = n ->
  exists preds recs,
    evaluation_loop ns PR (column ys) n k (column ps')
      = ret (sign_matches ps' (drop k ys), preds, recs) /\
    length recs = length ps' /\
    forall j y level, ys !! (k + j)%nat = Some y ->
      ns !! (length ns - n + (k + j))%nat = Some level ->
      recs !! j = Some [fadd level (Num y)].
Proof.
  intros Hns. revert k. induction ps' as [|p ps' IH]; intros k Hk Hys.
  - simpl. eexists _, _. split; [done|]. split; [done|].
    intros j y level Hy. apply lookup_lt_Some in Hy. simpl in Hk. lia.
  - simpl in Hk. cbn [column map evaluation_loop]. fold (column ps').
    destruct (ys !! k) as [y|] eqn:Hy;
      [|apply lookup_ge_None in Hy; lia].
    rewrite lookup_column, Hy. cbn [fmap option_fmap option_map].
    unfold same_sign. cbn [zip_with bind ret].
    rewrite py_index_from_end by lia.
    destruct (lookup_lt_is_Some_2 ns (length ns - n + k)%nat) as [level Hl];
      [lia|]. rewrite Hl.
    destruct (IH (S k)) as (preds & recs & -> & Hlen & Hrec); [lia|done|].
    cbn [bind ret map]. eexists _, _. split; [|split].
    + rewrite (drop_S _ _ _ Hy). simpl. reflexivity.
    + simpl. by rewrite Hlen.
    + intros [|j] y' level' Hy' Hl'.
      * rewrite Nat.add_0_r in Hy', Hl'. rewrite Hy in Hy'. rewrite Hl in Hl'.
        by simplify_eq.
      * simpl. apply Hrec.
        -- by replace (S k + j)%nat with (k + S j)%nat by lia.
        -- by replace (S k + j)%nat with (k + S j)%nat by lia.
Qed.

(** C7 (amended).  With at least one prediction, the directional accuracy is
    the number of positions where the rescaled, still differenced prediction
    and target have the same sign, over the number of predictions; the sign
    has three values, so a model that always predicts a zero change scores
    the fraction of true changes that are exactly zero. *)
Theorem direction_accuracy_is_sign_match_fraction
    (ns : pd.Series) (ps ys : list Qc) :
  ps <> [] -> length ys = length ps -> (length ps <= length ns)%nat ->
  exists ev,
    evaluate_rescaled ns (column ps) (column ys) = ret ev /\
    direction_accuracy ev
      = Qz (Z.of_nat (sign_matches ps ys)) / Qz (Z.of_nat (length ps)) /\
    (ps = replicate (length ys) 0 ->
     direction_accuracy ev
       = Qz (Z.of_nat (count_zero ys)) / Qz (Z.of_nat (length ys))).
Proof.
  intros Hne Hlen Hns. unfold evaluate_rescaled.
  assert (Hc : length (column ps) = length ps) by apply length_map.
  rewrite Hc.
  destruct (evaluation_loop_spec ns (column ps) ys ps (length ps) 0)
    as (preds & recs & -> & _); [done..|].
  simpl. unfold accuracy_of. rewrite bool_decide_eq_false_2
    by (by destruct ps). simpl.
  eexists. split; [reflexivity|]. simpl. split; [done|].
  intros ->. by rewrite sign_matches_zero_prediction, length_replicate.
Qed.

Lemma direction_accuracy_is_sign_match_fraction_witness :
  exists ev,
    evaluate_rescaled [Num (Qz 10); Num (Qz 11); Num (Qz 9)]
      (column [Qz 2; Qz (-1)]) (column [Qz 1; Qz 3]) = ret ev /\
    direction_accuracy ev
      = Qz (Z.of_nat (sign_matches [Qz 2; Qz (-1)] [Qz 1; Qz 3]))
        / Qz (Z.of_nat (length [Qz 2; Qz (-1)])) /\
    ([Qz 2; Qz (-1)] = replicate (length [Qz 1; Qz 3]) 0 ->
     direction_accuracy ev
       = Qz (Z.of_nat (count_zero [Qz 1; Qz 3]))
         / Qz (Z.of_nat (length [Qz 1; Qz 3]))).
Proof.
  apply (direction_accuracy_is_sign_match_fraction
           [Num (Qz 10); Num (Qz 11); Num (Qz 9)]
           [Qz 2; Qz (-1)] [Qz 1; Qz 3]).
  - discriminate.
  - reflexivity.
  - simpl. lia.
Defined.

(** C7, counterexample.  True changes 1, -1, 0, 2 and a model that predicts
    0 four times: the code reports 1/4, the share of non-negative true
    changes is 3/4. *)
Lemma zero_prediction_accuracy_counterexample :
  exists ev,
    evaluate_rescaled
      [Num (Qz 10); Num (Qz 11); Num (Qz 10); Num (Qz 10); Num (Qz 12)]
      (column [0; 0; 0; 0]) (column [Qz 1; Qz (-1); 0; Qz 2]) = ret ev /\
    direction_accuracy ev = Qz 1 / Qz 4 /\
    direction_accuracy ev
      <> Qz (Z.of_nat (count_nonneg [Qz 1; Qz (-1); 0; Qz 2]))
         / Qz (Z.of_nat (length [Qz 1; Qz (-1); 0; Qz 2])).
Proof.
  eexists. split; [vm_compute; reflexivity|]. split.
  - apply Qc_is_canon. reflexivity.
  - intros H. apply (f_equal this) in H. vm_compute in H. discriminate.
Qed.

(** *** Feature subset enumeration *)

Section combinations.
Context {A : Type}.
Implicit Types (l s : list A) (r : nat).

Lemma combinations_0 l : itertools.combinations l 0 = [[]].
Proof. by destruct l. Qed.

Lemma combinations_cons x l r :
  itertools.combinations (x :: l) (S r)
    = map (cons x) (itertools.combinations l r)
      ++ itertools.combinations l (S r).
Proof. done. Qed.

Lemma combinations_length l r s :
  s ∈ itertools.combinations l r -> length s = r.
Proof.
  revert r s. induction l as [|x l IH]; intros [|r] s; simpl.
  - by intros ->%list_elem_of_singleton.
  - by intros ?%elem_of_nil.
  - by intros ->%list_elem_of_singleton.
  - rewrite elem_of_app. intros [Hs|Hs].
    + change (map (cons x) ?k) with (cons x <$> k) in Hs.
      apply list_elem_of_fmap in Hs as (s' & -> & Hs'). simpl.
      f_equal. by apply IH.
    + by apply IH.
Qed.

Lemma combinations_sublist l r s :
  s ∈ itertools.combinations l r -> s `sublist_of` l.
Proof.
  revert r s. induction l as [|x l IH]; intros [|r] s; simpl.
  - by intros ->%list_elem_of_singleton.
  - by intros ?%elem_of_nil.
  - intros ->%list_elem_of_singleton. apply sublist_nil_l.
  - rewrite elem_of_app. intros [Hs|Hs].
    + change (map (cons x) ?k) with (cons x <$> k) in Hs.
      apply list_elem_of_fmap in Hs as (s' & -> & Hs').
      apply sublist_skip. by eapply IH.
    + apply sublist_cons. by eapply IH.
Qed.

Lemma combinations_complete l s :
  s `sublist_of` l -> s ∈ itertools.combinations l (length s).
Proof.
  induction 1 as [|x s l _ IH|x s l _ IH].
  - simpl. by apply list_elem_of_singleton.
  - cbn [length]. rewrite combinations_cons. apply elem_of_app. left.
    apply elem_of_map. eauto.
  - destruct s as [|y s]; [rewrite combinations_0; by apply list_elem_of_singleton|].
    cbn [length] in *. rewrite combinations_cons. apply elem_of_app. by right.
Qed.

Lemma elem_of_combinations l r s :
  s ∈ itertools.combinations l r <-> s `sublist_of` l /\ length s = r.
Proof.
  split.
  - eauto using combinations_sublist, combinations_length.
  - intros [Hs <-]. by apply combinations_complete.
Qed.

Lemma combinations_too_long l r :
  (length l < r)%nat -> itertools.combinations l r = [].
Proof.
  revert r. induction l as [|x l IH]; intros [|r] Hr; simpl in *; try lia.
  - done.
  - rewrite !IH by lia. done.
Qed.

Lemma combinations_NoDup l r : NoDup l -> NoDup (itertools.combinations l r).
Proof.
  intros Hl. revert r. induction Hl as [|x l Hx Hl IH]; intros [|r]; simpl.
  - apply NoDup_singleton.
  - apply NoDup_nil_2.
  - apply NoDup_singleton.
  - apply NoDup_app. split; [|split].
    + change (map (cons x) ?k) with (cons x <$> k).
      apply NoDup_fmap_2; [|apply IH]. by intros ?? [=].
    + intros s Hs Hs'.
      change (map (cons x) ?k) with (cons x <$> k) in Hs.
      apply list_elem_of_fmap in Hs as (s' & -> & _).
      apply combinations_sublist in Hs'. apply Hx.
      eapply elem_of_sublist; [|exact Hs']. by left.
    + apply IH.
Qed.

Lemma combinations_upto_cons x l m :
  combinations_upto (x :: l) (S m)
    = (combinations_upto l (S m) + combinations_upto l m)%nat.
Proof.
  unfold combinations_upto. cbn [seq map foldr].
  rewrite !combinations_0. cbn [length].
  rewrite <- !seq_shift, !map_map.
  assert (forall k,
    foldr Nat.add 0%nat
      (map (fun r => length (itertools.combinations (x :: l) (S r))) k)
    = (foldr Nat.add 0%nat
         (map (fun r => length (itertools.combinations l (S r))) k)
       + foldr Nat.add 0%nat
           (map (fun r => length (itertools.combinations l r)) k))%nat)
    as ->; [|lia].
  intros k. induction k as [|r k IH]; [done|].
  cbn [map foldr]. rewrite IH, combinations_cons, length_app, length_map. lia.
Qed.

Lemma combinations_upto_all l m :
  (length l < m)%nat -> combinations_upto l m = (2 ^ length l)%nat.
Proof.
  revert m. induction l as [|x l IH]; intros m Hm.
  - destruct m as [|m]; [simpl in Hm; lia|].
    unfold combinations_upto. cbn [seq map foldr length].
    rewrite <- seq_shift, map_map.
    assert (forall k : list nat,
      foldr Nat.add 0%nat
        (map (fun r => length (itertools.combinations (@nil A) (S r))) k)
      = 0%nat) as ->; [|done].
    intros k. induction k as [|r k IHk]; [done|]. simpl. exact IHk.
  - destruct m as [|m]; [simpl in Hm; lia|]. cbn [length] in Hm.
    rewrite combinations_upto_cons, !IH by lia.
    cbn [length]. rewrite Nat.pow_succ_r'. lia.
Qed.

End combinations.

Lemma feature_combinations_rows (cols : list string) :
  feature_combinations cols
    = concat (map (combination_row (take (length cols - 1) cols))
                  (seq 0 (length cols + 1))).
Proof. done. Qed.

Lemma elem_of_concat {A} (x : A) (ls : list (list A)) :
  x ∈ concat ls <-> exists l, l ∈ ls /\ x ∈ l.
Proof.
  induction ls as [|l ls IH]; simpl.
  - split; [by intros ?%elem_of_nil | by intros (? & ?%elem_of_nil & _)].
  - rewrite elem_of_app, IH. split.
    + intros [Hx | (l' & Hl' & Hx)]; [exists l | exists l']; split; try done;
        [by left | by right].
    + intros (l' & [-> | Hl']%elem_of_cons & Hx); [by left | right; eauto].
Qed.

Lemma combination_row_0 feats : combination_row feats 0 = [].
Proof. unfold combination_row. by rewrite combinations_0. Qed.

Lemma filter_all {A} (P : A -> Prop) `{forall x, Decision (P x)} (l : list A) :
  Forall P l -> filter P l = l.
Proof.
  induction 1 as [|x l Hx _ IH]; [done|]. by rewrite filter_cons_True, IH.
Qed.

Lemma combination_row_S feats r :
  combination_row feats (S r)
    = map (fun subset => subset ++ ["Close"]) (itertools.combinations feats (S r)).
Proof.
  unfold combination_row. f_equal. apply filter_all. apply Forall_forall.
  intros s Hs%combinations_length. lia.
Qed.

Lemma elem_of_combination_row feats i c :
  c ∈ combination_row feats i <->
  exists s, c = s ++ ["Close"] /\ s <> [] /\ s `sublist_of` feats /\ length s = i.
Proof.
  destruct i as [|r].
  - rewrite combination_row_0. split; [by intros ?%elem_of_nil|].
    intros (s & _ & Hne & _ & Hlen). by destruct s.
  - rewrite combination_row_S.
    change (map ?f ?k) with (f <$> k). rewrite list_elem_of_fmap.
    split.
    + intros (s & -> & Hs). apply elem_of_combinations in Hs as [Hsub Hlen].
      exists s. repeat split; try done. by destruct s.
    + intros (s & -> & _ & Hsub & Hlen). exists s. split; [done|].
      by apply elem_of_combinations.
Qed.

Lemma combination_row_length feats i c :
  c ∈ combination_row feats i -> length c = S i.
Proof.
  intros (s & -> & _ & _ & <-)%elem_of_combination_row.
  rewrite length_app. simpl. lia.
Qed.

Lemma app_close_inj : Inj (=) (=) (fun subset : list string => subset ++ ["Close"]).
Proof. intros s1 s2 Hs. by apply app_inv_tail in Hs. Qed.

Lemma combination_row_NoDup feats i :
  NoDup feats -> NoDup (combination_row feats i).
Proof.
  intros Hf. destruct i as [|r].
  - rewrite combination_row_0. apply NoDup_nil_2.
  - rewrite combination_row_S. change (map ?f ?k) with (f <$> k).
    apply (NoDup_fmap_2 _ (Inj0 := app_close_inj)).
    by apply combinations_NoDup.
Qed.

(** Rows [a .. a+m-1] in a row: sizes ascend and nothing repeats. *)
Lemma rows_elem feats a m c :
  c ∈ concat (map (combination_row feats) (seq a m)) ->
  (a < length c)%nat.
Proof.
  intros (row & Hrow & Hc)%elem_of_concat.
  change (map ?f ?k) with (f <$> k) in Hrow.
  apply list_elem_of_fmap in Hrow as (i & -> & Hi).
  apply elem_of_seq in Hi. apply combination_row_length in Hc. lia.
Qed.

Lemma rows_sorted feats a m :
  StronglySorted (fun c1 c2 : list string => (length c1 <= length c2)%nat)
    (concat (map (combination_row feats) (seq a m))).
Proof.
  revert a. induction m as [|m IH]; intros a; simpl; [constructor|].
  apply StronglySorted_app. split; [|split].
  - intros c1 c2 Hc1%combination_row_length Hc2%rows_elem. lia.
  - generalize (combination_row_length feats a).
    induction (combination_row feats a) as [|c k IHk]; intros Hlen;
      constructor.
    + apply IHk. intros c' Hc'. apply Hlen. by right.
    + apply Forall_forall. intros c' Hc'.
      rewrite (Hlen c) by left. rewrite (Hlen c') by (by right). done.
  - apply IH.
Qed.

Lemma rows_NoDup feats a m :
  NoDup feats -> NoDup (concat (map (combination_row feats) (seq a m))).
Proof.
  intros Hf. revert a. induction m as [|m IH]; intros a; simpl.
  - apply NoDup_nil_2.
  - apply NoDup_app. split; [by apply combination_row_NoDup|]. split; [|apply IH].
    intros c Hc1%combination_row_length Hc2%rows_elem. lia.
Qed.

Lemma rows_length_from feats a m :
  (1 <= a)%nat ->
  length (concat (map (combination_row feats) (seq a m)))
    = foldr Nat.add 0%nat
        (map (fun r => length (itertools.combinations feats r)) (seq a m)).
Proof.
  revert a. induction m as [|m IH]; intros a Ha; [done|].
  cbn [seq map concat foldr]. rewrite length_app, IH by lia. f_equal.
  destruct a as [|a]; [lia|]. by rewrite combination_row_S, length_map.
Qed.

Lemma rows_length feats m :
  length (concat (map (combination_row feats) (seq 0 (S m))))
    = (combinations_upto feats (S m) - 1)%nat.
Proof.
  unfold combinations_upto. cbn [seq map concat foldr].
  rewrite combination_row_0, combinations_0. cbn [app length].
  rewrite rows_length_from by lia. lia.
Qed.

(** The entries of one size are the combinations of that size, in the order
    of [itertools.combinations]. *)
Lemma rows_filter_size feats r a m :
  filter (fun c : list string => length c = S r)
         (concat (map (combination_row feats) (seq a m)))
    = if bool_decide (a <= r < a + m)%nat then combination_row feats r else [].
Proof.
  revert a. induction m as [|m IH]; intros a.
  - simpl. rewrite bool_decide_eq_false_2 by lia. done.
  - cbn [seq map concat]. rewrite filter_app, IH.
    destruct (decide (a = r)) as [->|Hne].
    + rewrite filter_all
        by (apply Forall_forall; intros c Hc;
            by apply (combination_row_length feats)).
      rewrite bool_decide_eq_false_2, bool_decide_eq_true_2 by lia.
      by rewrite app_nil_r.
    + replace (filter _ (combination_row feats a)) with (@nil (list string)).
      * simpl. do 2 case_bool_decide; try done; lia.
      * symmetry.
        assert (Hfa : Forall (fun c => length c = S a) (combination_row feats a))
          by (apply Forall_forall; intros c Hc;
              by apply (combination_row_length feats)).
        induction Hfa as [|c k Hc _ IHk]; [done|].
        rewrite filter_cons_False by lia. done.
Qed.

(** *** Shape of the indicator frame *)

Ltac name_neq :=
  let H := fresh in intros H; cbn -[pretty] in H; discriminate H.

Ltac decide_names :=
  repeat match goal with
  | |- context [decide (?a = ?b)] =>
      first [ rewrite (decide_True (P := a = b)) by reflexivity
            | rewrite (decide_False (P := a = b)) by name_neq ]
  end.

Ltac frame_step :=
  repeat first
    [ progress cbn [pd.getitem pd.setitem pd.pop mbind option_bind
                    option_ret mret]
    | progress decide_names ].

Lemma with_indicators_raw sqrt vw mw maw open close :
  with_indicators sqrt vw mw maw (raw_frame open close)
    = Some [("Open", open); ("Close", close);
            ("Vol_" +:+ pretty vw, pd.rolling_std sqrt vw open);
            ("RSI", rsi open); ("MACD", macd open);
            ("Mom_" +:+ pretty mw, momentum mw open);
            ("MA_" +:+ pretty maw, pd.rolling_mean maw open)].
Proof. unfold with_indicators, raw_frame. frame_step. reflexivity. Qed.

Lemma calc_technical_indicators_frame_raw sqrt vw mw maw open close :
  let keep := indicator_mask sqrt vw mw maw open close in
  calc_technical_indicators_frame sqrt vw mw maw (raw_frame open close)
    = Some [("Open", pd.filter_mask keep open);
            ("Vol_" +:+ pretty vw,
               pd.filter_mask keep (pd.rolling_std sqrt vw open));
            ("RSI", pd.filter_mask keep (rsi open));
            ("MACD", pd.filter_mask keep (macd open));
            ("Mom_" +:+ pretty mw, pd.filter_mask keep (momentum mw open));
            ("MA_" +:+ pretty maw,
               pd.filter_mask keep (pd.rolling_mean maw open));
            ("Close", pd.filter_mask keep close)].
Proof.
  intros keep. unfold calc_technical_indicators_frame.
  rewrite with_indicators_raw. cbn [mbind option_bind].
  unfold pd.dropna. cbn [pd.nrows map fst snd].
  fold (indicator_mask sqrt vw mw maw open close). fold keep.
  cbn [pd.columns map fst length Nat.sub]. frame_step.
  unfold pd.insert. cbn [pd.columns map fst length].
  rewrite bool_decide_eq_false_2.
  - rewrite bool_decide_eq_true_2 by lia. reflexivity.
  - rewrite !elem_of_cons, elem_of_nil. intros H.
    repeat (destruct H as [H|H]; [by (cbn -[pretty] in H; discriminate H)|]).
    done.
Qed.

Lemma columns_dropna df : pd.columns (pd.dropna df) = pd.columns df.
Proof. unfold pd.columns, pd.dropna. rewrite map_map. done. Qed.

Lemma columns_frame_diff df : pd.columns (pd.frame_diff df) = pd.columns df.
Proof. unfold pd.columns, pd.frame_diff. rewrite map_map. done. Qed.

Lemma columns_make_stationary_frame df :
  pd.columns (make_stationary_frame df) = pd.columns df.
Proof.
  unfold make_stationary_frame. by rewrite columns_dropna, columns_frame_diff.
Qed.

(** The columns of the first stationary frame in the default run. *)
Lemma default_columns sqrt open close :
  exists df,
    calc_technical_indicators_frame sqrt 20 20 20 (raw_frame open close)
      = Some df /\
    pd.columns (make_stationary_frame df)
      = ["Open"; "Vol_20"; "RSI"; "MACD"; "Mom_20"; "MA_20"; "Close"].
Proof.
  eexists. split; [apply calc_technical_indicators_frame_raw|].
  by rewrite columns_make_stationary_frame.
Qed.

(** C2 (amended).  [feature_combinations] lists exactly the non-empty
    subsequences of the columns before the last one, each with "Close"
    appended; without repetition when the column names are distinct; there
    are [2^k - 1] of them for [k] such columns; sizes ascend and the entries
    of one size come in the order of [itertools.combinations].  In the
    default run these columns are the Open price and the five indicators, so
    the list has [2^6 - 1 = 63] entries. *)
Theorem feature_combinations_enumerates (cols : list string) :
  let feats := take (length cols - 1) cols in
  let fc := feature_combinations cols in
  (forall c, c ∈ fc <->
     exists s, c = s ++ ["Close"] /\ s <> [] /\ s `sublist_of` feats) /\
  (NoDup feats -> NoDup fc) /\
  length fc = (2 ^ length feats - 1)%nat /\
  StronglySorted (fun c1 c2 : list string => (length c1 <= length c2)%nat) fc /\
  (forall r, filter (fun c : list string => length c = S (S r)) fc
             = map (fun s => s ++ ["Close"])
                   (itertools.combinations feats (S r))) /\
  (forall sqrt open close, exists df,
     calc_technical_indicators_frame sqrt 20 20 20 (raw_frame open close)
       = Some df /\
     pd.columns (make_stationary_frame df)
       = ["Open"; "Vol_20"; "RSI"; "MACD"; "Mom_20"; "MA_20"; "Close"] /\
     length (feature_combinations (pd.columns (make_stationary_frame df)))
       = 63%nat).
Proof.
  intros feats fc. unfold fc. rewrite feature_combinations_rows. fold feats.
  assert (Hk : (length feats <= length cols)%nat)
    by (unfold feats; rewrite length_take; lia).
  split; [|split; [|split; [|split; [|split]]]].
  - intros c. rewrite elem_of_concat. split.
    + intros (row & Hrow & Hc).
      change (map ?f ?k) with (f <$> k) in Hrow.
      apply list_elem_of_fmap in Hrow as (i & -> & _).
      apply elem_of_combination_row in Hc as (s & ? & ? & ? & _). eauto.
    + intros (s & -> & Hne & Hsub).
      exists (combination_row feats (length s)). split.
      * change (map ?f ?k) with (f <$> k). apply list_elem_of_fmap_2.
        apply elem_of_seq. apply sublist_length in Hsub. lia.
      * apply elem_of_combination_row. eauto.
  - apply rows_NoDup.
  - rewrite Nat.add_1_r, rows_length, combinations_upto_all by lia. done.
  - apply rows_sorted.
  - intros r. rewrite rows_filter_size. case_bool_decide as Hr.
    + apply combination_row_S.
    + rewrite combinations_too_long by lia. done.
  - intros sqrt open close.
    destruct (default_columns sqrt open close) as (df & Hdf & Hcols).
    exists df. split; [done|]. split; [done|]. by rewrite Hcols.
Qed.

(** C2, counterexample.  On ninety rows of prices with the default windows
    the enumeration has 63 entries, not 31: the Open column is one of the
    columns before "Close". *)
Lemma feature_combinations_count_counterexample :
  exists df,
    calc_technical_indicators_frame Qc_sqrt 20 20 20
      (raw_frame example_open example_close) = Some df /\
    ["Open"; "Close"] ∈ feature_combinations (pd.columns (make_stationary_frame df)) /\
    length (feature_combinations (pd.columns (make_stationary_frame df)))
      <> (2 ^ 5 - 1)%nat.
Proof.
  destruct (default_columns Qc_sqrt example_open example_close)
    as (df & Hdf & Hcols).
  exists df. split; [done|]. rewrite Hcols. split.
  - vm_compute. by left.
  - vm_compute. discriminate.
Qed.

(** *** Stationarity transform *)

Lemma fsub_Num (a b : Qc) : fsub (Num a) (Num b) = Num (a - b).
Proof.
  unfold fsub, fneg, Qc_eqb. case_bool_decide as Hb; simpl.
  - subst b. f_equal. ring.
  - reflexivity.
Qed.

Lemma zip_with_fsub_Num (xs ys : list Qc) :
  zip_with fsub (map Num xs) (map Num ys) = map Num (zip_with Qcminus xs ys).
Proof.
  revert ys. induction xs as [|x xs IH]; intros [|y ys]; try done.
  cbn [map zip_with]. by rewrite fsub_Num, IH.
Qed.

Lemma diff_Num (qs : list Qc) :
  pd.diff (map Num qs)
    = match qs with [] => [] | _ :: _ => NaN :: map Num (first_differences qs) end.
Proof.
  destruct qs as [|q qs]; [done|]. unfold first_differences, pd.diff.
  cbn [map tail]. by rewrite <- (zip_with_fsub_Num qs (q :: qs)).
Qed.

Lemma length_first_differences (qs : list Qc) :
  length (first_differences qs) = (length qs - 1)%nat.
Proof.
  unfold first_differences. rewrite length_zip_with.
  destruct qs; simpl; lia.
Qed.

Lemma lookup_first_differences (qs : list Qc) (t : nat) (a b : Qc) :
  qs !! t = Some a -> qs !! S t = Some b ->
  first_differences qs !! t = Some (b - a).
Proof.
  intros Ha Hb. unfold first_differences. rewrite lookup_zip_with.
  destruct qs as [|q qs]; [done|]. simpl in *. by rewrite Hb, Ha.
Qed.

(** With exact sums and differences the running sum of the differences,
    added onto the first value, gives back the rest of the column; the
    doubles of the program round, and do not. *)
Lemma running_sum_first_differences (q0 : Qc) (rest : list Qc) :
  running_sum q0 (first_differences (q0 :: rest)) = rest.
Proof.
  revert q0. induction rest as [|q1 rest IH]; intros q0; [done|].
  unfold first_differences in *. simpl in *.
  replace (q0 + (q1 - q0)) with q1 by ring. by rewrite IH.
Qed.

Lemma filter_mask_all {A} (l : list A) :
  pd.filter_mask (replicate (length l) true) l = l.
Proof. induction l as [|x l IH]; simpl; [done | by rewrite IH]. Qed.

Lemma row_has_na_Num (cols : list (string * list Qc)) (i : nat) :
  pd.row_has_na (frame_of cols) i = false.
Proof.
  unfold frame_of, pd.row_has_na.
  induction cols as [|[n qs] cols IH]; [done|].
  cbn [map existsb fst snd]. rewrite IH, orb_false_r, lookup_map.
  by destruct (qs !! i).
Qed.

Lemma row_has_na_with_nan_row_0 (cols : list (string * list Qc)) :
  cols <> [] -> pd.row_has_na (with_nan_row cols) 0 = true.
Proof. by destruct cols as [|[n qs] cols]. Qed.

Lemma row_has_na_with_nan_row_S (cols : list (string * list Qc)) (j : nat) :
  pd.row_has_na (with_nan_row cols) (S j) = false.
Proof.
  rewrite <- (row_has_na_Num cols j).
  unfold with_nan_row, frame_of, pd.row_has_na.
  induction cols as [|[n qs] cols IH]; [done|].
  cbn [map existsb fst snd]. by rewrite IH.
Qed.

Lemma map_const_seq {A} (x : A) (a n : nat) :
  map (fun _ => x) (seq a n) = replicate n x.
Proof. revert a. induction n as [|n IH]; intros a; simpl; [done | by rewrite IH]. Qed.

Lemma dropna_with_nan_row (cols : list (string * list Qc)) (n : nat) :
  cols <> [] -> Forall (fun nc => length nc.2 = n) cols ->
  pd.dropna (with_nan_row cols) = frame_of cols.
Proof.
  intros Hne Hlen. unfold pd.dropna.
  assert (Hrows : pd.nrows (with_nan_row cols) = S n).
  { destruct Hlen as [|[c qs] cols Hq _]; [done|]. simpl in *.
    by rewrite length_map, Hq. }
  rewrite Hrows. cbn [seq map]. rewrite row_has_na_with_nan_row_0 by done.
  rewrite <- seq_shift, map_map.
  rewrite (map_ext _ (fun _ => true))
    by (intros; by rewrite row_has_na_with_nan_row_S).
  rewrite map_const_seq. unfold with_nan_row, frame_of. rewrite map_map.
  apply map_ext_Forall. eapply Forall_impl; [exact Hlen|].
  intros [c qs] Hq. simpl in *. f_equal.
  rewrite <- Hq, <- (length_map Num). apply filter_mask_all.
Qed.

Lemma frame_diff_Num (cols : list (string * list Qc)) (n : nat) :
  Forall (fun nc => length nc.2 = S n) cols ->
  pd.frame_diff (frame_of cols) = with_nan_row (differenced cols).
Proof.
  intros Hlen. unfold pd.frame_diff, frame_of, with_nan_row, differenced.
  rewrite !map_map. apply map_ext_Forall. eapply Forall_impl; [exact Hlen|].
  intros [c qs] Hq. simpl in *. rewrite diff_Num. by destruct qs.
Qed.

Lemma differenced_lengths (cols : list (string * list Qc)) (n : nat) :
  Forall (fun nc => length nc.2 = n) cols ->
  Forall (fun nc => length nc.2 = (n - 1)%nat) (differenced cols).
Proof.
  intros Hlen. unfold differenced. apply Forall_fmap.
  eapply Forall_impl; [exact Hlen|]. intros [c qs] Hq. simpl in *.
  by rewrite length_first_differences, Hq.
Qed.

(** On finite columns of one length the transform yields the first
    differences of every column. *)
Lemma make_stationary_frame_Num (cols : list (string * list Qc)) (n : nat) :
  cols <> [] -> Forall (fun nc => length nc.2 = n) cols ->
  make_stationary_frame (frame_of cols) = frame_of (differenced cols).
Proof.
  intros Hne Hlen. unfold make_stationary_frame. destruct n as [|n].
  - assert (Hnil : Forall (fun nc : string * list Qc => nc.2 = []) cols).
    { eapply Forall_impl; [exact Hlen|]. intros [c qs] Hq.
      by apply nil_length_inv. }
    assert (Hd : pd.frame_diff (frame_of cols) = frame_of (differenced cols)).
    { unfold pd.frame_diff, frame_of, differenced. rewrite !map_map.
      apply map_ext_Forall. eapply Forall_impl; [exact Hnil|].
      intros [c qs] Hq. simpl in *. by subst qs. }
    rewrite Hd. unfold pd.dropna.
    assert (Hrows : pd.nrows (frame_of (differenced cols)) = 0%nat).
    { destruct Hnil as [|[c qs] cols Hq _]; [done|]. simpl in *. by subst qs. }
    rewrite Hrows. simpl. unfold frame_of, differenced. rewrite !map_map.
    apply map_ext_Forall. eapply Forall_impl; [exact Hnil|].
    intros [c qs] Hq. simpl in *. by subst qs.
  - rewrite (frame_diff_Num cols n) by done.
    apply (dropna_with_nan_row _ n).
    + by destruct cols.
    + apply (differenced_lengths _ (S n)) in Hlen.
      by replace (S n - 1)%nat with n in Hlen by lia.
Qed.




Section round_trip_in_doubles.
Import PrimFloat.


End round_trip_in_doubles.

(** *** Scaling and splitting *)

Lemma Qc_min_le_l (a b : Qc) : sklearn.Qc_min a b <= a.
Proof.
  unfold sklearn.Qc_min, Qc_leb. case_bool_decide as H; [apply Qcle_refl|].
  apply Qclt_le_weak. by apply Qcnot_le_lt.
Qed.

Lemma Qc_min_le_r (a b : Qc) : sklearn.Qc_min a b <= b.
Proof. unfold sklearn.Qc_min, Qc_leb. case_bool_decide; [done | apply Qcle_refl]. Qed.

Lemma Qc_min_cases (a b : Qc) : sklearn.Qc_min a b = a \/ sklearn.Qc_min a b = b.
Proof. unfold sklearn.Qc_min. destruct (Qc_leb a b); auto. Qed.

Lemma Qc_max_ge_l (a b : Qc) : a <= sklearn.Qc_max a b.
Proof. unfold sklearn.Qc_max, Qc_leb. case_bool_decide; [done | apply Qcle_refl]. Qed.

Lemma Qc_max_ge_r (a b : Qc) : b <= sklearn.Qc_max a b.
Proof.
  unfold sklearn.Qc_max, Qc_leb. case_bool_decide as H; [apply Qcle_refl|].
  apply Qclt_le_weak. by apply Qcnot_le_lt.
Qed.

Lemma Qc_max_cases (a b : Qc) : sklearn.Qc_max a b = a \/ sklearn.Qc_max a b = b.
Proof. unfold sklearn.Qc_max. destruct (Qc_leb a b); auto. Qed.

Section column_extreme.
Variables (f : Qc -> Qc -> Qc) (R : Qc -> Qc -> Prop).
Hypothesis R_refl : forall a, R a a.
Hypothesis R_trans : forall a b c, R a b -> R b c -> R a c.
Hypothesis f_l : forall a b, R (f a b) a.
Hypothesis f_r : forall a b, R (f a b) b.
Hypothesis f_cases : forall a b, f a b = a \/ f a b = b.

(** Folding [f] down the rows gives, in every column, a value of that
    column that is [R]-below all of them. *)
Lemma foldl_zip_extreme (rows : list (list Qc)) (row : list Qc) (j : nat) (m : Qc) :
  foldl (zip_with f) row rows !! j = Some m ->
  (forall r, r ∈ row :: rows -> exists v, r !! j = Some v /\ R m v) /\
  (exists r, r ∈ row :: rows /\ r !! j = Some m).
Proof using R_refl R_trans f_l f_r f_cases.
  revert row. induction rows as [|r0 rows IH]; intros row Hm; simpl in Hm.
  - split.
    + intros r ->%list_elem_of_singleton. eauto.
    + exists row. split; [by left | done].
  - destruct (IH _ Hm) as [Hall (r & Hr & Hat)].
    destruct (Hall (zip_with f row r0)) as (v0 & Hv0 & Rv0); [by left|].
    apply lookup_zip_with_Some in Hv0 as (x & y & -> & Hx & Hy).
    split.
    + intros r' [->|[->|Hr']%elem_of_cons]%elem_of_cons.
      * exists x. eauto.
      * exists y. eauto.
      * apply Hall. by right.
    + apply elem_of_cons in Hr as [->|Hr].
      * apply lookup_zip_with_Some in Hat as (x' & y' & -> & Hx' & Hy').
        destruct (f_cases x' y') as [Hf|Hf]; rewrite Hf.
        -- exists row. split; [by left | done].
        -- exists r0. split; [right; by left | done].
      * exists r. split; [by do 2 right | done].
Qed.

End column_extreme.

(** What [fit] stores: in every column the least and the greatest value
    among all rows it was given. *)
Lemma fit_min_max (X : sklearn.matrix) (sc : sklearn.MinMaxScaler) :
  sklearn.fit X = Some sc ->
  (forall j mn, sklearn.data_min_ sc !! j = Some mn ->
     (forall r, r ∈ X -> exists v, r !! j = Some v /\ mn <= v) /\
     (exists r, r ∈ X /\ r !! j = Some mn)) /\
  (forall j mx, sklearn.data_max_ sc !! j = Some mx ->
     (forall r, r ∈ X -> exists v, r !! j = Some v /\ v <= mx) /\
     (exists r, r ∈ X /\ r !! j = Some mx)).
Proof.
  destruct X as [|row rows]; [done|]. intros [= <-]. simpl. split.
  - intros j mn. apply (foldl_zip_extreme sklearn.Qc_min Qcle).
    + apply Qcle_refl.
    + apply Qcle_trans.
    + apply Qc_min_le_l.
    + apply Qc_min_le_r.
    + apply Qc_min_cases.
  - intros j mx. apply (foldl_zip_extreme sklearn.Qc_max (fun a b => b <= a)).
    + apply Qcle_refl.
    + intros a b c H1 H2. by apply Qcle_trans with b.
    + apply Qc_max_ge_l.
    + apply Qc_max_ge_r.
    + apply Qc_max_cases.
Qed.

Lemma transform_take sc n X :
  take n (sklearn.transform sc X) = sklearn.transform sc (take n X).
Proof. unfold sklearn.transform. by rewrite <- fmap_take. Qed.

Lemma transform_drop sc n X :
  drop n (sklearn.transform sc X) = sklearn.transform sc (drop n X).
Proof. unfold sklearn.transform. by rewrite <- fmap_drop. Qed.

(** C3 (amended).  For one (stock, feature combination) frame, each scaler is
    fitted once, on all rows of the frame, training and test period
    together: its minima and maxima are the column minima and maxima over
    all rows.  The training and the test slice that [split_data] returns are
    the transform, under that one scaler, of the first [n_train] rows and of
    the rows after them. *)
Theorem scalers_fitted_on_all_rows (df : pd.DataFrame)
    (sf st : sklearn.matrix) (fs ts : sklearn.MinMaxScaler) (train_size : Qc)
    (xtr xte ytr yte : sklearn.matrix) :
  scale_values_frame df = Some (sf, st, fs, ts) ->
  sklearn.train_test_split sf st train_size = Some (xtr, xte, ytr, yte) ->
  exists F T,
    to_numpy (filter (fun nc => negb (is_close nc)) df) = Some F /\
    to_numpy (filter (fun nc => is_close nc) df) = Some T /\
    length F = length T /\
    sklearn.fit F = Some fs /\ sklearn.fit T = Some ts /\
    (forall j mn, sklearn.data_min_ ts !! j = Some mn ->
       (forall r, r ∈ T -> exists v, r !! j = Some v /\ mn <= v) /\
       (exists r, r ∈ T /\ r !! j = Some mn)) /\
    (forall j mx, sklearn.data_max_ ts !! j = Some mx ->
       (forall r, r ∈ T -> exists v, r !! j = Some v /\ v <= mx) /\
       (exists r, r ∈ T /\ r !! j = Some mx)) /\
    (forall j mn, sklearn.data_min_ fs !! j = Some mn ->
       (forall r, r ∈ F -> exists v, r !! j = Some v /\ mn <= v) /\
       (exists r, r ∈ F /\ r !! j = Some mn)) /\
    (forall j mx, sklearn.data_max_ fs !! j = Some mx ->
       (forall r, r ∈ F -> exists v, r !! j = Some v /\ v <= mx) /\
       (exists r, r ∈ F /\ r !! j = Some mx)) /\
    let n := n_train_of train_size (length F) in
    xtr = sklearn.transform fs (take n F) /\
    xte = sklearn.transform fs (drop n F) /\
    ytr = sklearn.transform ts (take n T) /\
    yte = sklearn.transform ts (drop n T).
Proof.
  unfold scale_values_frame. intros Hscale Hsplit.
  apply bind_Some in Hscale as (F & HF & Hscale).
  apply bind_Some in Hscale as (fs' & Hfs & Hscale).
  apply bind_Some in Hscale as (T & HT & Hscale).
  apply bind_Some in Hscale as (ts' & Hts & Hscale).
  injection Hscale as <- <- <- <-.
  unfold sklearn.train_test_split in Hsplit.
  destruct (bool_decide (length (sklearn.transform fs' F)
                         = length (sklearn.transform ts' T))) eqn:Hlen;
    [|discriminate Hsplit].
  apply bool_decide_eq_true in Hlen.
  unfold sklearn.transform in Hlen. rewrite !length_map in Hlen.
  cbn [andb] in Hsplit.
  destruct (Qc_ltb 0 train_size && Qc_ltb train_size 1);
    [|discriminate Hsplit].
  case_bool_decide; [discriminate Hsplit|].
  injection Hsplit as <- <- <- <-.
  exists F, T. split; [done|]. split; [done|]. split; [done|].
  split; [done|]. split; [done|].
  destruct (fit_min_max T ts' Hts) as [Htmin Htmax].
  destruct (fit_min_max F fs' Hfs) as [Hfmin Hfmax].
  do 4 (split; [done|]).
  unfold n_train_of.
  replace (length (sklearn.transform fs' F)) with (length F)
    by (unfold sklearn.transform; by rewrite length_map).
  by rewrite !transform_take, !transform_drop.
Qed.

Lemma scalers_fitted_on_all_rows_witness :
  exists sf st fs ts xtr xte ytr yte,
    scale_values_frame leak_frame_a = Some (sf, st, fs, ts) /\
    sklearn.train_test_split sf st default_train_size
      = Some (xtr, xte, ytr, yte) /\
    exists F T,
      sklearn.fit F = Some fs /\ sklearn.fit T = Some ts /\
      xtr = sklearn.transform fs (take (n_train_of default_train_size (length F)) F) /\
      yte = sklearn.transform ts (drop (n_train_of default_train_size (length F)) T).
Proof.
  destruct (scale_values_frame leak_frame_a) as [[[[sf st] fs] ts]|] eqn:Hs;
    [|vm_compute in Hs; discriminate].
  destruct (sklearn.train_test_split sf st default_train_size)
    as [[[[xtr xte] ytr] yte]|] eqn:Hsp.
  - exists sf, st, fs, ts, xtr, xte, ytr, yte. split; [done|]. split; [done|].
    destruct (scalers_fitted_on_all_rows leak_frame_a sf st fs ts
                default_train_size xtr xte ytr yte Hs Hsp)
      as (F & T & _ & _ & _ & HfF & HfT & _ & _ & _ & _ & Hx & _ & _ & Hy).
    exists F, T. done.
  - vm_compute in Hs. injection Hs as <- <- <- <-.
    vm_compute in Hsp. discriminate.
Defined.

(** C3, counterexample.  Two frames with the same four training rows and a
    different held-out fifth row: the target scalers differ (their maxima
    are 5 and 9), so the scaler is not determined by the training rows. *)
Lemma scaler_depends_on_test_rows_counterexample :
  exists sfa sta fsa tsa sfb stb fsb tsb,
    scale_values_frame leak_frame_a = Some (sfa, sta, fsa, tsa) /\
    scale_values_frame leak_frame_b = Some (sfb, stb, fsb, tsb) /\
    n_train_of default_train_size 5 = 4%nat /\
    head_rows 4 leak_frame_a = head_rows 4 leak_frame_b /\
    sklearn.data_max_ tsa = [Qz 5] /\ sklearn.data_max_ tsb = [Qz 9] /\
    tsa <> tsb.
Proof.
  destruct (scale_values_frame leak_frame_a) as [[[[sfa sta] fsa] tsa]|] eqn:Ha;
    [|vm_compute in Ha; discriminate].
  destruct (scale_values_frame leak_frame_b) as [[[[sfb stb] fsb] tsb]|] eqn:Hb;
    [|vm_compute in Hb; discriminate].
  exists sfa, sta, fsa, tsa, sfb, stb, fsb, tsb.
  vm_compute in Ha. injection Ha as <- <- <- <-.
  vm_compute in Hb. injection Hb as <- <- <- <-.
  split; [done|]. split; [done|]. split; [by vm_compute|].
  split; [by vm_compute|]. split; [by vm_compute|]. split; [by vm_compute|].
  intros H. apply (f_equal sklearn.data_max_) in H. simpl in H. discriminate.
Qed.

(** *** Reversing the first difference in the evaluation *)

(** Equations between concrete values with rationals inside are decided by
    evaluation. *)
Ltac qc_eval := apply (bool_decide_eq_true_1 _); vm_compute; reflexivity.

(** C1.  The default run on ninety rows of prices, features Open, with a
    model that predicts every scaled test target exactly.  The last four
    rows of the non-differenced Close are 113, 104, 110, 105 (after 111), so
    the four held-out differences are 2, -9, 6, -5.  The evaluation adds each
    difference onto the Close of the row it predicts, not onto the row
    before it, and returns 115, 95, 116, 100 as the reconstructed true
    prices. *)
Theorem reconstruction_adds_onto_predicted_row :
  exists non_stationary ns_close ev,
    calc_technical_indicators_frame Qc_sqrt 20 20 20
      (raw_frame example_open example_close) = Some non_stationary /\
    pd.getitem non_stationary "Close" = Some ns_close /\
    length ns_close = 70%nat /\
    drop 65 ns_close
      = [Num (Qz 111); Num (Qz 113); Num (Qz 104); Num (Qz 110); Num (Qz 105)] /\
    default_run Qc_sqrt (raw_frame example_open example_close)
      ["Open"; "Close"] oracle = Some (ret ev) /\
    y_test_rescaled_inversed_difference ev
      = [[Num (Qz 115)]; [Num (Qz 95)]; [Num (Qz 116)]; [Num (Qz 100)]] /\
    y_test_rescaled_inversed_difference ev
      <> map (fun c => [c]) (drop 66 ns_close).
Proof.
  eexists _, _, _.
  split; [vm_compute; reflexivity|].
  split; [vm_compute; reflexivity|].
  split; [vm_compute; reflexivity|].
  split; [qc_eval|].
  split; [vm_compute; reflexivity|].
  split; [qc_eval|].
  apply (bool_decide_eq_false_1 _). vm_compute. reflexivity.
Qed.

(** *** Rational arithmetic *)

Lemma this_plus (x y : Qc) : (this (x + y) == this x + this y)%Q.
Proof. apply Qred_correct. Qed.
Lemma this_mult (x y : Qc) : (this (x * y) == this x * this y)%Q.
Proof. apply Qred_correct. Qed.
Lemma this_opp (x : Qc) : (this (- x) == - this x)%Q.
Proof. apply Qred_correct. Qed.
Lemma this_minus (x y : Qc) : (this (x - y) == this x - this y)%Q.
Proof. unfold Qcminus. rewrite this_plus, this_opp. reflexivity. Qed.
Lemma this_Q2Qc (q : Q) : (this (Q2Qc q) == q)%Q.
Proof. apply Qred_correct. Qed.
Lemma this_inv (x : Qc) : (this (/ x) == / this x)%Q.
Proof. apply Qred_correct. Qed.
Lemma this_div (x y : Qc) : (this (x / y) == this x / this y)%Q.
Proof. unfold Qcdiv. rewrite this_mult, this_inv. reflexivity. Qed.
Lemma Qc_eq_this (x y : Qc) : x = y <-> (this x == this y)%Q.
Proof. split; [intros ->; reflexivity | apply Qc_is_canon]. Qed.

Ltac qc_lra :=
  unfold Qz in *;
  repeat match goal with
  | H : context [@eq Qc _ _] |- _ => rewrite Qc_eq_this in H
  | |- context [@eq Qc _ _] => rewrite Qc_eq_this
  end;
  unfold Qcle, Qclt in *;
  repeat (rewrite ?this_minus, ?this_plus, ?this_mult, ?this_opp, ?this_div,
            ?this_Q2Qc in * );
  unfold inject_Z in *;
  lra.

Lemma Qc_pos_of_ne (a : Qc) : a <> 0 -> 0 <= a -> 0 < a.
Proof.
  intros Hne Ha. destruct (Qcle_lt_or_eq _ _ Ha) as [H|H]; [done|].
  by destruct Hne.
Qed.
Lemma Qc_div_nonneg (a b : Qc) : 0 <= a -> 0 < b -> 0 <= a / b.
Proof.
  intros Ha Hb. unfold Qcle, Qclt in *. rewrite this_div.
  rewrite ?this_Q2Qc in *. apply Qle_shift_div_l; [done|]. lra.
Qed.
Lemma Qc_div_pos (a b : Qc) : 0 < a -> 0 < b -> 0 < a / b.
Proof.
  intros Ha Hb. unfold Qcle, Qclt in *. rewrite this_div.
  rewrite ?this_Q2Qc in *. apply Qlt_shift_div_l; [done|]. lra.
Qed.
Lemma Qc_div_le_self (a b : Qc) : 0 <= a -> 1 <= b -> a / b <= a.
Proof.
  intros Ha Hb. unfold Qcle, Qclt in *. rewrite this_div.
  rewrite ?this_Q2Qc in *. apply Qle_shift_div_r; [lra|]. nra.
Qed.

(* boolean tests *)
Lemma Qc_ltb_true (a b : Qc) : a < b -> Qc_ltb a b = true.
Proof. intros. unfold Qc_ltb. by apply bool_decide_eq_true_2. Qed.
Lemma Qc_ltb_false (a b : Qc) : b <= a -> Qc_ltb a b = false.
Proof. intros. unfold Qc_ltb. apply bool_decide_eq_false_2. by apply Qcle_not_lt. Qed.
Lemma Qc_eqb_true (a : Qc) : Qc_eqb a a = true.
Proof. unfold Qc_eqb. by apply bool_decide_eq_true_2. Qed.
Lemma Qc_eqb_false (a b : Qc) : a <> b -> Qc_eqb a b = false.
Proof. intros. unfold Qc_eqb. by apply bool_decide_eq_false_2. Qed.

(** *** The RSI block *)

Lemma nonneg_float_cases (x : float64) :
  nonneg_float x ->
  x = NegZero \/ x = Num 0 \/ exists q, 0 < q /\ x = Num q.
Proof.
  destruct x as [q| | |]; simpl; try done; [|by left].
  intros Hq. destruct (decide (q = 0)) as [->|Hne]; [right; by left|].
  right; right. exists q. split; [by apply Qc_pos_of_ne | done].
Qed.

Lemma hundred_pos : 0 < Qz 100.
Proof. done. Qed.

Lemma Qc_pos_tests (q : Qc) :
  0 < q -> Qc_eqb q 0 = false /\ Qc_ltb q 0 = false.
Proof.
  intros Hq. split.
  - apply Qc_eqb_false. intros ->. by destruct (Qclt_not_eq 0 0).
  - apply Qc_ltb_false. by apply Qclt_le_weak.
Qed.

Lemma hundred_tests : Qc_eqb (Qz 100) 0 = false /\ Qc_ltb (Qz 100) 0 = false.
Proof. by apply Qc_pos_tests. Qed.

Lemma zero_tests : Qc_eqb 0 0 = true /\ Qc_ltb 0 0 = false.
Proof. split; [apply Qc_eqb_true | by apply Qc_ltb_false]. Qed.

Ltac float_eval :=
  repeat first
    [ progress cbn [fdiv fadd fsub fneg fmul fcmp feqb fleb fgeb finite
                    signbit is_zero isnan mkzero xorb negb andb orb Bool.eqb]
    | rewrite (proj1 hundred_tests) | rewrite (proj2 hundred_tests)
    | rewrite (proj1 zero_tests) | rewrite (proj2 zero_tests)
    | match goal with
      | H : 0 < ?q |- context [Qc_eqb ?q 0] =>
          rewrite (proj1 (Qc_pos_tests q H))
      | H : 0 < ?q |- context [Qc_ltb ?q 0] =>
          rewrite (proj2 (Qc_pos_tests q H))
      end ].

(** One plus a quotient of a non-negative by a positive number. *)
Lemma one_plus_ratio (eu : float64) (d : Qc) :
  nonneg_float eu -> 0 < d ->
  exists x, 1 <= x /\ fadd (Num 1) (fdiv eu (Num d)) = Num x.
Proof.
  intros Hu Hd.
  destruct (nonneg_float_cases _ Hu) as [->|[->|(u & Hupos & ->)]];
    float_eval.
  - exists 1. split; [apply Qcle_refl | done].
  - exists (1 + 0). split; [|done]. replace (1 + 0) with 1 by ring.
    apply Qcle_refl.
  - exists (1 + u / d). split; [|done].
    pose proof (Qc_div_pos u d Hupos Hd). qc_lra.
Qed.

(** RSI from the two smoothed moves. *)
Lemma rsi_of_spec (eu ed : float64) :
  nonneg_float eu -> nonneg_float ed ->
  (is_zero eu = true /\ is_zero ed = true /\ rsi_of eu ed = NaN) \/
  (is_zero eu && is_zero ed = false /\
   exists v, rsi_of eu ed = Num v /\ 0 <= v /\ v <= Qz 100 /\
     (is_zero ed = true -> v = Qz 100)).
Proof.
  intros Hu Hd.
  destruct (nonneg_float_cases _ Hd) as [->|[->|(d & Hdpos & ->)]].
  1,2: destruct (nonneg_float_cases _ Hu) as [->|[->|(u & Hupos & ->)]];
    try (left; repeat split; reflexivity);
    right; (split; [by float_eval|]); unfold rsi_of; float_eval.
  - exists (Qz 100 + 0). split; [done|].
    replace (Qz 100 + 0) with (Qz 100) by ring. done.
  - exists (Qz 100). done.
  - right. split; [float_eval; by rewrite andb_false_r|].
    unfold rsi_of.
    destruct (one_plus_ratio eu d Hu Hdpos) as (x & Hx & ->).
    assert (Hxpos : 0 < x) by (apply Qclt_le_trans with 1; done).
    pose proof (Qc_div_pos (Qz 100) x hundred_pos Hxpos) as Hq.
    pose proof (Qc_div_le_self (Qz 100) x (Qclt_le_weak _ _ hundred_pos) Hx)
      as Hle.
    float_eval. eexists. split; [reflexivity|].
    split; [qc_lra|]. split; [qc_lra|]. discriminate.
Qed.

Lemma Qc_mul_pos (a b : Qc) : 0 < a -> 0 < b -> 0 < a * b.
Proof.
  intros Ha Hb. unfold Qclt in *. rewrite this_mult, ?this_Q2Qc in *. nra.
Qed.

Lemma fmul_pos (b a : Qc) :
  0 < b -> 0 < a -> fmul (Num b) (Num a) = Num (b * a).
Proof.
  intros Hb Ha. pose proof (Qc_mul_pos b a Hb Ha). by float_eval.
Qed.

Lemma fmul_pos_zero (b : Qc) : 0 < b -> fmul (Num b) (Num 0) = Num 0.
Proof. intros Hb. float_eval. rewrite Qcmult_0_r. by float_eval. Qed.

Lemma fmul_pos_negzero (b : Qc) : 0 < b -> fmul (Num b) NegZero = NegZero.
Proof. intros Hb. float_eval. rewrite Qcmult_0_r. by float_eval. Qed.

Lemma fdiv_pos (x d : Qc) :
  0 < x -> 0 < d -> fdiv (Num x) (Num d) = Num (x / d).
Proof. intros Hx Hd. by float_eval. Qed.

Lemma feqb_Num (a c : Qc) : feqb (Num a) (Num c) = Qc_eqb a c.
Proof. unfold feqb. cbn [fcmp finite]. by destruct (Qc_eqb a c), (Qc_ltb a c). Qed.

Lemma feqb_pos_zero (a : Qc) (z : float64) :
  0 < a -> is_zero z = true -> nonneg_float z ->
  feqb (Num a) z = false /\ feqb z (Num a) = false.
Proof.
  intros Ha Hz Hnz.
  assert (Hne : Qc_eqb a 0 = false) by apply (Qc_pos_tests a Ha).
  assert (Hne' : Qc_eqb 0 a = false).
  { apply Qc_eqb_false. intros <-. by destruct (Qclt_not_eq 0 0). }
  assert (Hlt : Qc_ltb 0 a = true) by by apply Qc_ltb_true.
  destruct z as [q| | |]; try done.
  - simpl in Hz. apply bool_decide_eq_true in Hz as ->.
    rewrite !feqb_Num. done.
  - unfold feqb. cbn [fcmp finite]. rewrite Hne, Hne'.
    by destruct (Qc_ltb a 0), (Qc_ltb 0 a).
Qed.

Lemma feqb_zero_zero (z z' : float64) :
  is_zero z = true -> is_zero z' = true -> feqb z z' = true.
Proof.
  destruct z as [q| | |], z' as [q'| | |]; try done; simpl; intros Hz Hz';
    repeat match goal with
    | H : Qc_eqb _ _ = true |- _ => apply bool_decide_eq_true in H; subst
    end; unfold feqb; cbn [fcmp finite]; by rewrite Qc_eqb_true.
Qed.

Ltac zero_contra H :=
  cbn [is_zero] in H; rewrite (proj1 zero_tests) in H; discriminate H.

(** One smoothing step on non-negative values: the result is non-negative
    and is zero only when both the average and the new value are. *)
Lemma smooth_spec (alpha : Qc) (w cur : float64) :
  0 < alpha -> alpha < 1 -> nonneg_float w -> nonneg_float cur ->
  nonneg_float (smooth alpha w cur) /\
  is_zero (smooth alpha w cur) = is_zero w && is_zero cur.
Proof.
  intros Ha0 Ha1 Hw Hc. unfold smooth.
  set (b := 1 * (1 - alpha)).
  assert (Hb : 0 < b) by (unfold b; qc_lra).
  assert (Hd : 0 < b + alpha) by (unfold b; qc_lra).
  destruct (is_zero w) eqn:Hzw, (is_zero cur) eqn:Hzc.
  - rewrite feqb_zero_zero by done. cbn [negb andb]. split; [done|exact Hzw].
  - destruct (nonneg_float_cases _ Hc) as [->|[->|(c & Hcpos & ->)]];
      [done| zero_contra Hzc |].
    rewrite (proj2 (feqb_pos_zero c w Hcpos Hzw Hw)). cbn [negb].
    rewrite (fmul_pos alpha c) by done.
    pose proof (Qc_mul_pos alpha c Ha0 Hcpos) as Hac.
    destruct (nonneg_float_cases _ Hw) as [->|[->|(a & Hapos & ->)]].
    + rewrite fmul_pos_negzero by done. cbn [fadd].
      rewrite fdiv_pos by done.
      pose proof (Qc_div_pos _ _ Hac Hd) as Hq. split.
      * by apply Qclt_le_weak.
      * apply (Qc_pos_tests _ Hq).
    + rewrite fmul_pos_zero by done. cbn [fadd].
      assert (Hs : 0 < 0 + alpha * c) by (by rewrite Qcplus_0_l).
      rewrite fdiv_pos by done.
      pose proof (Qc_div_pos _ _ Hs Hd) as Hq. split.
      * by apply Qclt_le_weak.
      * apply (Qc_pos_tests _ Hq).
    + cbn [is_zero] in Hzw. by rewrite (proj1 (Qc_pos_tests a Hapos)) in Hzw.
  - destruct (nonneg_float_cases _ Hw) as [->|[->|(a & Hapos & ->)]];
      [done| zero_contra Hzw |].
    rewrite (proj1 (feqb_pos_zero a cur Hapos Hzc Hc)). cbn [negb].
    rewrite (fmul_pos b a) by done.
    pose proof (Qc_mul_pos b a Hb Hapos) as Hba.
    destruct (nonneg_float_cases _ Hc) as [->|[->|(c & Hcpos & ->)]].
    + rewrite fmul_pos_negzero by done. cbn [fadd].
      rewrite fdiv_pos by done.
      pose proof (Qc_div_pos _ _ Hba Hd) as Hq. split.
      * by apply Qclt_le_weak.
      * apply (Qc_pos_tests _ Hq).
    + rewrite fmul_pos_zero by done. cbn [fadd].
      assert (Hs : 0 < b * a + 0) by (by rewrite Qcplus_0_r).
      rewrite fdiv_pos by done.
      pose proof (Qc_div_pos _ _ Hs Hd) as Hq. split.
      * by apply Qclt_le_weak.
      * apply (Qc_pos_tests _ Hq).
    + cbn [is_zero] in Hzc. by rewrite (proj1 (Qc_pos_tests c Hcpos)) in Hzc.
  - destruct (nonneg_float_cases _ Hw) as [->|[->|(a & Hapos & ->)]];
      [done| zero_contra Hzw |].
    destruct (nonneg_float_cases _ Hc) as [->|[->|(c & Hcpos & ->)]];
      [done| zero_contra Hzc |].
    rewrite feqb_Num. destruct (Qc_eqb a c); cbn [negb].
    + split; [done|]. apply (Qc_pos_tests a Hapos).
    + rewrite (fmul_pos b a), (fmul_pos alpha c) by done. cbn [fadd].
      pose proof (Qc_mul_pos b a Hb Hapos) as Hba.
      pose proof (Qc_mul_pos alpha c Ha0 Hcpos) as Hac.
      assert (Hs : 0 < b * a + alpha * c) by (by apply Qcplus_pos_pos).
      rewrite fdiv_pos by done.
      pose proof (Qc_div_pos _ _ Hs Hd) as Hq. split.
      * by apply Qclt_le_weak.
      * apply (Qc_pos_tests _ Hq).
Qed.

Lemma nonneg_float_not_nan (x : float64) : nonneg_float x -> isnan x = false.
Proof. by destruct x. Qed.

Lemma ewm_step_smooth (alpha : Qc) (w cur : float64) (n : nat) :
  isnan w = false -> isnan cur = false ->
  pd.ewm_step false alpha {| pd.weighted := w; pd.old_wt := 1; pd.nobs := n |} cur
    = {| pd.weighted := smooth alpha w cur; pd.old_wt := 1; pd.nobs := n + 1 |}.
Proof.
  intros Hw Hc. unfold pd.ewm_step, smooth.
  cbn [pd.weighted pd.old_wt pd.nobs]. by rewrite Hw, Hc.
Qed.

Lemma ewm_loop_length adjust alpha st xs :
  length (pd.ewm_loop adjust alpha st xs) = length xs.
Proof.
  revert st. induction xs as [|x xs IH]; intros st; [done|].
  cbn [pd.ewm_loop length]. by rewrite IH.
Qed.

Lemma ewm_mean_length adjust alpha xs :
  length (pd.ewm_mean adjust alpha xs) = length xs.
Proof. destruct xs; [done|]. cbn [pd.ewm_mean length]. by rewrite ewm_loop_length. Qed.

(** The smoothed values of non-negative inputs are non-negative, and zero
    exactly as long as every input so far is zero. *)
Lemma ewm_loop_nonneg (alpha : Qc) (xs : list float64) (w : float64) (n k : nat)
    (y : float64) :
  0 < alpha -> alpha < 1 -> (1 <= n)%nat ->
  nonneg_float w -> Forall nonneg_float xs ->
  pd.ewm_loop false alpha
    {| pd.weighted := w; pd.old_wt := 1; pd.nobs := n |} xs !! k = Some y ->
  nonneg_float y /\
  is_zero y = is_zero w && forallb is_zero (take (S k) xs).
Proof.
  intros Ha0 Ha1. revert w n k.
  induction xs as [|cur xs IH]; intros w n k Hn Hw Hxs Hy; [done|].
  apply Forall_cons in Hxs as [Hc Hxs].
  cbn [pd.ewm_loop] in Hy.
  rewrite ewm_step_smooth in Hy by (by apply nonneg_float_not_nan).
  destruct (smooth_spec alpha w cur Ha0 Ha1 Hw Hc) as [Hs Hz].
  destruct k as [|k].
  - cbn [lookup list_lookup] in Hy. unfold pd.ewm_out in Hy.
    cbn [pd.nobs pd.weighted] in Hy.
    rewrite bool_decide_eq_true_2 in Hy by lia. injection Hy as <-.
    split; [done|]. cbn [take forallb]. by rewrite Hz, andb_true_r.
  - cbn [lookup list_lookup] in Hy.
    destruct (IH (smooth alpha w cur) (n + 1)%nat k) as [Hny Hzy];
      [lia|done|done|done|].
    split; [done|]. rewrite Hzy, Hz. cbn [take forallb].
    by rewrite andb_assoc.
Qed.

Lemma ewm_mean_nan_head (alpha : Qc) (x1 : float64) (xs : list float64) :
  isnan x1 = false ->
  pd.ewm_mean false alpha (NaN :: x1 :: xs)
    = NaN :: x1 :: pd.ewm_loop false alpha
        {| pd.weighted := x1; pd.old_wt := 1; pd.nobs := 1 |} xs.
Proof.
  intros Hx. unfold pd.ewm_mean, pd.ewm_init. cbn [isnan pd.ewm_loop].
  unfold pd.ewm_step at 1 2. cbn [pd.weighted pd.old_wt pd.nobs isnan negb].
  rewrite Hx. cbn [negb]. unfold pd.ewm_out. cbn [pd.nobs pd.weighted].
  rewrite bool_decide_eq_false_2 by lia.
  rewrite bool_decide_eq_true_2 by lia. reflexivity.
Qed.

Lemma ema_nonneg (alpha : Qc) (xs : list float64) (k : nat) (y : float64) :
  0 < alpha -> alpha < 1 -> Forall nonneg_float xs ->
  pd.ewm_mean false alpha (NaN :: xs) !! S k = Some y ->
  nonneg_float y /\ is_zero y = forallb is_zero (take (S k) xs).
Proof.
  intros Ha0 Ha1 Hxs Hy. destruct xs as [|x1 xs]; [done|].
  apply Forall_cons in Hxs as [Hx1 Hxs].
  rewrite ewm_mean_nan_head in Hy by (by apply nonneg_float_not_nan).
  cbn [lookup list_lookup] in Hy. destruct k as [|k].
  - injection Hy as <-. split; [done|]. cbn [take forallb].
    by rewrite andb_true_r.
  - cbn [lookup list_lookup] in Hy.
    destruct (ewm_loop_nonneg alpha xs x1 1 k y) as [Hny Hzy];
      [done|done|lia|done|done|done|].
    split; [done|]. rewrite Hzy. reflexivity.
Qed.

Lemma Qc_trichotomy (d : Qc) : d < 0 \/ d = 0 \/ 0 < d.
Proof.
  destruct (Qclt_le_dec d 0) as [H|H]; [by left|]. right.
  destruct (Qcle_lt_or_eq _ _ H) as [H'|H']; [by right | by left].
Qed.

Lemma Qc_neg_tests (q : Qc) :
  q < 0 -> Qc_eqb q 0 = false /\ Qc_ltb q 0 = true.
Proof.
  intros Hq. split.
  - apply Qc_eqb_false. intros ->. by destruct (Qclt_not_eq 0 0).
  - by apply Qc_ltb_true.
Qed.

Lemma Qc_leb_true (a b : Qc) : a <= b -> Qc_leb a b = true.
Proof. intros. unfold Qc_leb. by apply bool_decide_eq_true_2. Qed.
Lemma Qc_leb_false (a b : Qc) : b < a -> Qc_leb a b = false.
Proof. intros. unfold Qc_leb. apply bool_decide_eq_false_2. by apply Qclt_not_le. Qed.

(** The up-move of a price change: the change clipped at 0 from below. *)
Lemma up_of_spec (d : Qc) :
  nonneg_float (up_of d) /\ is_zero (up_of d) = Qc_leb d 0.
Proof.
  unfold up_of, fgeb. cbn [fcmp finite].
  destruct (Qc_trichotomy d) as [Hd|[->|Hd]].
  - rewrite (proj1 (Qc_neg_tests d Hd)), (proj2 (Qc_neg_tests d Hd)).
    rewrite Qc_leb_true by (by apply Qclt_le_weak). split; [done|].
    cbn [is_zero]. apply Qc_eqb_true.
  - rewrite (proj1 zero_tests). rewrite Qc_leb_true by done. split; [done|].
    cbn [is_zero]. apply Qc_eqb_true.
  - rewrite (proj1 (Qc_pos_tests d Hd)), (proj2 (Qc_pos_tests d Hd)).
    rewrite Qc_leb_false by done. split; [by apply Qclt_le_weak|].
    cbn [is_zero]. apply (Qc_pos_tests d Hd).
Qed.

(** The down-move: the negated change clipped at 0; a change that is not a
    fall gives -0.0. *)
Lemma down_of_spec (d : Qc) :
  nonneg_float (down_of d) /\ is_zero (down_of d) = Qc_leb 0 d.
Proof.
  unfold down_of, fleb. cbn [fcmp finite].
  assert (Hm1 : Qc_ltb (- 1) 0 = true) by (by apply Qc_ltb_true).
  destruct (Qc_trichotomy d) as [Hd|[->|Hd]].
  - rewrite (proj1 (Qc_neg_tests d Hd)), (proj2 (Qc_neg_tests d Hd)).
    rewrite Qc_leb_false by done.
    assert (Hp : 0 < - 1 * d) by qc_lra.
    cbn [fmul finite]. rewrite (proj1 (Qc_pos_tests _ Hp)).
    split; [by apply Qclt_le_weak|]. cbn [is_zero].
    apply (Qc_pos_tests _ Hp).
  - rewrite (proj1 zero_tests). rewrite Qc_leb_true by done.
    cbn [fmul finite signbit]. rewrite Qcmult_0_r, (proj1 zero_tests).
    rewrite Hm1, (proj2 zero_tests). done.
  - rewrite (proj1 (Qc_pos_tests d Hd)), (proj2 (Qc_pos_tests d Hd)).
    rewrite Qc_leb_true by (by apply Qclt_le_weak).
    cbn [fmul finite signbit]. rewrite Qcmult_0_r, (proj1 zero_tests).
    rewrite Hm1, (proj2 zero_tests). done.
Qed.

Lemma clip_lower_Num (ds : list Qc) :
  pd.clip_lower (Num 0) (NaN :: map Num ds) = NaN :: map up_of ds.
Proof.
  unfold pd.clip_lower. cbn [map isnan]. f_equal. rewrite map_map.
  done.
Qed.

Lemma rsi_up_Num (p : Qc) (ps : list Qc) :
  rsi_up (map Num (p :: ps)) = NaN :: map up_of (first_differences (p :: ps)).
Proof.
  unfold rsi_up, rsi_delta. rewrite diff_Num. apply clip_lower_Num.
Qed.

Lemma rsi_down_Num (p : Qc) (ps : list Qc) :
  rsi_down (map Num (p :: ps))
    = NaN :: map down_of (first_differences (p :: ps)).
Proof.
  unfold rsi_down, rsi_delta. rewrite diff_Num.
  unfold pd.clip_upper, pd.rmul. cbn [map isnan fmul]. f_equal.
  rewrite !map_map. done.
Qed.

Lemma map_zip_with {A B C D} (f : C -> D) (g : A -> B -> C) l k :
  map f (zip_with g l k) = zip_with (fun x y => f (g x y)) l k.
Proof.
  revert k. induction l as [|x l IH]; intros [|y k]; try done.
  cbn [zip_with map]. by rewrite IH.
Qed.

Lemma rsi_zip (open : list float64) :
  rsi open = zip_with rsi_of (rsi_ema_up open) (rsi_ema_down open).
Proof.
  unfold rsi, rsi_rs, pd.rsub, pd.rdiv, pd.radd, pd.div.
  rewrite !map_zip_with. done.
Qed.

Lemma alpha_14 : pd.alpha_of_com (Qz 14) = Q2Qc (1 # 15).
Proof. apply Qc_is_canon. reflexivity. Qed.

Lemma alpha_14_range : 0 < pd.alpha_of_com (Qz 14) /\ pd.alpha_of_com (Qz 14) < 1.
Proof. rewrite alpha_14. done. Qed.

Lemma Forall_up_of ds : Forall nonneg_float (map up_of ds).
Proof. apply Forall_fmap, Forall_forall. intros d _. apply up_of_spec. Qed.

Lemma Forall_down_of ds : Forall nonneg_float (map down_of ds).
Proof. apply Forall_fmap, Forall_forall. intros d _. apply down_of_spec. Qed.

Lemma ewm_mean_head_nan adjust alpha xs :
  pd.ewm_mean adjust alpha (NaN :: xs) !! 0%nat = Some NaN.
Proof. reflexivity. Qed.

(** The three series of the RSI block at one row of a finite price series. *)
Lemma rsi_row (ps : list Qc) (t : nat) :
  (t < length ps)%nat ->
  exists r eu ed,
    rsi (map Num ps) !! t = Some r /\
    rsi_ema_up (map Num ps) !! t = Some eu /\
    rsi_ema_down (map Num ps) !! t = Some ed /\
    r = rsi_of eu ed /\
    match t with
    | 0%nat => eu = NaN /\ ed = NaN
    | S k =>
        nonneg_float eu /\ nonneg_float ed /\
        is_zero eu
          = forallb is_zero (take (S k) (map up_of (first_differences ps))) /\
        is_zero ed
          = forallb is_zero (take (S k) (map down_of (first_differences ps)))
    end.
Proof.
  intros Ht. destruct ps as [|p ps]; [simpl in Ht; lia|].
  assert (Hlu : length (rsi_ema_up (map Num (p :: ps))) = length (p :: ps)).
  { unfold rsi_ema_up. rewrite ewm_mean_length, rsi_up_Num. cbn [length].
    rewrite length_map, length_first_differences. cbn [length]. lia. }
  assert (Hld : length (rsi_ema_down (map Num (p :: ps))) = length (p :: ps)).
  { unfold rsi_ema_down. rewrite ewm_mean_length, rsi_down_Num. cbn [length].
    rewrite length_map, length_first_differences. cbn [length]. lia. }
  destruct (lookup_lt_is_Some_2 (rsi_ema_up (map Num (p :: ps))) t)
    as [eu Heu]; [lia|].
  destruct (lookup_lt_is_Some_2 (rsi_ema_down (map Num (p :: ps))) t)
    as [ed Hed]; [lia|].
  exists (rsi_of eu ed), eu, ed.
  split; [rewrite rsi_zip, lookup_zip_with, Heu, Hed; done|].
  split; [done|]. split; [done|]. split; [done|].
  unfold rsi_ema_up in Heu. unfold rsi_ema_down in Hed.
  rewrite rsi_up_Num in Heu. rewrite rsi_down_Num in Hed.
  destruct alpha_14_range as [Ha0 Ha1].
  destruct t as [|k].
  - rewrite ewm_mean_head_nan in Heu. rewrite ewm_mean_head_nan in Hed.
    by simplify_eq.
  - destruct (ema_nonneg _ _ _ _ Ha0 Ha1 (Forall_up_of _) Heu) as [? ?].
    destruct (ema_nonneg _ _ _ _ Ha0 Ha1 (Forall_down_of _) Hed) as [? ?].
    done.
Qed.

(** C4 (amended).  On a series of finite prices every row of the RSI column
    holds a number or the NaN marker; a number lies in [0, 100].  The marker
    stands exactly in the first row, where the price change and both
    smoothed moves are NaN, and in the rows where the smoothed up-move and
    the smoothed down-move are both zero.  Where only the smoothed down-move
    is zero, the quotient is infinite and the RSI is 100. *)
Theorem rsi_range_and_undefined_rows (ps : list Qc) (t : nat) :
  (t < length ps)%nat ->
  exists r eu ed,
    rsi (map Num ps) !! t = Some r /\
    rsi_ema_up (map Num ps) !! t = Some eu /\
    rsi_ema_down (map Num ps) !! t = Some ed /\
    (r = NaN \/ exists v, r = Num v /\ 0 <= v /\ v <= Qz 100) /\
    (r = NaN <-> t = 0%nat \/ (is_zero eu = true /\ is_zero ed = true)) /\
    (t <> 0%nat -> is_zero ed = true -> is_zero eu = false ->
     r = Num (Qz 100)).
Proof.
  intros Ht. destruct (rsi_row ps t Ht) as (r & eu & ed & Hr & Heu & Hed & -> & Hrow).
  exists (rsi_of eu ed), eu, ed. do 3 (split; [done|]).
  destruct t as [|k].
  - destruct Hrow as [-> ->]. split; [by left|]. split; [|done].
    split; [by left | done].
  - destruct Hrow as (Hnu & Hnd & _ & _).
    destruct (rsi_of_spec eu ed Hnu Hnd)
      as [(Hzu & Hzd & ->) | (Hz & v & -> & Hv0 & Hv1 & Hv)].
    + split; [by left|]. split; [split; [by right | done]|].
      intros _ _ Hzu'. congruence.
    + split; [right; eauto|]. split; [split; [done|]|].
      * intros [?|[Hzu Hzd]]; [done|]. rewrite Hzu, Hzd in Hz. done.
      * intros _ Hzd _. by rewrite (Hv Hzd).
Qed.

Lemma rsi_range_and_undefined_rows_witness :
  exists r eu ed,
    rsi (map Num [Qz 3; Qz 5; Qz 4]) !! 2%nat = Some r /\
    rsi_ema_up (map Num [Qz 3; Qz 5; Qz 4]) !! 2%nat = Some eu /\
    rsi_ema_down (map Num [Qz 3; Qz 5; Qz 4]) !! 2%nat = Some ed /\
    (r = NaN \/ exists v, r = Num v /\ 0 <= v /\ v <= Qz 100) /\
    (r = NaN <-> 2%nat = 0%nat \/ (is_zero eu = true /\ is_zero ed = true)) /\
    (2%nat <> 0%nat -> is_zero ed = true -> is_zero eu = false ->
     r = Num (Qz 100)).
Proof.
  apply (rsi_range_and_undefined_rows [Qz 3; Qz 5; Qz 4] 2). simpl. lia.
Defined.

(** C4, counterexample.  Prices 1, 2, 3: in the second row the smoothed
    down-move is -0.0, and the RSI is 100, not NaN. *)
Lemma rsi_defined_with_zero_down_ema_counterexample :
  rsi_ema_down (map Num [Qz 1; Qz 2; Qz 3]) !! 1%nat = Some NegZero /\
  is_zero NegZero = true /\
  rsi (map Num [Qz 1; Qz 2; Qz 3]) !! 1%nat = Some (Num (Qz 100)) /\
  Num (Qz 100) <> NaN.
Proof. split; [qc_eval|]. split; [done|]. split; [qc_eval | done]. Qed.

(** *** Rows the indicator engine drops *)

Lemma is_finite_not_nan x : is_finite x = true -> isnan x = false.
Proof. by destruct x. Qed.

Lemma fneg_finite x : is_finite x = true -> is_finite (fneg x) = true.
Proof. destruct x as [q| | |]; try done. simpl. by destruct (Qc_eqb q 0). Qed.

Lemma fadd_finite x y :
  is_finite x = true -> is_finite y = true -> is_finite (fadd x y) = true.
Proof. by destruct x, y. Qed.

Lemma fsub_finite x y :
  is_finite x = true -> is_finite y = true -> is_finite (fsub x y) = true.
Proof. intros. unfold fsub. by apply fadd_finite, fneg_finite. Qed.

Lemma mkzero_finite b : is_finite (mkzero b) = true.
Proof. by destruct b. Qed.

Lemma fmul_finite x y :
  is_finite x = true -> is_finite y = true -> is_finite (fmul x y) = true.
Proof.
  destruct x as [a| | |], y as [b| | |]; try done; intros _ _;
    cbn [fmul finite];
    match goal with
    | |- context [Qc_eqb ?q 0] => destruct (Qc_eqb q 0)
    end; try done; apply mkzero_finite.
Qed.

Lemma fdiv_finite x (d : Qc) :
  is_finite x = true -> d <> 0 -> is_finite (fdiv x (Num d)) = true.
Proof.
  intros Hx Hd. destruct x as [a| | |]; try done; cbn [fdiv finite];
    rewrite (Qc_eqb_false d 0 Hd);
    match goal with
    | |- context [Qc_eqb ?q 0] => destruct (Qc_eqb q 0)
    end; try done; apply mkzero_finite.
Qed.

(** One turn of the [adjust=True] loop keeps the average finite and the
    weight positive. *)
Lemma ewm_step_adjust_finite (alpha : Qc) (st : pd.ewm_state) (c : Qc) :
  0 < alpha -> alpha < 1 ->
  is_finite (pd.weighted st) = true -> 0 < pd.old_wt st ->
  (1 <= pd.nobs st)%nat ->
  let st' := pd.ewm_step true alpha st (Num c) in
  is_finite (pd.weighted st') = true /\ 0 < pd.old_wt st' /\
  (1 <= pd.nobs st')%nat.
Proof.
  intros Ha0 Ha1 Hw Ho Hn. unfold pd.ewm_step. cbn [isnan negb].
  rewrite (is_finite_not_nan _ Hw). cbn [negb pd.weighted pd.old_wt pd.nobs].
  assert (Ho' : 0 < pd.old_wt st * (1 - alpha))
    by (apply Qc_mul_pos; [done | qc_lra]).
  assert (Hs : 0 < pd.old_wt st * (1 - alpha) + 1)
    by (apply Qcplus_pos_pos; done).
  split; [|split; [done | lia]].
  destruct (negb (feqb (pd.weighted st) (Num c))); [|done].
  apply fdiv_finite.
  - apply fadd_finite; by apply fmul_finite.
  - intros Heq. rewrite Heq in Hs. by destruct (Qclt_not_eq 0 0).
Qed.

Lemma ewm_loop_adjust_finite (alpha : Qc) (cs : list Qc) (st : pd.ewm_state) :
  0 < alpha -> alpha < 1 ->
  is_finite (pd.weighted st) = true -> 0 < pd.old_wt st ->
  (1 <= pd.nobs st)%nat ->
  Forall (fun y => is_finite y = true) (pd.ewm_loop true alpha st (map Num cs)).
Proof.
  intros Ha0 Ha1. revert st.
  induction cs as [|c cs IH]; intros st Hw Ho Hn; [constructor|].
  cbn [map pd.ewm_loop].
  destruct (ewm_step_adjust_finite alpha st c Ha0 Ha1 Hw Ho Hn)
    as (Hw' & Ho' & Hn').
  constructor; [|by apply IH].
  unfold pd.ewm_out. by rewrite bool_decide_eq_true_2.
Qed.

Lemma ewm_mean_adjust_finite (alpha : Qc) (cs : list Qc) :
  0 < alpha -> alpha < 1 ->
  Forall (fun y => is_finite y = true) (pd.ewm_mean true alpha (map Num cs)).
Proof.
  intros Ha0 Ha1. destruct cs as [|c cs]; [constructor|].
  cbn [map pd.ewm_mean]. constructor; [done|].
  by apply ewm_loop_adjust_finite.
Qed.

Lemma alpha_span_range :
  (0 < pd.alpha_of_span (Qz 12) /\ pd.alpha_of_span (Qz 12) < 1) /\
  (0 < pd.alpha_of_span (Qz 26) /\ pd.alpha_of_span (Qz 26) < 1).
Proof.
  assert (H12 : pd.alpha_of_span (Qz 12) = Q2Qc (2 # 13))
    by (apply Qc_is_canon; reflexivity).
  assert (H26 : pd.alpha_of_span (Qz 26) = Q2Qc (2 # 27))
    by (apply Qc_is_canon; reflexivity).
  rewrite H12, H26. done.
Qed.

(** The MACD of finite prices is finite in every row. *)
Lemma macd_finite (os : list Qc) :
  length (macd (map Num os)) = length os /\
  Forall (fun y => isnan y = false) (macd (map Num os)).
Proof.
  destruct alpha_span_range as [[Ha0 Ha1] [Hb0 Hb1]].
  pose proof (ewm_mean_adjust_finite _ os Ha0 Ha1) as H12.
  pose proof (ewm_mean_adjust_finite _ os Hb0 Hb1) as H26.
  unfold macd, pd.sub. split.
  - rewrite length_zip_with, !ewm_mean_length, length_map. lia.
  - apply Forall_lookup. intros i y Hy.
    apply lookup_zip_with_Some in Hy as (a & b & -> & Ha & Hb).
    apply is_finite_not_nan, fsub_finite.
    + exact (Forall_lookup_1 _ _ _ _ H12 Ha).
    + exact (Forall_lookup_1 _ _ _ _ H26 Hb).
Qed.

Lemma mapM_finite_Num (qs : list Qc) : mapM finite (map Num qs) = Some qs.
Proof.
  apply mapM_Some. apply Forall2_fmap_l. apply Forall2_same_length_lookup.
  split; [done|]. intros i x y Hx Hy. by simplify_eq.
Qed.

Lemma window_Num (w t : nat) (qs : list Qc) :
  pd.window w t (map Num qs) = map Num (take w (drop (S t - w) qs)).
Proof.
  unfold pd.window.
  change (map Num ?l) with (Num <$> l). by rewrite fmap_take, fmap_drop.
Qed.

(** [rolling(w).std()] on finite prices is NaN exactly in the rows before
    the window is full, and everywhere for a window below 2. *)
Lemma rolling_std_isnan sqrt (w : nat) (qs : list Qc) (i : nat) (x : float64) :
  pd.rolling_std sqrt w (map Num qs) !! i = Some x ->
  isnan x = negb (bool_decide (2 <= w <= S i)%nat).
Proof.
  unfold pd.rolling_std. rewrite list_lookup_imap.
  destruct (map Num qs !! i) as [y|]; [|done]. cbn [fmap option_fmap option_map].
  intros [= <-]. case_bool_decide; [|done].
  by rewrite window_Num, mapM_finite_Num.
Qed.

Lemma rolling_mean_isnan (w : nat) (qs : list Qc) (i : nat) (x : float64) :
  pd.rolling_mean w (map Num qs) !! i = Some x ->
  isnan x = negb (bool_decide (1 <= w <= S i)%nat).
Proof.
  unfold pd.rolling_mean. rewrite list_lookup_imap.
  destruct (map Num qs !! i) as [y|]; [|done]. cbn [fmap option_fmap option_map].
  intros [= <-]. case_bool_decide; [|done].
  by rewrite window_Num, mapM_finite_Num.
Qed.

Lemma rolling_std_length sqrt w s : length (pd.rolling_std sqrt w s) = length s.
Proof. unfold pd.rolling_std. apply length_imap. Qed.

Lemma rolling_mean_length w s : length (pd.rolling_mean w s) = length s.
Proof. unfold pd.rolling_mean. apply length_imap. Qed.

Lemma shift_length w (s : list float64) : length (pd.shift w s) = length s.
Proof.
  unfold pd.shift. rewrite length_app, length_replicate, length_take. lia.
Qed.

Lemma shift_lookup w (qs : list Qc) (i : nat) :
  (i < length qs)%nat ->
  pd.shift w (map Num qs) !! i
    = if bool_decide (i < w)%nat then Some NaN else Num <$> qs !! (i - w)%nat.
Proof.
  intros Hi. unfold pd.shift. rewrite length_map. case_bool_decide as Hw.
  - rewrite lookup_app_l by (rewrite length_replicate; lia).
    apply lookup_replicate_2. lia.
  - rewrite lookup_app_r by (rewrite length_replicate; lia).
    rewrite length_replicate, lookup_take_lt by lia.
    replace (i - w `min` length qs)%nat with (i - w)%nat by lia.
    apply list_lookup_fmap.
Qed.

(** The momentum of finite prices is NaN exactly in the first [w] rows. *)
Lemma momentum_isnan (w : nat) (qs : list Qc) (i : nat) (x : float64) :
  momentum w (map Num qs) !! i = Some x ->
  isnan x = bool_decide (i < w)%nat.
Proof.
  unfold momentum, pd.sub. intros Hx.
  apply lookup_zip_with_Some in Hx as (a & b & -> & Ha & Hb).
  assert (Hi : (i < length qs)%nat)
    by (apply lookup_lt_Some in Ha; by rewrite length_map in Ha).
  rewrite shift_lookup in Hb by done.
  rewrite list_lookup_fmap in Ha.
  destruct (qs !! i) as [qa|]; [|done]. injection Ha as <-.
  case_bool_decide.
  - by injection Hb as <-.
  - destruct (qs !! (i - w)%nat) as [qb|]; [|done]. injection Hb as <-.
    by rewrite fsub_Num.
Qed.

Lemma momentum_length (w : nat) (s : list float64) :
  length (momentum w s) = length s.
Proof.
  unfold momentum, pd.sub. rewrite length_zip_with, shift_length. lia.
Qed.

Lemma rsi_length (qs : list Qc) : length (rsi (map Num qs)) = length qs.
Proof.
  destruct qs as [|p qs]; [done|].
  rewrite rsi_zip, length_zip_with. unfold rsi_ema_up, rsi_ema_down.
  rewrite !ewm_mean_length, rsi_up_Num, rsi_down_Num. cbn [length].
  rewrite !length_map, length_first_differences. cbn [length]. lia.
Qed.

Lemma forallb_and {A} (f g : A -> bool) (l : list A) :
  forallb f l && forallb g l = forallb (fun x => f x && g x) l.
Proof.
  induction l as [|x l IH]; [done|]. cbn [forallb]. rewrite <- IH.
  destruct (f x), (g x), (forallb f l), (forallb g l); done.
Qed.

Lemma forallb_map {A B} (f : B -> bool) (g : A -> B) (l : list A) :
  forallb f (map g l) = forallb (fun x => f (g x)) l.
Proof. induction l as [|x l IH]; [done|]. cbn [map forallb]. by rewrite IH. Qed.

Lemma Qc_leb_both (d : Qc) : Qc_leb d 0 && Qc_leb 0 d = Qc_eqb d 0.
Proof.
  destruct (Qc_trichotomy d) as [Hd|[->|Hd]].
  - rewrite (Qc_leb_false 0 d) by done. rewrite andb_false_r.
    symmetry. apply (Qc_neg_tests d Hd).
  - rewrite Qc_leb_true by done. symmetry. apply Qc_eqb_true.
  - rewrite (Qc_leb_false d 0) by done. symmetry. apply (Qc_pos_tests d Hd).
Qed.

(** The first [k+1] differences vanish exactly when the first [k+1] rows
    after the first hold its price. *)
Lemma zero_differences_prefix (p : Qc) (ps : list Qc) (k : nat) :
  (k < length ps)%nat ->
  forallb (fun d => Qc_eqb d 0) (take (S k) (first_differences (p :: ps)))
    = bool_decide (S k <= constant_prefix p ps)%nat.
Proof.
  revert p k. induction ps as [|q ps IH]; intros p k Hk; [simpl in Hk; lia|].
  replace (first_differences (p :: q :: ps))
    with ((q - p) :: first_differences (q :: ps)) by done.
  cbn [take forallb constant_prefix].
  destruct (decide (q = p)) as [->|Hne].
  - replace (p - p) with (Q2Qc 0) by ring.
    rewrite !Qc_eqb_true. cbn [andb].
    destruct k as [|k].
    + cbn [take forallb]. by rewrite bool_decide_eq_true_2 by lia.
    + cbn [length] in Hk. rewrite IH by lia.
      apply bool_decide_ext. lia.
  - rewrite (Qc_eqb_false (q - p) 0), (Qc_eqb_false q p); [|done|].
    + by rewrite bool_decide_eq_false_2 by lia.
    + intros Heq. apply Hne. rewrite <- (Qcplus_0_l p), <- Heq. ring.
Qed.

Lemma forallb_pointwise {A} (f g : A -> bool) (l : list A) :
  (forall x, f x = g x) -> forallb f l = forallb g l.
Proof.
  intros Hfg. induction l as [|x l IH]; [done|]. cbn [forallb].
  by rewrite Hfg, IH.
Qed.

(** The RSI of finite prices is NaN exactly in the leading rows that hold
    the first row's price. *)
Lemma rsi_isnan (qs : list Qc) (i : nat) (x : float64) :
  rsi (map Num qs) !! i = Some x ->
  isnan x = bool_decide (i < leading_constant_rows qs)%nat.
Proof.
  intros Hx.
  assert (Hi : (i < length qs)%nat)
    by (apply lookup_lt_Some in Hx; by rewrite rsi_length in Hx).
  destruct (rsi_row qs i Hi) as (r & eu & ed & Hr & _ & _ & -> & Hrow).
  rewrite Hx in Hr. injection Hr as ->.
  destruct qs as [|p ps]; [simpl in Hi; lia|]. cbn [leading_constant_rows].
  destruct i as [|k].
  - destruct Hrow as [-> ->]. by rewrite bool_decide_eq_true_2 by lia.
  - destruct Hrow as (Hnu & Hnd & Hzu & Hzd).
    assert (Hboth : is_zero eu && is_zero ed
                    = bool_decide (S k <= constant_prefix p ps)%nat).
    { rewrite Hzu, Hzd.
      change (map ?f ?l) with (f <$> l). rewrite <- !fmap_take.
      change (?f <$> ?l) with (map f l). rewrite !forallb_map, forallb_and.
      rewrite <- zero_differences_prefix by (cbn [length] in Hi; lia).
      apply forallb_pointwise. intros d.
      rewrite (proj2 (up_of_spec d)), (proj2 (down_of_spec d)).
      apply Qc_leb_both. }
    destruct (rsi_of_spec eu ed Hnu Hnd)
      as [(Hzu' & Hzd' & ->) | (Hz & v & -> & _)].
    + rewrite Hzu', Hzd' in Hboth. cbn [andb isnan] in *.
      symmetry in Hboth. apply bool_decide_eq_true in Hboth.
      by rewrite bool_decide_eq_true_2 by lia.
    + rewrite Hz in Hboth. cbn [isnan].
      symmetry in Hboth. apply bool_decide_eq_false in Hboth.
      by rewrite bool_decide_eq_false_2 by lia.
Qed.

Lemma filter_mask_threshold {A} (d a : nat) (l : list A) :
  pd.filter_mask
    (map (fun i => negb (bool_decide (i < d)%nat)) (seq a (length l))) l
    = drop (d - a) l.
Proof.
  revert a. induction l as [|x l IH]; intros a; [by rewrite drop_nil|].
  cbn [length seq map pd.filter_mask]. rewrite IH. case_bool_decide as Ha.
  - cbn [negb]. replace (d - a)%nat with (S (d - S a)) by lia. done.
  - cbn [negb]. replace (d - a)%nat with 0%nat by lia.
    replace (d - S a)%nat with 0%nat by lia. done.
Qed.

(** Which rows of the indicator frame hold a NaN. *)
Lemma row_has_na_indicators sqrt (vw mw maw : nat) (os cs : list Qc) (i : nat) :
  length cs = length os -> (2 <= vw)%nat -> (1 <= maw)%nat ->
  (i < length os)%nat ->
  pd.row_has_na
    [("Open", map Num os); ("Close", map Num cs);
     ("Vol_" +:+ pretty vw, pd.rolling_std sqrt vw (map Num os));
     ("RSI", rsi (map Num os)); ("MACD", macd (map Num os));
     ("Mom_" +:+ pretty mw, momentum mw (map Num os));
     ("MA_" +:+ pretty maw, pd.rolling_mean maw (map Num os))] i
  = bool_decide (i < rows_without_lookback vw mw maw os)%nat.
Proof.
  intros Hcs Hvw Hmaw Hi. unfold pd.row_has_na. cbn [existsb fst snd].
  destruct (lookup_lt_is_Some_2 (map Num os) i) as [o Ho];
    [by rewrite length_map|].
  destruct (lookup_lt_is_Some_2 (map Num cs) i) as [c Hc];
    [rewrite length_map; lia|].
  destruct (lookup_lt_is_Some_2 (pd.rolling_std sqrt vw (map Num os)) i)
    as [v Hv]; [by rewrite rolling_std_length, length_map|].
  destruct (lookup_lt_is_Some_2 (rsi (map Num os)) i) as [r Hr];
    [by rewrite rsi_length|].
  destruct (lookup_lt_is_Some_2 (macd (map Num os)) i) as [m Hm];
    [by rewrite (proj1 (macd_finite os))|].
  destruct (lookup_lt_is_Some_2 (momentum mw (map Num os)) i) as [mo Hmo];
    [by rewrite momentum_length, length_map|].
  destruct (lookup_lt_is_Some_2 (pd.rolling_mean maw (map Num os)) i)
    as [ma Hma]; [by rewrite rolling_mean_length, length_map|].
  rewrite Ho, Hc, Hv, Hr, Hm, Hmo, Hma.
  rewrite (rolling_std_isnan _ _ _ _ _ Hv), (rsi_isnan _ _ _ Hr),
    (momentum_isnan _ _ _ _ Hmo), (rolling_mean_isnan _ _ _ _ Hma).
  rewrite (Forall_lookup_1 _ _ _ _ (proj2 (macd_finite os)) Hm).
  rewrite list_lookup_fmap in Ho, Hc.
  destruct (os !! i); [|done]. destruct (cs !! i); [|done].
  injection Ho as <-. injection Hc as <-. cbn [isnan orb].
  unfold rows_without_lookback.
  repeat case_bool_decide; cbn [negb orb]; try done; lia.
Qed.

(** The rows [calc_technical_indicators] keeps of a frame of finite prices:
    all but the leading rows in which an indicator is undefined. *)
Lemma calc_technical_indicators_frame_rows sqrt (vw mw maw : nat)
    (os cs : list Qc) :
  length cs = length os -> (2 <= vw)%nat -> (1 <= maw)%nat ->
  let d := rows_without_lookback vw mw maw os in
  calc_technical_indicators_frame sqrt vw mw maw
      (raw_frame (map Num os) (map Num cs))
    = Some [("Open", drop d (map Num os));
            ("Vol_" +:+ pretty vw,
               drop d (pd.rolling_std sqrt vw (map Num os)));
            ("RSI", drop d (rsi (map Num os)));
            ("MACD", drop d (macd (map Num os)));
            ("Mom_" +:+ pretty mw, drop d (momentum mw (map Num os)));
            ("MA_" +:+ pretty maw,
               drop d (pd.rolling_mean maw (map Num os)));
            ("Close", drop d (map Num cs))].
Proof.
  intros Hcs Hvw Hmaw d. rewrite calc_technical_indicators_frame_raw.
  cbv zeta.
  assert (Hmask : indicator_mask sqrt vw mw maw (map Num os) (map Num cs)
                  = map (fun i => negb (bool_decide (i < d)%nat))
                        (seq 0 (length os))).
  { unfold indicator_mask. rewrite length_map. apply map_ext_in.
    intros i Hin. apply in_seq in Hin. f_equal.
    apply row_has_na_indicators; try done. lia. }
  rewrite Hmask.
  assert (Hdrop : forall l : list float64, length l = length os ->
            pd.filter_mask
              (map (fun i => negb (bool_decide (i < d)%nat))
                   (seq 0 (length os))) l = drop d l).
  { intros l <-. rewrite filter_mask_threshold. f_equal. lia. }
  rewrite !Hdrop; [done|..].
  all: rewrite ?rolling_std_length, ?rolling_mean_length, ?momentum_length,
         ?rsi_length, ?(proj1 (macd_finite os)), ?length_map; done.
Qed.

Lemma calc_technical_indicators_single sqrt df vw mw maw :
  calc_technical_indicators sqrt [df] vw mw maw
    = (fun out => [out]) <$> calc_technical_indicators_frame sqrt vw mw maw df.
Proof.
  unfold calc_technical_indicators. cbn [mapM].
  by destruct (calc_technical_indicators_frame sqrt vw mw maw df).
Qed.

(** C5 (amended).  On a frame of finite Open and Close prices, with a
    volatility window of at least 2 and a moving-average window of at least
    1, the rows with an undefined indicator are exactly the first [d] rows,
    [d] the largest of: volatility window minus 1, momentum window,
    moving-average window minus 1, and the number of leading rows that hold
    the first Open price (where the RSI is undefined).  The output holds all
    columns from row [d] on, Close moved to the end, so its row count is the
    input row count minus [d].  When the momentum window is the largest of
    the four, as with the default windows and prices that move within the
    first 21 rows, [d] is that window. *)
Theorem indicator_engine_drops_leading_rows sqrt (vw mw maw : nat)
    (os cs : list Qc) :
  length cs = length os -> (2 <= vw)%nat -> (1 <= maw)%nat ->
  let d := rows_without_lookback vw mw maw os in
  let full :=
    [("Open", map Num os); ("Close", map Num cs);
     ("Vol_" +:+ pretty vw, pd.rolling_std sqrt vw (map Num os));
     ("RSI", rsi (map Num os)); ("MACD", macd (map Num os));
     ("Mom_" +:+ pretty mw, momentum mw (map Num os));
     ("MA_" +:+ pretty maw, pd.rolling_mean maw (map Num os))] in
  let out :=
    [("Open", drop d (map Num os));
     ("Vol_" +:+ pretty vw, drop d (pd.rolling_std sqrt vw (map Num os)));
     ("RSI", drop d (rsi (map Num os)));
     ("MACD", drop d (macd (map Num os)));
     ("Mom_" +:+ pretty mw, drop d (momentum mw (map Num os)));
     ("MA_" +:+ pretty maw, drop d (pd.rolling_mean maw (map Num os)));
     ("Close", drop d (map Num cs))] in
  with_indicators sqrt vw mw maw (raw_frame (map Num os) (map Num cs))
    = Some full /\
  (forall i, (i < length os)%nat ->
     pd.row_has_na full i = bool_decide (i < d)%nat) /\
  calc_technical_indicators sqrt [raw_frame (map Num os) (map Num cs)]
     vw mw maw = Some [out] /\
  pd.nrows out = (length os - d)%nat /\
  ((vw - 1 <= mw)%nat -> (maw - 1 <= mw)%nat ->
   (leading_constant_rows os <= mw)%nat -> d = mw).
Proof.
  intros Hcs Hvw Hmaw d full out.
  split; [apply with_indicators_raw|].
  split; [intros i Hi; by apply row_has_na_indicators|].
  split.
  - rewrite calc_technical_indicators_single.
    by rewrite calc_technical_indicators_frame_rows.
  - split.
    + cbn [out pd.nrows]. by rewrite length_drop, length_map.
    + unfold d, rows_without_lookback. lia.
Qed.

Lemma indicator_engine_drops_leading_rows_witness :
  calc_technical_indicators Qc_sqrt
    [raw_frame (map Num [Qz 1; Qz 2; Qz 4; Qz 3; Qz 5])
               (map Num [Qz 2; Qz 2; Qz 3; Qz 4; Qz 4])] 3 2 3
  = Some
      [[("Open", drop 2 (map Num [Qz 1; Qz 2; Qz 4; Qz 3; Qz 5]));
        ("Vol_" +:+ pretty 3%nat,
           drop 2 (pd.rolling_std Qc_sqrt 3
                     (map Num [Qz 1; Qz 2; Qz 4; Qz 3; Qz 5])));
        ("RSI", drop 2 (rsi (map Num [Qz 1; Qz 2; Qz 4; Qz 3; Qz 5])));
        ("MACD", drop 2 (macd (map Num [Qz 1; Qz 2; Qz 4; Qz 3; Qz 5])));
        ("Mom_" +:+ pretty 2%nat,
           drop 2 (momentum 2 (map Num [Qz 1; Qz 2; Qz 4; Qz 3; Qz 5])));
        ("MA_" +:+ pretty 3%nat,
           drop 2 (pd.rolling_mean 3
                     (map Num [Qz 1; Qz 2; Qz 4; Qz 3; Qz 5])));
        ("Close", drop 2 (map Num [Qz 2; Qz 2; Qz 3; Qz 4; Qz 4]))]].
Proof.
  exact (proj1 (proj2 (proj2
    (indicator_engine_drops_leading_rows Qc_sqrt 3 2 3
       [Qz 1; Qz 2; Qz 4; Qz 3; Qz 5] [Qz 2; Qz 2; Qz 3; Qz 4; Qz 4]
       eq_refl ltac:(lia) ltac:(lia))))).
Defined.

Lemma example_prices_Num :
  example_open = map Num example_open_prices /\
  example_close = map Num example_close_prices.
Proof.
  unfold example_open, example_close, example_open_prices,
    example_close_prices. by rewrite !map_map.
Qed.

(** C5, counterexample.  Ninety rows with windows 30, 20, 20: the output
    has 61 rows, not 90 - 30: a rolling window of 30 is full from row 29
    on. *)
Lemma indicator_row_count_counterexample :
  exists out,
    calc_technical_indicators Qc_sqrt
      [raw_frame example_open example_close] 30 20 20 = Some [out] /\
    length example_open = 90%nat /\
    pd.nrows out = 61%nat /\
    pd.nrows out <> (length example_open - Nat.max 30 (Nat.max 20 20))%nat.
Proof.
  destruct example_prices_Num as [-> ->].
  rewrite calc_technical_indicators_single.
  rewrite calc_technical_indicators_frame_rows by (done || lia).
  eexists. split; [reflexivity|].
  assert (Hd : rows_without_lookback 30 20 20 example_open_prices = 29%nat)
    by (vm_compute; reflexivity).
  rewrite Hd. cbn [pd.nrows]. rewrite length_drop, !length_map.
  assert (Hn : length example_open_prices = 90%nat) by reflexivity.
  rewrite Hn. split; [done|]. split; [done|]. simpl. lia.
Qed.

(** *** Splitting and windowing: sizes and errors *)

Lemma n_train_of_lt (train_size : Qc) (n : nat) :
  train_size < 1 -> (1 <= n)%nat -> (n_train_of train_size n < n)%nat.
Proof.
  intros Hts Hn. unfold n_train_of.
  assert (Hq : (this train_size * this (Qz (Z.of_nat n))
                < inject_Z (Z.of_nat n))%Q).
  { unfold Qclt, Qz in *. rewrite !this_Q2Qc in *.
    assert (0 < inject_Z (Z.of_nat n))%Q
      by (rewrite <- (Zlt_Qlt 0); lia).
    nra. }
  assert (Hf : (Qfloor (this train_size * this (Qz (Z.of_nat n)))
                < Z.of_nat n)%Z).
  { rewrite Zlt_Qlt. eapply Qle_lt_trans; [apply Qfloor_le | exact Hq]. }
  lia.
Qed.

Lemma n_train_of_0 (train_size : Qc) : n_train_of train_size 0 = 0%nat.
Proof.
  unfold n_train_of.
  assert (Hq : (this train_size * this (Qz (Z.of_nat 0)) == inject_Z 0)%Q).
  { unfold Qz. rewrite this_Q2Qc. simpl. ring. }
  rewrite Hq, Qfloor_Z. reflexivity.
Qed.

Lemma n_train_of_default_pos (n : nat) :
  (2 <= n)%nat -> (1 <= n_train_of default_train_size n)%nat.
Proof.
  intros Hn. unfold n_train_of.
  assert (H1 : (1 <= Qfloor (this default_train_size
                             * this (Qz (Z.of_nat n))))%Z).
  { rewrite <- (Qfloor_Z 1). apply Qfloor_resp_le.
    unfold default_train_size, Qz. rewrite this_div, !this_Q2Qc.
    assert (inject_Z 2 <= inject_Z (Z.of_nat n))%Q
      by (rewrite <- Zle_Qle; lia).
    unfold inject_Z in *. unfold Qdiv.
    change (/ (10 # 1))%Q with (1 # 10)%Q. lra. }
  lia.
Qed.

(** What a successful split returns. *)
Lemma train_test_split_Some {A B} (X : list A) (Y : list B)
    (train_size : Qc) (x_train x_test : list A) (y_train y_test : list B) :
  sklearn.train_test_split X Y train_size
    = Some (x_train, x_test, y_train, y_test) ->
  let n := n_train_of train_size (length X) in
  x_train = take n X /\ x_test = drop n X /\
  y_train = take n Y /\ y_test = drop n Y /\
  length X = length Y /\ (1 <= n)%nat /\ (n < length X)%nat.
Proof.
  unfold sklearn.train_test_split. intros H.
  destruct (bool_decide (length X = length Y)) eqn:Hlen; [|discriminate H].
  apply bool_decide_eq_true in Hlen.
  destruct (Qc_ltb 0 train_size) eqn:H0; [|discriminate H].
  destruct (Qc_ltb train_size 1) eqn:H1; [|discriminate H].
  cbn [andb] in H. fold (n_train_of train_size (length X)) in H.
  case_bool_decide as Hn; [discriminate H|]. injection H as <- <- <- <-.
  apply bool_decide_eq_true in H1.
  assert (Hpos : (1 <= length X)%nat).
  { destruct X; [|simpl; lia]. exfalso. apply Hn. apply n_train_of_0. }
  pose proof (n_train_of_lt train_size (length X) H1 Hpos) as Hlt.
  cbv zeta. repeat split; try done; lia.
Qed.

(** X2.  With the default train size of 0.8, [train_test_split] raises on
    arrays of equal length exactly when they have fewer than two rows. *)
Theorem train_test_split_default_error {A B} (X : list A) (Y : list B) :
  length X = length Y ->
  (sklearn.train_test_split X Y default_train_size = None
   <-> (length X <= 1)%nat).
Proof.
  intros Hlen. unfold sklearn.train_test_split.
  rewrite (bool_decide_eq_true_2 _ Hlen).
  assert (H0 : Qc_ltb 0 default_train_size = true) by (by apply Qc_ltb_true).
  assert (H1 : Qc_ltb default_train_size 1 = true) by (by apply Qc_ltb_true).
  rewrite H0, H1. cbn [andb].
  fold (n_train_of default_train_size (length X)). split.
  - case_bool_decide as Hn; [|done]. intros _.
    destruct (decide (length X <= 1)%nat) as [|Hgt]; [done|].
    pose proof (n_train_of_default_pos (length X)). lia.
  - intros Hle. rewrite bool_decide_eq_true_2; [done|].
    destruct X as [|x [|x' X]]; [reflexivity | reflexivity | simpl in Hle; lia].
Qed.

Lemma train_test_split_default_error_witness :
  sklearn.train_test_split [7%nat] [8%nat] default_train_size = None
  <-> (length [7%nat] <= 1)%nat.
Proof. apply (train_test_split_default_error [7%nat] [8%nat]). reflexivity. Defined.

(** X3.  [format_dataset] raises [IndexError] exactly when the loop runs at
    least once and there are fewer targets than feature rows; with a window
    at least as long as the features it returns without reading a target. *)
Theorem format_dataset_index_error {A B} (x_values : list A) (y_values : list B)
    (L : nat) :
  format_dataset x_values y_values L = None
  <-> (L < length x_values)%nat /\ (length y_values < length x_values)%nat.
Proof.
  unfold format_dataset. split.
  - intros H.
    destruct (mapM (fun i => y_values !! i) (seq L (length x_values - L)))
      as [ys|] eqn:Hm; [discriminate H|].
    destruct (decide ((L < length x_values)%nat
                      /\ (length y_values < length x_values)%nat))
      as [|Hno]; [done|].
    rewrite mapM_lookup_seq in Hm by lia. discriminate Hm.
  - intros [HL Hy].
    destruct (mapM (fun i => y_values !! i) (seq L (length x_values - L)))
      as [ys|] eqn:Hm; [|done]. exfalso.
    apply mapM_Some in Hm.
    assert (Hin : seq L (length x_values - L) !! (length x_values - 1 - L)%nat
                  = Some (length x_values - 1)%nat).
    { rewrite lookup_seq_lt by lia. f_equal. lia. }
    destruct (Forall2_lookup_l _ _ _ _ _ Hm Hin) as (y & _ & Hy').
    apply lookup_lt_Some in Hy'. lia.
Qed.

(** *** The evaluation loop in closed form *)

Lemma sign_matches_le (ps ys : list Qc) : (sign_matches ps ys <= length ps)%nat.
Proof.
  revert ys. induction ps as [|p ps IH]; intros [|y ys]; cbn [sign_matches length];
    try lia.
  specialize (IH ys). case_bool_decide; lia.
Qed.

Lemma sign_matches_same (ps : list Qc) : sign_matches ps ps = length ps.
Proof.
  induction ps as [|p ps IH]; [done|]. cbn [sign_matches length].
  rewrite bool_decide_eq_true_2 by done. by rewrite IH.
Qed.

Lemma evaluation_loop_closed_form (ns : list float64) PR (ys ps' : list Qc)
    (n k : nat) :
  (n <= length ns)%nat -> (k + length ps' = n)%nat -> length ys = n ->
  evaluation_loop ns PR (column ys) n k (column ps')
    = ret (sign_matches ps' (drop k ys),
           onto_levels (drop (length ns - n + k) ns) ps',
           onto_levels (drop (length ns - n + k) ns) (drop k ys)).
Proof.
  intros Hns. revert k. induction ps' as [|p ps' IH]; intros k Hk Hys.
  - cbn [length] in Hk. rewrite drop_ge by lia.
    unfold onto_levels. rewrite !zip_with_nil_r. reflexivity.
  - cbn [length] in Hk. cbn [column map evaluation_loop]. fold (column ps').
    destruct (lookup_lt_is_Some_2 ys k) as [y Hy]; [lia|].
    rewrite lookup_column, Hy. cbn [fmap option_fmap option_map].
    unfold same_sign. cbn [zip_with bind ret].
    rewrite py_index_from_end by lia.
    destruct (lookup_lt_is_Some_2 ns (length ns - n + k)%nat) as [level Hl];
      [lia|]. rewrite Hl.
    rewrite (IH (S k)) by (lia || done). cbn [bind ret map].
    rewrite (drop_S _ _ _ Hy), (drop_S _ _ _ Hl).
    replace (length ns - n + S k)%nat with (S (length ns - n + k)) by lia.
    reflexivity.
Qed.

Lemma evaluate_rescaled_value (ns : list float64) (ps ys : list Qc) :
  ps <> [] -> length ys = length ps -> (length ps <= length ns)%nat ->
  evaluate_rescaled ns (column ps) (column ys)
    = ret {| direction_accuracy :=
               Qz (Z.of_nat (sign_matches ps ys)) / Qz (Z.of_nat (length ps));
             pred_rescaled_inversed_difference :=
               onto_levels (drop (length ns - length ps) ns) ps;
             y_test_rescaled_inversed_difference :=
               onto_levels (drop (length ns - length ps) ns) ys |}.
Proof.
  intros Hne Hlen Hns. unfold evaluate_rescaled.
  assert (Hc : length (column ps) = length ps) by apply length_map.
  rewrite Hc, (evaluation_loop_closed_form ns (column ps) ys ps (length ps) 0)
    by (lia || done).
  cbn [bind ret]. unfold accuracy_of.
  rewrite bool_decide_eq_false_2 by (by destruct ps).
  cbn [bind ret]. rewrite Nat.add_0_r. reflexivity.
Qed.

(** X4.  With [P >= 1] predictions, as many targets and at least [P] rows of
    the non-differenced Close, the evaluation returns the fraction of equal
    signs and, for every [k], the prediction and the target each added onto
    row [len - P + k] of that Close. *)
Theorem evaluate_rescaled_closed_form (ns : list float64) (ps ys : list Qc) :
  ps <> [] -> length ys = length ps -> (length ps <= length ns)%nat ->
  let levels := drop (length ns - length ps) ns in
  evaluate_rescaled ns (column ps) (column ys)
    = ret {| direction_accuracy :=
               Qz (Z.of_nat (sign_matches ps ys)) / Qz (Z.of_nat (length ps));
             pred_rescaled_inversed_difference := onto_levels levels ps;
             y_test_rescaled_inversed_difference := onto_levels levels ys |} /\
  length (onto_levels levels ps) = length ps /\
  length (onto_levels levels ys) = length ps /\
  forall k level p y,
    ns !! (length ns - length ps + k)%nat = Some level ->
    ps !! k = Some p -> ys !! k = Some y ->
    onto_levels levels ps !! k = Some [fadd level (Num p)] /\
    onto_levels levels ys !! k = Some [fadd level (Num y)].
Proof.
  intros Hne Hlen Hns levels. split; [by apply evaluate_rescaled_value|].
  unfold onto_levels, levels. rewrite !length_zip_with, length_drop.
  split; [lia|]. split; [lia|]. intros k level p y Hlevel Hp Hy.
  rewrite !lookup_zip_with, lookup_drop, Hlevel, Hp, Hy. done.
Qed.

Lemma evaluate_rescaled_closed_form_witness :
  let ns := [Num (Qz 10); Num (Qz 11); Num (Qz 9)] in
  let ps := [Qz 2; Qz (-1)] in
  let ys := [Qz 1; Qz 3] in
  evaluate_rescaled ns (column ps) (column ys)
  = ret {| direction_accuracy :=
             Qz (Z.of_nat (sign_matches ps ys)) / Qz (Z.of_nat (length ps));
           pred_rescaled_inversed_difference :=
             onto_levels (drop (length ns - length ps) ns) ps;
           y_test_rescaled_inversed_difference :=
             onto_levels (drop (length ns - length ps) ns) ys |} /\
  onto_levels (drop (length ns - length ps) ns) ys !! 1%nat
  = Some [fadd (Num (Qz 9)) (Num (Qz 3))].
Proof.
  intros ns ps ys.
  destruct (evaluate_rescaled_closed_form ns ps ys) as (Hev & _ & _ & Hk).
  - discriminate.
  - reflexivity.
  - unfold ns, ps. cbn [length]. lia.
  - split; [exact Hev|].
    by destruct (Hk 1%nat (Num (Qz 9)) (Qz (-1)) (Qz 3) eq_refl eq_refl eq_refl).
Defined.

Lemma Qz_nat_ratio_range (m n : nat) :
  (m <= n)%nat -> (1 <= n)%nat ->
  0 <= Qz (Z.of_nat m) / Qz (Z.of_nat n) /\
  Qz (Z.of_nat m) / Qz (Z.of_nat n) <= 1.
Proof.
  intros Hmn Hn.
  assert (Hn' : (0 < inject_Z (Z.of_nat n))%Q) by (rewrite <- (Zlt_Qlt 0); lia).
  assert (Hm' : (0 <= inject_Z (Z.of_nat m))%Q) by (rewrite <- (Zle_Qle 0); lia).
  assert (Hmn' : (inject_Z (Z.of_nat m) <= inject_Z (Z.of_nat n))%Q)
    by (rewrite <- Zle_Qle; lia).
  unfold Qcle, Qz. rewrite this_div, !this_Q2Qc. split.
  - apply Qle_shift_div_l; [done|]. lra.
  - apply Qle_shift_div_r; [done|]. lra.
Qed.

(** X5.  The directional accuracy lies between 0 and 1, and it is 1 for a
    model whose every prediction has the sign of its target. *)
Theorem direction_accuracy_range (ns : list float64) (ps ys : list Qc) :
  ps <> [] -> length ys = length ps -> (length ps <= length ns)%nat ->
  exists ev,
    evaluate_rescaled ns (column ps) (column ys) = ret ev /\
    0 <= direction_accuracy ev /\ direction_accuracy ev <= 1 /\
    (map np_sign ps = map np_sign ys -> direction_accuracy ev = 1).
Proof.
  intros Hne Hlen Hns. eexists. split.
  - apply evaluate_rescaled_value; done.
  - cbn [direction_accuracy].
    assert (Hpos : (1 <= length ps)%nat) by (destruct ps; [done | simpl; lia]).
    destruct (Qz_nat_ratio_range (sign_matches ps ys) (length ps)
                (sign_matches_le ps ys) Hpos) as [H0 H1].
    split; [done|]. split; [done|]. intros Hsame.
    assert (Hall : sign_matches ps ys = length ps).
    { clear -Hsame. revert ys Hsame.
      induction ps as [|p ps IH]; intros [|y ys] Hsame; try done.
      injection Hsame as Hp Hrest. cbn [sign_matches length].
      rewrite bool_decide_eq_true_2 by done. by rewrite (IH ys). }
    rewrite Hall. apply Qc_is_canon. unfold Qz. rewrite this_div, !this_Q2Qc.
    assert (Hn' : (0 < inject_Z (Z.of_nat (length ps)))%Q)
      by (rewrite <- (Zlt_Qlt 0); lia).
    field. lra.
Qed.

Lemma direction_accuracy_range_witness :
  exists ev,
    evaluate_rescaled [Num (Qz 10); Num (Qz 11); Num (Qz 9)]
      (column [Qz 2; Qz (-1)]) (column [Qz 1; Qz 3]) = ret ev /\
    0 <= direction_accuracy ev /\ direction_accuracy ev <= 1 /\
    (map np_sign [Qz 2; Qz (-1)] = map np_sign [Qz 1; Qz 3] ->
     direction_accuracy ev = 1).
Proof.
  apply (direction_accuracy_range [Num (Qz 10); Num (Qz 11); Num (Qz 9)]
           [Qz 2; Qz (-1)] [Qz 1; Qz 3]).
  - discriminate.
  - reflexivity.
  - simpl. lia.
Defined.

(** *** The evaluation loop with fewer targets than predictions *)


(** *** The fitted scaler *)

Lemma foldl_zip_with_length (f : Qc -> Qc -> Qc) (rows : list (list Qc))
    (row : list Qc) (m : nat) :
  length row = m -> rectangular m rows ->
  length (foldl (zip_with f) row rows) = m.
Proof.
  revert row. induction rows as [|r rows IH]; intros row Hrow Hrows; [done|].
  apply Forall_cons in Hrows as [Hr Hrows]. cbn [foldl]. apply IH; [|done].
  rewrite length_zip_with. lia.
Qed.

Lemma handle_zeros_pos (r : Qc) : 0 < sklearn.handle_zeros_in_scale r.
Proof.
  unfold sklearn.handle_zeros_in_scale, Qc_ltb.
  case_bool_decide as Hr; [done|]. apply Qcnot_lt_le in Hr.
  eapply Qclt_le_trans; [|exact Hr]. done.
Qed.

(** The fitted attributes of one column. *)
Lemma fit_column (X : sklearn.matrix) (sc : sklearn.MinMaxScaler) (m j : nat) :
  sklearn.fit X = Some sc -> rectangular m X -> (j < m)%nat ->
  exists mn mx s,
    sklearn.data_min_ sc !! j = Some mn /\ sklearn.data_max_ sc !! j = Some mx /\
    sklearn.scale_ sc !! j = Some s /\
    sklearn.min_ sc !! j = Some (0 - mn * s) /\
    s = (1 - 0) / sklearn.handle_zeros_in_scale (mx - mn) /\
    mn <= mx /\ 0 < s /\
    (forall row v, row ∈ X -> row !! j = Some v -> mn <= v /\ v <= mx).
Proof.
  intros Hfit Hrect Hj.
  pose proof (fit_min_max X sc Hfit) as [Hmin Hmax].
  destruct X as [|row rows]; [done|]. injection Hfit as <-.
  apply Forall_cons in Hrect as [Hrow Hrows]. cbn in Hmin, Hmax |- *.
  assert (Hlmin : length (foldl (zip_with sklearn.Qc_min) row rows) = m)
    by (by apply foldl_zip_with_length).
  assert (Hlmax : length (foldl (zip_with sklearn.Qc_max) row rows) = m)
    by (by apply foldl_zip_with_length).
  destruct (lookup_lt_is_Some_2 (foldl (zip_with sklearn.Qc_min) row rows) j)
    as [mn Hmn]; [lia|].
  destruct (lookup_lt_is_Some_2 (foldl (zip_with sklearn.Qc_max) row rows) j)
    as [mx Hmx]; [lia|].
  destruct (Hmin j mn Hmn) as [Hlow (r0 & Hr0 & Hat)].
  destruct (Hmax j mx Hmx) as [Hhigh _].
  assert (Hle : mn <= mx).
  { destruct (Hhigh r0 Hr0) as (v & Hv & Hvm). rewrite Hat in Hv.
    by injection Hv as <-. }
  assert (Hs : 0 < (1 - 0) / sklearn.handle_zeros_in_scale (mx - mn)).
  { apply Qc_div_pos; [done|]. apply handle_zeros_pos. }
  exists mn, mx, ((1 - 0) / sklearn.handle_zeros_in_scale (mx - mn)).
  split; [done|]. split; [done|].
  assert (Hsc : map (fun r => (1 - 0) / sklearn.handle_zeros_in_scale r)
                  (zip_with Qcminus (foldl (zip_with sklearn.Qc_max) row rows)
                     (foldl (zip_with sklearn.Qc_min) row rows)) !! j
                = Some ((1 - 0) / sklearn.handle_zeros_in_scale (mx - mn))).
  { rewrite lookup_map, lookup_zip_with, Hmx, Hmn. done. }
  split; [done|]. split.
  - rewrite lookup_zip_with, Hmn, Hsc. done.
  - split; [done|]. split; [done|]. split; [done|].
    intros r v Hr Hv. split.
    + destruct (Hlow r Hr) as (v' & Hv' & ?). rewrite Hv in Hv'.
      by injection Hv' as <-.
    + destruct (Hhigh r Hr) as (v' & Hv' & ?). rewrite Hv in Hv'.
      by injection Hv' as <-.
Qed.

Lemma fit_lengths (X : sklearn.matrix) (sc : sklearn.MinMaxScaler) (m : nat) :
  sklearn.fit X = Some sc -> rectangular m X ->
  length (sklearn.scale_ sc) = m /\ length (sklearn.min_ sc) = m.
Proof.
  intros Hfit Hrect. destruct X as [|row rows]; [done|]. injection Hfit as <-.
  apply Forall_cons in Hrect as [Hrow Hrows]. subst m. cbn.
  rewrite length_zip_with, length_map, length_zip_with.
  rewrite !(foldl_zip_with_length _ rows row (length row)) by done. lia.
Qed.

Lemma transform_row_round_trip (row scale mins : list Qc) :
  length scale = length row -> length mins = length row ->
  Forall (fun s => s <> 0) scale ->
  zip_with Qcdiv
    (zip_with Qcminus (zip_with Qcplus (zip_with Qcmult row scale) mins) mins)
    scale = row.
Proof.
  revert scale mins. induction row as [|v row IH];
    intros [|s scale] [|m mins] Hs Hm Hne; try done.
  apply Forall_cons in Hne as [Hs0 Hne]. cbn [zip_with]. f_equal.
  - field. done.
  - apply IH; [by injection Hs | by injection Hm | done].
Qed.

(** In the exact arithmetic of the model, [inverse_transform] undoes
    [transform] on every array with at least one row and the fitted number
    of columns. *)
Lemma inverse_transform_transform (X X' : sklearn.matrix)
    (sc : sklearn.MinMaxScaler) (m : nat) :
  sklearn.fit X = Some sc -> rectangular m X -> rectangular m X' -> X' <> [] ->
  sklearn.inverse_transform sc (sklearn.transform sc X') = Some X'.
Proof.
  intros Hfit Hrect Hrect' Hne'.
  destruct (fit_lengths X sc m Hfit Hrect) as [Hls Hlm].
  assert (Hne : Forall (fun s => s <> 0) (sklearn.scale_ sc)).
  { apply Forall_lookup. intros j s Hs.
    assert (Hj : (j < m)%nat) by (apply lookup_lt_Some in Hs; lia).
    destruct (fit_column X sc m j Hfit Hrect Hj)
      as (mn & mx & s' & _ & _ & Hs' & _ & _ & _ & Hpos & _).
    rewrite Hs in Hs'. injection Hs' as <-. intros ->.
    by destruct (Qclt_not_eq 0 0). }
  unfold sklearn.inverse_transform, sklearn.transform.
  destruct X' as [|row0 X0]; [done|]. cbn [map]. f_equal.
  change (map (fun row => zip_with Qcdiv
                 (zip_with Qcminus row (sklearn.min_ sc)) (sklearn.scale_ sc))
              (map (fun row => zip_with Qcplus
                      (zip_with Qcmult row (sklearn.scale_ sc)) (sklearn.min_ sc))
                   (row0 :: X0)) = row0 :: X0).
  clear Hne'. rewrite map_map.
  induction Hrect' as [|row X' Hrow _ IH]; [done|].
  cbn [map]. rewrite IH. f_equal.
  apply transform_row_round_trip; [lia | lia | done].
Qed.

Lemma to_numpy_rectangular (df : pd.DataFrame) (M : sklearn.matrix) :
  to_numpy df = Some M -> rectangular (length df) M.
Proof.
  unfold to_numpy. intros HM. apply mapM_Some in HM.
  unfold rectangular. apply Forall_forall. intros row Hrow.
  apply list_elem_of_lookup in Hrow as [i Hi].
  destruct (Forall2_lookup_r _ _ _ _ _ HM Hi) as (k & _ & Hk).
  apply length_mapM in Hk. lia.
Qed.

(** *** Data acquisition: the successful run and the first failure *)

Lemma fetch_loop_prefix history (ts : list string) :
  forall (pre post : list string) (frames hd : list pd.DataFrame)
         (o : list string) (fuel : nat),
  mapM (kept_frame history) ts = Some frames ->
  fetch_loop (length ts + fuel) history
    {| tickers := pre ++ ts ++ post; pos := length pre; hist_data := hd; out := o |}
  = fetch_loop fuel history
      {| tickers := pre ++ ts ++ post; pos := (length pre + length ts)%nat;
         hist_data := hd ++ frames; out := o |}.
Proof.
  induction ts as [|t ts IH]; intros pre post frames hd o fuel Hts.
  - injection Hts as <-. cbn [length]. rewrite Nat.add_0_r, app_nil_r. done.
  - rewrite mapM_Some in Hts. apply Forall2_cons_inv_l in Hts
      as (f & fs & Hf & Hfs & ->). rewrite <- mapM_Some in Hfs.
    unfold kept_frame in Hf. apply bind_Some in Hf as (df & Hdf & Hdrop).
    cbn [length Nat.add fetch_loop app]. unfold fetch_step at 1.
    cbn [tickers pos hist_data out].
    rewrite (list_lookup_middle pre (ts ++ post) t (length pre) eq_refl).
    rewrite Hdf, Hdrop.
    specialize (IH (pre ++ [t]) post fs (hd ++ [f]) o fuel Hfs).
    rewrite length_app in IH. cbn [length] in IH.
    rewrite <- !(assoc_L (++)) in IH. cbn [app] in IH.
    replace (S (length pre)) with (length pre + 1)%nat by lia.
    rewrite IH. do 2 f_equal. lia.
Qed.

Lemma fetch_loop_exhausted history fuel st :
  (length (tickers st) <= pos st)%nat -> fetch_loop fuel history st = st.
Proof.
  intros Hpos. destruct fuel as [|fuel]; [done|]. cbn [fetch_loop].
  unfold fetch_step. rewrite lookup_ge_None_2; [done | lia].
Qed.

Lemma drop_columns_columns df labels df' :
  pd.drop_columns df labels = Some df' ->
  forall c, c ∈ pd.columns df' <-> c ∈ pd.columns df /\ c ∉ labels.
Proof.
  unfold pd.drop_columns. destruct (forallb _ _); [|done]. intros [= <-] c.
  unfold pd.columns. rewrite !elem_of_map. split.
  - intros ([n s] & -> & [Hn Hin]%list_elem_of_filter). split; [|done].
    by exists (n, s).
  - intros [([n s] & -> & Hin) Hn]. exists (n, s). split; [done|].
    by apply list_elem_of_filter.
Qed.

Lemma kept_frame_columns history t f :
  kept_frame history t = Some f ->
  forall c, c ∈ unused_columns -> c ∉ pd.columns f.
Proof.
  unfold kept_frame. intros (df & _ & Hdrop)%bind_Some c Hc Hin.
  apply (drop_columns_columns _ _ _ Hdrop) in Hin as [_ Hn]. done.
Qed.

(** X8.  When the provider answers every ticker with a frame that has the
    five unused columns, the function returns one frame per ticker, in
    order, none of which has an unused column; it leaves the ticker list as
    it was and prints nothing. *)
Theorem get_historical_stock_data_all_succeed
    (history : string -> option pd.DataFrame) (tickers0 : list string)
    (frames : list pd.DataFrame) :
  mapM (kept_frame history) tickers0 = Some frames ->
  let st := get_historical_stock_data history tickers0 in
  tickers st = tickers0 /\ hist_data st = frames /\ out st = [] /\
  length (hist_data st) = length (tickers st) /\
  Forall (fun df => forall c, c ∈ unused_columns -> c ∉ pd.columns df)
         (hist_data st).
Proof.
  intros Hall st.
  assert (Hst : st = {| tickers := tickers0; pos := length tickers0;
                        hist_data := frames; out := [] |}).
  { unfold st, get_historical_stock_data.
    pose proof (fetch_loop_prefix history tickers0 [] [] frames [] [] 0%nat Hall)
      as Hloop.
    cbn [app length] in Hloop. rewrite Nat.add_0_r, app_nil_r in Hloop.
    rewrite Hloop. done. }
  rewrite Hst. cbn [tickers hist_data out]. repeat split.
  - symmetry. by apply length_mapM in Hall.
  - apply Forall_lookup. intros i f Hi.
    apply mapM_Some in Hall.
    destruct (Forall2_lookup_r _ _ _ _ _ Hall Hi) as (t & _ & Hf).
    by apply (kept_frame_columns history t).
Qed.

Lemma get_historical_stock_data_all_succeed_witness :
  let st := get_historical_stock_data example_history ["AAPL"; "MSFT"] in
  tickers st = ["AAPL"; "MSFT"] /\ length (hist_data st) = 2%nat /\ out st = [].
Proof.
  destruct (mapM (kept_frame example_history) ["AAPL"; "MSFT"]) as [frames|] eqn:Hm;
    [|vm_compute in Hm; discriminate].
  destruct (get_historical_stock_data_all_succeed example_history
              ["AAPL"; "MSFT"] frames Hm) as (H1 & _ & H3 & H4 & _).
  cbv zeta. rewrite H4, H1. done.
Defined.

Lemma mapM_kept_frame_not_elem history ts frames t :
  mapM (kept_frame history) ts = Some frames ->
  kept_frame history t = None -> t ∉ ts.
Proof.
  intros Hts Ht Hin. apply mapM_Some in Hts.
  apply list_elem_of_lookup in Hin as [i Hi].
  destruct (Forall2_lookup_l _ _ _ _ _ Hts Hi) as (f & _ & Hf). congruence.
Qed.

Lemma list_remove_middle (t : string) (ts rest : list string) :
  t ∉ ts -> list_remove t (ts ++ t :: rest) = ts ++ rest.
Proof.
  induction ts as [|x ts IH]; intros Hn; cbn [app list_remove].
  - by rewrite decide_True.
  - apply not_elem_of_cons in Hn as [Hx Hn].
    rewrite decide_False by done. by rewrite IH.
Qed.

(** The state after the first ticker whose [try] block raises. *)
Lemma fetch_loop_first_failure history (ts rest : list string) (t : string)
    (frames : list pd.DataFrame) :
  mapM (kept_frame history) ts = Some frames ->
  kept_frame history t = None ->
  get_historical_stock_data history (ts ++ t :: rest)
  = fetch_loop (length rest) history
      {| tickers := ts ++ rest; pos := S (length ts);
         hist_data := frames ++ left_over history t;
         out := [removed_msg t] |}.
Proof.
  intros Hts Ht. unfold get_historical_stock_data.
  rewrite length_app. cbn [length].
  pose proof (fetch_loop_prefix history ts [] (t :: rest) frames [] []
                (S (length rest)) Hts) as Hloop.
  cbn [app length Nat.add] in Hloop. rewrite Hloop.
  cbn [fetch_loop]. unfold fetch_step at 1. cbn [tickers pos hist_data out].
  rewrite (list_lookup_middle ts rest t (length ts) eq_refl).
  rewrite (list_remove_middle t ts rest)
    by (by apply (mapM_kept_frame_not_elem history ts frames)).
  unfold kept_frame in Ht. unfold left_over.
  destruct (history t) as [df|]; cbn [mbind option_bind] in Ht.
  - rewrite Ht. done.
  - by rewrite app_nil_r.
Qed.

(** X9.  The downloaded frame is appended before its columns are dropped:
    when [drop] raises for the last ticker, the ticker is removed but its
    frame stays, with all its columns, and the function returns one frame
    more than there are tickers left. *)
Theorem get_historical_stock_data_keeps_undropped_frame
    (history : string -> option pd.DataFrame) (ts : list string) (t : string)
    (frames : list pd.DataFrame) (df : pd.DataFrame) :
  mapM (kept_frame history) ts = Some frames ->
  history t = Some df -> pd.drop_columns df unused_columns = None ->
  let st := get_historical_stock_data history (ts ++ [t]) in
  tickers st = ts /\ hist_data st = frames ++ [df] /\
  out st = [removed_msg t] /\
  length (hist_data st) = S (length (tickers st)).
Proof.
  intros Hts Hdf Hdrop st.
  assert (Ht : kept_frame history t = None)
    by (unfold kept_frame; rewrite Hdf; done).
  unfold st. rewrite (fetch_loop_first_failure history ts [] t frames Hts Ht).
  cbn [length fetch_loop tickers hist_data out]. unfold left_over.
  rewrite Hdf, app_nil_r, length_app. cbn [length].
  apply length_mapM in Hts. repeat split. lia.
Qed.

Lemma get_historical_stock_data_keeps_undropped_frame_witness :
  let st := get_historical_stock_data example_partial_history ["AAPL"; "LATE"] in
  tickers st = ["AAPL"] /\ out st = [removed_msg "LATE"] /\
  length (hist_data st) = S (length (tickers st)).
Proof.
  destruct (mapM (kept_frame example_partial_history) ["AAPL"])
    as [frames|] eqn:Hm; [|vm_compute in Hm; discriminate].
  destruct (get_historical_stock_data_keeps_undropped_frame
              example_partial_history ["AAPL"] "LATE" frames
              [("Open", [Num (Qz 1)]); ("Close", [Num (Qz 2)])]
              Hm eq_refl eq_refl) as (H1 & _ & H3 & H4).
  cbv zeta. split; [exact H1|]. split; [exact H3 | exact H4].
Defined.

(** X10.  For every provider: when the last ticker but one is the first to
    fail, it is removed and the last ticker is never requested; it stays in
    the list without a frame. *)
Theorem get_historical_stock_data_skips_after_failure
    (history : string -> option pd.DataFrame) (ts : list string) (t u : string)
    (frames : list pd.DataFrame) :
  mapM (kept_frame history) ts = Some frames ->
  kept_frame history t = None ->
  let st := get_historical_stock_data history (ts ++ [t; u]) in
  tickers st = ts ++ [u] /\ hist_data st = frames ++ left_over history t /\
  out st = [removed_msg t].
Proof.
  intros Hts Ht st. unfold st.
  rewrite (fetch_loop_first_failure history ts [u] t frames Hts Ht).
  rewrite fetch_loop_exhausted; [done|].
  cbn [tickers pos]. rewrite length_app. cbn [length]. lia.
Qed.

Lemma get_historical_stock_data_skips_after_failure_witness :
  let st := get_historical_stock_data example_history
              ["AAPL"; "GOOG"; "XXXX"; "MSFT"] in
  tickers st = ["AAPL"; "GOOG"] ++ ["MSFT"] /\ length (hist_data st) = 2%nat /\
  out st = [removed_msg "XXXX"].
Proof.
  destruct (mapM (kept_frame example_history) ["AAPL"; "GOOG"])
    as [frames|] eqn:Hm; [|vm_compute in Hm; discriminate].
  destruct (get_historical_stock_data_skips_after_failure example_history
              ["AAPL"; "GOOG"] "XXXX" "MSFT" frames Hm eq_refl)
    as (H1 & H2 & H3).
  cbv zeta. split; [exact H1|]. split; [|exact H3].
  change (["AAPL"; "GOOG"] ++ ["XXXX"; "MSFT"])
    with ["AAPL"; "GOOG"; "XXXX"; "MSFT"] in H2.
  rewrite H2, length_app. apply length_mapM in Hm. rewrite <- Hm. reflexivity.
Defined.

(** *** Frames: column bookkeeping *)

Lemma getitem_None df name : pd.getitem df name = None <-> name ∉ pd.columns df.
Proof.
  induction df as [|[n c] df IH]; cbn [pd.getitem pd.columns map fst].
  - split; [intros _; apply not_elem_of_nil | done].
  - rewrite not_elem_of_cons. destruct (decide (n = name)) as [->|Hn].
    + split; [done | intros [? _]; done].
    + rewrite IH. unfold pd.columns. split; [intros ?; split; [congruence|done] | by intros [_ ?]].
Qed.

Lemma getitem_Some_elem df name c : pd.getitem df name = Some c -> (name, c) ∈ df.
Proof.
  induction df as [|[n c'] df IH]; cbn [pd.getitem]; [done|].
  destruct (decide (n = name)) as [->|Hn].
  - intros [= ->]. apply elem_of_cons. by left.
  - intros H. apply elem_of_cons. right. by apply IH.
Qed.

Lemma columns_setitem df name s :
  pd.columns (pd.setitem df name s)
  = if bool_decide (name ∈ pd.columns df) then pd.columns df
    else pd.columns df ++ [name].
Proof.
  induction df as [|[n c] df IH]; cbn [pd.setitem pd.columns map fst app].
  - rewrite bool_decide_eq_false_2; [done | apply not_elem_of_nil].
  - destruct (decide (n = name)) as [->|Hn]; cbn [map fst].
    + rewrite bool_decide_eq_true_2; [done | apply elem_of_cons; by left].
    + fold (pd.columns (pd.setitem df name s)). fold (pd.columns df).
      rewrite IH. case_bool_decide as Hin.
      * rewrite bool_decide_eq_true_2; [done | apply elem_of_cons; by right].
      * rewrite bool_decide_eq_false_2; [done|].
        rewrite not_elem_of_cons. split; [congruence | done].
Qed.

Lemma columns_setitem_incl df name s c :
  c ∈ pd.columns df -> c ∈ pd.columns (pd.setitem df name s).
Proof.
  intros Hc. rewrite columns_setitem. case_bool_decide; [done|].
  apply elem_of_app. by left.
Qed.

Lemma NoDup_columns_setitem df name s :
  NoDup (pd.columns df) -> NoDup (pd.columns (pd.setitem df name s)).
Proof.
  intros Hnd. rewrite columns_setitem. case_bool_decide as Hin; [done|].
  apply NoDup_app. split; [done|]. split; [|apply NoDup_singleton].
  intros x Hx ->%list_elem_of_singleton. done.
Qed.

Lemma Forall_setitem (P : string * pd.Series -> Prop) df name s :
  Forall P df -> P (name, s) -> Forall P (pd.setitem df name s).
Proof.
  intros Hdf Hs. induction Hdf as [|[n c] df Hnc Hdf IH]; cbn [pd.setitem].
  - by apply Forall_singleton.
  - destruct (decide (n = name)) as [->|Hn]; by apply Forall_cons.
Qed.

Lemma pop_None df name : pd.pop df name = None <-> name ∉ pd.columns df.
Proof.
  induction df as [|[n c] df IH]; cbn [pd.pop pd.columns map fst].
  - split; [intros _; apply not_elem_of_nil | done].
  - rewrite not_elem_of_cons. destruct (decide (n = name)) as [->|Hn].
    + split; [done | intros [? _]; done].
    + fold (pd.columns df). rewrite <- IH.
      destruct (pd.pop df name) as [[s rest]|]; cbn [mbind option_bind].
      * split; [done | intros [_ ?]; done].
      * split; [intros _; split; [congruence | done] | done].
Qed.

Lemma pop_Some df name s rest :
  pd.pop df name = Some (s, rest) ->
  exists pre post, df = pre ++ (name, s) :: post /\ rest = pre ++ post /\
                   name ∉ pd.columns pre.
Proof.
  revert rest. induction df as [|[n c] df IH]; intros rest; cbn [pd.pop]; [done|].
  destruct (decide (n = name)) as [->|Hn].
  - intros [= -> ->]. exists [], rest. repeat split. apply not_elem_of_nil.
  - destruct (pd.pop df name) as [[s' rest']|]; cbn [mbind option_bind]; [|done].
    intros [= -> <-]. destruct (IH rest' eq_refl) as (pre & post & -> & -> & Hpre).
    exists ((n, c) :: pre), post. repeat split.
    cbn [pd.columns map fst]. rewrite not_elem_of_cons. split; [congruence | done].
Qed.

(** *** Frames: [dropna] *)

Lemma filter_mask_elem {A} (mask : list bool) (l : list A) (x : A) :
  x ∈ pd.filter_mask mask l ->
  exists i, mask !! i = Some true /\ l !! i = Some x.
Proof.
  revert l. induction mask as [|b mask IH]; intros [|y l]; cbn [pd.filter_mask];
    try (by intros ?%elem_of_nil).
  destruct b.
  - intros [->|Hx]%elem_of_cons; [by exists 0%nat|].
    destruct (IH l Hx) as (i & ? & ?). by exists (S i).
  - intros Hx. destruct (IH l Hx) as (i & ? & ?). by exists (S i).
Qed.

Lemma filter_mask_length {A B} (mask : list bool) (l : list A) (k : list B) :
  length l = length k ->
  length (pd.filter_mask mask l) = length (pd.filter_mask mask k).
Proof.
  revert l k. induction mask as [|b mask IH]; intros [|x l] [|y k] Hlen;
    cbn [pd.filter_mask]; try done.
  injection Hlen as Hlen. destruct b; cbn [length]; by rewrite (IH l k).
Qed.

Lemma filter_mask_length_le {A} (mask : list bool) (l : list A) :
  (length (pd.filter_mask mask l) <= length l)%nat.
Proof.
  revert l. induction mask as [|b mask IH]; intros [|x l]; cbn [pd.filter_mask length];
    try lia.
  specialize (IH l). destruct b; cbn [length]; lia.
Qed.

Lemma row_has_na_false df i n c x :
  pd.row_has_na df i = false -> (n, c) ∈ df -> c !! i = Some x -> isnan x = false.
Proof.
  unfold pd.row_has_na. intros Hrow Hin Hx.
  destruct (isnan x) eqn:Hnan; [|done].
  assert (existsb (fun nc : string * pd.Series =>
            match nc.2 !! i with Some x => isnan x | None => false end) df = true)
    as Hex; [|congruence].
  apply existsb_exists. exists (n, c). split; [by apply list_elem_of_In|].
  cbn [snd]. by rewrite Hx.
Qed.

Lemma dropna_no_nan df : no_nan (pd.dropna df).
Proof.
  unfold no_nan, pd.dropna. apply Forall_forall. intros nc Hnc.
  apply elem_of_map in Hnc as ([n c] & -> & Hin). cbn [fst snd].
  apply Forall_forall. intros x Hx.
  apply filter_mask_elem in Hx as (i & Hkeep & Hx).
  rewrite lookup_map in Hkeep.
  destruct (seq 0 (pd.nrows df) !! i) as [i'|] eqn:Hi; [|done].
  apply lookup_seq in Hi as [-> _]. cbn [option_map fmap] in Hkeep.
  injection Hkeep as Hkeep. apply negb_true_iff in Hkeep.
  by apply (row_has_na_false df i n c x).
Qed.

Lemma dropna_frame_rows df n :
  frame_rows n df ->
  exists m, (m <= n)%nat /\ frame_rows m (pd.dropna df).
Proof.
  intros Hrows. destruct df as [|[n0 c0] df]; [by exists 0%nat; split; [lia | constructor]|].
  set (frame := (n0, c0) :: df) in *.
  set (keep := map (fun i => negb (pd.row_has_na frame i)) (seq 0 (pd.nrows frame))).
  exists (length (pd.filter_mask keep c0)). split.
  - unfold frame_rows in Hrows. apply Forall_cons in Hrows as [H0 _].
    cbn [snd] in H0. rewrite <- H0. apply filter_mask_length_le.
  - unfold frame_rows, pd.dropna. fold keep. apply Forall_forall.
    intros nc Hnc. apply elem_of_map in Hnc as ([n' c'] & -> & Hin).
    cbn [fst snd]. apply filter_mask_length.
    unfold frame_rows in Hrows. rewrite Forall_forall in Hrows.
    pose proof (Hrows (n', c') Hin) as H1.
    assert (H0 : (n0, c0) ∈ frame) by (apply elem_of_cons; by left).
    apply Hrows in H0. cbn [snd] in H0, H1. congruence.
Qed.

(** *** Frames: the first difference and the indicator columns *)

Lemma diff_length (s : pd.Series) : length (pd.diff s) = length s.
Proof.
  destruct s as [|x s]; [done|]. cbn [pd.diff length].
  rewrite length_zip_with. cbn [length]. lia.
Qed.

Lemma filter_mask_false_head {A} (mask : list bool) (l : list A) :
  (length (pd.filter_mask (false :: mask) l) <= length l - 1)%nat.
Proof.
  destruct l as [|x l]; cbn [pd.filter_mask length]; [lia|].
  pose proof (filter_mask_length_le mask l). lia.
Qed.

Lemma make_stationary_frame_clean (df : pd.DataFrame) (n : nat) :
  df <> [] -> frame_rows n df ->
  pd.columns (make_stationary_frame df) = pd.columns df /\
  no_nan (make_stationary_frame df) /\
  exists m, (m <= n - 1)%nat /\ frame_rows m (make_stationary_frame df).
Proof.
  intros Hne Hrows. split; [apply columns_make_stationary_frame|].
  split; [apply dropna_no_nan|]. unfold make_stationary_frame.
  destruct df as [|[n0 c0] df]; [done|]. clear Hne.
  assert (Hd : frame_rows n (pd.frame_diff ((n0, c0) :: df))).
  { unfold frame_rows, pd.frame_diff in *. rewrite Forall_map.
    eapply Forall_impl; [exact Hrows|]. intros [n' c'] Hc. cbn [snd] in *.
    by rewrite diff_length. }
  destruct n as [|n].
  { destruct (dropna_frame_rows _ 0 Hd) as (m & Hm & Hrows').
    exists m. split; [lia | done]. }
  apply Forall_cons in Hrows as [H0 Hrows]. cbn [snd] in H0.
  destruct c0 as [|x0 c0]; [done|].
  unfold pd.dropna. cbn [pd.frame_diff map fst snd pd.diff pd.nrows length seq].
  cbn [pd.row_has_na existsb snd lookup list_lookup isnan orb negb].
  set (keep := map _ (seq 1 _)).
  exists (length (pd.filter_mask (false :: keep) (NaN :: zip_with fsub c0 (x0 :: c0)))).
  split.
  - etrans; [apply filter_mask_false_head|]. cbn [length].
    rewrite length_zip_with. cbn [length] in *. lia.
  - unfold frame_rows. apply Forall_cons. split; [done|].
    rewrite !Forall_map. unfold frame_rows, pd.frame_diff in Hd.
    cbn [map] in Hd. apply Forall_cons in Hd as [Hd0 Hd].
    rewrite Forall_map in Hd.
    eapply Forall_impl; [exact Hd|]. intros [n' c'] Hc. cbn [fst snd] in *.
    apply filter_mask_length. rewrite Hc.
    cbn [length]. rewrite length_zip_with. cbn [length] in *. lia.
Qed.

(** X11.  [make_stationary] returns one frame per input frame.  For a frame
    with at least one column and [n] rows in every column it keeps the
    column names, leaves no NaN, keeps the columns equally long, and drops
    at least the first row. *)
Theorem make_stationary_clean (frames : list pd.DataFrame) (i n : nat)
    (df : pd.DataFrame) :
  frames !! i = Some df -> df <> [] -> frame_rows n df ->
  length (make_stationary frames) = length frames /\
  exists df', make_stationary frames !! i = Some df' /\
    pd.columns df' = pd.columns df /\ no_nan df' /\
    exists m, (m <= n - 1)%nat /\ frame_rows m df'.
Proof.
  intros Hi Hne Hrows. unfold make_stationary. split; [apply length_map|].
  exists (make_stationary_frame df). split; [by rewrite lookup_map, Hi|].
  by apply make_stationary_frame_clean.
Qed.

Lemma make_stationary_clean_witness :
  exists df', make_stationary [raw_frame example_open example_close] !! 0%nat
                = Some df' /\
    pd.columns df' = ["Open"; "Close"] /\ no_nan df' /\
    exists m, (m <= length example_open - 1)%nat /\ frame_rows m df'.
Proof.
  assert (Hrows : frame_rows (length example_open)
                    (raw_frame example_open example_close)).
  { repeat constructor. }
  destruct (make_stationary_clean [raw_frame example_open example_close] 0%nat
              (length example_open) (raw_frame example_open example_close)
              eq_refl ltac:(discriminate) Hrows) as (_ & df' & H1 & H2 & H3 & H4).
  exists df'. done.
Defined.

Lemma rsi_length_any (open : pd.Series) : length (rsi open) = length open.
Proof.
  unfold rsi, pd.rsub, pd.rdiv, pd.radd, rsi_rs, pd.div.
  rewrite !length_map, length_zip_with. unfold rsi_ema_up, rsi_ema_down.
  rewrite !ewm_mean_length. unfold rsi_up, rsi_down, pd.rmul, pd.clip_lower,
    pd.clip_upper, rsi_delta.
  rewrite !length_map, diff_length. lia.
Qed.

Lemma macd_length (open : pd.Series) : length (macd open) = length open.
Proof.
  unfold macd, pd.sub. rewrite length_zip_with, !ewm_mean_length. lia.
Qed.

Ltac indicator_name :=
  unfold indicator_names; rewrite !elem_of_cons; auto 10.

Lemma indicator_inv_start df0 vw mw maw : indicator_inv df0 vw mw maw df0.
Proof. repeat split; auto. Qed.

Lemma indicator_inv_step df0 vw mw maw (df : pd.DataFrame) (name : string)
    (f : pd.Series -> pd.Series) :
  "Open" ∈ pd.columns df0 ->
  indicator_inv df0 vw mw maw df -> name ∈ indicator_names vw mw maw ->
  (forall s, length (f s) = length s) ->
  exists open, pd.getitem df "Open" = Some open /\
               indicator_inv df0 vw mw maw (pd.setitem df name (f open)).
Proof.
  intros Hopen0 (Hin & Hout & Hnd & Hrows) Hname Hf.
  destruct (pd.getitem df "Open") as [open|] eqn:Hopen.
  2: { apply getitem_None in Hopen. destruct Hopen. by apply Hin. }
  exists open. split; [done|]. repeat split.
  - intros c Hc. apply columns_setitem_incl. by apply Hin.
  - intros c. rewrite columns_setitem. case_bool_decide; [by apply Hout|].
    intros [Hc| ->%list_elem_of_singleton]%elem_of_app; [by apply Hout | by right].
  - intros H0. apply NoDup_columns_setitem. by apply Hnd.
  - intros n H0. apply Forall_setitem; [by apply Hrows|]. cbn [snd].
    rewrite Hf. apply getitem_Some_elem in Hopen.
    specialize (Hrows n H0). unfold frame_rows in Hrows.
    rewrite Forall_forall in Hrows. by apply (Hrows _ Hopen).
Qed.

Lemma with_indicators_inv df0 vw mw maw sqrt :
  "Open" ∈ pd.columns df0 ->
  exists df, with_indicators sqrt vw mw maw df0 = Some df /\
             indicator_inv df0 vw mw maw df.
Proof.
  intros Hopen. unfold with_indicators.
  destruct (indicator_inv_step df0 vw mw maw df0 ("Vol_" +:+ pretty vw)
              (pd.rolling_std sqrt vw) Hopen (indicator_inv_start _ _ _ _))
    as (o1 & -> & H1); [indicator_name | apply rolling_std_length |].
  cbn [mbind option_bind].
  destruct (indicator_inv_step df0 vw mw maw _ "RSI" rsi Hopen H1)
    as (o2 & -> & H2); [indicator_name | apply rsi_length_any |].
  cbn [mbind option_bind].
  destruct (indicator_inv_step df0 vw mw maw _ "MACD" macd Hopen H2)
    as (o3 & -> & H3); [indicator_name | apply macd_length |].
  cbn [mbind option_bind].
  destruct (indicator_inv_step df0 vw mw maw _ ("Mom_" +:+ pretty mw)
              (momentum mw) Hopen H3)
    as (o4 & -> & H4); [indicator_name | apply momentum_length |].
  cbn [mbind option_bind].
  destruct (indicator_inv_step df0 vw mw maw _ ("MA_" +:+ pretty maw)
              (pd.rolling_mean maw) Hopen H4)
    as (o5 & -> & H5); [indicator_name | apply rolling_mean_length |].
  cbn [mbind option_bind]. eexists. split; [reflexivity | exact H5].
Qed.

Lemma columns_setitem_self df name s : name ∈ pd.columns (pd.setitem df name s).
Proof.
  rewrite columns_setitem. case_bool_decide; [done|].
  apply elem_of_app. right. by apply list_elem_of_singleton.
Qed.

Lemma with_indicators_names sqrt vw mw maw df df' c :
  with_indicators sqrt vw mw maw df = Some df' ->
  c ∈ indicator_names vw mw maw -> c ∈ pd.columns df'.
Proof.
  unfold with_indicators. intros Hw Hc.
  apply bind_Some in Hw as (o1 & _ & Hw). apply bind_Some in Hw as (o2 & _ & Hw).
  apply bind_Some in Hw as (o3 & _ & Hw). apply bind_Some in Hw as (o4 & _ & Hw).
  apply bind_Some in Hw as (o5 & _ & Hw). injection Hw as <-.
  unfold indicator_names in Hc. rewrite !elem_of_cons, elem_of_nil in Hc.
  destruct Hc as [->|[->|[->|[->|[->|[]]]]]];
    repeat first [ apply columns_setitem_self | apply columns_setitem_incl ].
Qed.

Lemma close_not_indicator vw mw maw : "Close" ∉ indicator_names vw mw maw.
Proof.
  unfold indicator_names. rewrite !not_elem_of_cons.
  repeat split; try name_neq. apply not_elem_of_nil.
Qed.

Lemma columns_app (df1 df2 : pd.DataFrame) :
  pd.columns (df1 ++ df2) = pd.columns df1 ++ pd.columns df2.
Proof. apply map_app. Qed.

(** X12.  For a frame with distinct column names, the body of
    [calc_technical_indicators] raises exactly when the frame has no Open or
    no Close column.  Otherwise the result ends with the Close column, has
    distinct names, namely those of the input and the five indicators,
    holds no NaN, and keeps its columns equally long. *)
Theorem calc_technical_indicators_frame_target_last sqrt (vw mw maw : nat)
    (df : pd.DataFrame) :
  NoDup (pd.columns df) ->
  (calc_technical_indicators_frame sqrt vw mw maw df = None
   <-> "Open" ∉ pd.columns df \/ "Close" ∉ pd.columns df) /\
  forall df', calc_technical_indicators_frame sqrt vw mw maw df = Some df' ->
    (exists rest close, df' = rest ++ [("Close", close)]) /\
    NoDup (pd.columns df') /\
    (forall c, c ∈ pd.columns df' <->
               c ∈ pd.columns df \/ c ∈ indicator_names vw mw maw) /\
    no_nan df' /\
    forall n, frame_rows n df -> exists m, (m <= n)%nat /\ frame_rows m df'.
Proof.
  intros Hnd. unfold calc_technical_indicators_frame.
  destruct (decide ("Open" ∈ pd.columns df)) as [Hopen|Hopen].
  2: { assert (Hw : with_indicators sqrt vw mw maw df = None).
       { unfold with_indicators. apply getitem_None in Hopen. by rewrite Hopen. }
       rewrite Hw. cbn [mbind option_bind]. split; [|done].
       split; [by left | done]. }
  destruct (with_indicators_inv df vw mw maw sqrt Hopen)
    as (dfi & Hwith & Hin & Hout & Hndi & Hrows).
  pose proof (fun c => with_indicators_names sqrt vw mw maw df dfi c Hwith)
    as Hnames.
  rewrite Hwith.
  cbn [mbind option_bind]. rewrite columns_dropna.
  destruct (pd.pop (pd.dropna dfi) "Close") as [[close rest]|] eqn:Hpop.
  2: { apply pop_None in Hpop. rewrite columns_dropna in Hpop.
       cbn [mbind option_bind]. split; [|done]. split; [|done].
       intros _. right. intros Hc. apply Hpop. by apply Hin. }
  pose proof (dropna_no_nan dfi) as Hnan.
  apply pop_Some in Hpop as (pre & post & Hdrop & -> & Hpre).
  assert (Hcols : pd.columns dfi = pd.columns pre ++ "Close" :: pd.columns post).
  { rewrite <- (columns_dropna dfi), Hdrop. apply columns_app. }
  specialize (Hndi Hnd). rewrite Hcols in Hndi.
  assert (Hclose : "Close" ∈ pd.columns df).
  { destruct (Hout "Close") as [?|Hc]; [|done|].
    { rewrite Hcols, elem_of_app, elem_of_cons. auto. }
    by destruct (close_not_indicator vw mw maw). }
  assert (Hlen : (length (pd.columns dfi) - 1)%nat = length (pre ++ post)).
  { rewrite Hcols. unfold pd.columns.
    rewrite !length_app, !length_map. cbn [length]. rewrite length_map. lia. }
  cbn [mbind option_bind]. unfold pd.insert. rewrite Hlen.
  apply NoDup_app in Hndi as (Hnd1 & Hnd2 & Hnd3).
  apply NoDup_cons in Hnd3 as [Hpost Hnd3].
  rewrite bool_decide_eq_false_2.
  2: { rewrite columns_app, elem_of_app. intros [?|?]; [done | done]. }
  rewrite bool_decide_eq_true_2 by lia.
  rewrite take_ge, drop_ge by lia.
  split; [split; [done | intros [?|?]; done]|].
  intros df' [= <-]. split; [by exists (pre ++ post), close|].
  assert (Hperm : pd.columns ((pre ++ post) ++ [("Close", close)])
                  ≡ₚ pd.columns dfi).
  { rewrite Hcols, !columns_app. cbn [pd.columns map fst].
    rewrite <- (assoc_L (++)). apply Permutation_app_head.
    symmetry. apply Permutation_cons_append. }
  split; [|split; [|split]].
  - rewrite Hperm, Hcols. apply NoDup_app. split; [done|]. split; [done|].
    by apply NoDup_cons.
  - intros c. rewrite Hperm. split; [apply Hout|].
    intros [Hc|Hc]; [by apply Hin | by apply Hnames].
  - unfold no_nan in *. rewrite Hdrop in Hnan.
    rewrite !Forall_app, Forall_cons in Hnan. destruct Hnan as (H1 & H2 & H3).
    rewrite !Forall_app, Forall_singleton. done.
  - intros n Hn. destruct (dropna_frame_rows dfi n (Hrows n Hn)) as (m & Hm & Hd).
    exists m. split; [done|]. unfold frame_rows in *. rewrite Hdrop in Hd.
    rewrite !Forall_app, Forall_cons in Hd. destruct Hd as (H1 & H2 & H3).
    rewrite !Forall_app, Forall_singleton. done.
Qed.

Lemma calc_technical_indicators_frame_target_last_witness :
  let df := raw_frame example_open example_close in
  (calc_technical_indicators_frame Qc_sqrt 20 20 20 df = None
   <-> "Open" ∉ pd.columns df \/ "Close" ∉ pd.columns df) /\
  forall df', calc_technical_indicators_frame Qc_sqrt 20 20 20 df = Some df' ->
    (exists rest close, df' = rest ++ [("Close", close)]) /\
    NoDup (pd.columns df') /\
    (forall c, c ∈ pd.columns df' <->
               c ∈ pd.columns df \/ c ∈ indicator_names 20 20 20) /\
    no_nan df' /\
    forall n, frame_rows n df -> exists m, (m <= n)%nat /\ frame_rows m df'.
Proof.
  apply (calc_technical_indicators_frame_target_last Qc_sqrt 20 20 20
           (raw_frame example_open example_close)).
  apply (bool_decide_eq_true_1 _). reflexivity.
Defined.

(** *** One frame per feature combination *)

Lemma elem_of_feature_combinations (cols : list string) (c : list string) :
  c ∈ feature_combinations cols <->
  exists s, c = s ++ ["Close"] /\ s <> [] /\
            s `sublist_of` take (length cols - 1) cols.
Proof.
  rewrite feature_combinations_rows, elem_of_concat. split.
  - intros (row & Hrow & Hc). apply elem_of_map in Hrow as (i & -> & _).
    apply elem_of_combination_row in Hc as (s & ? & ? & ? & _). eauto.
  - intros (s & -> & Hne & Hsub).
    exists (combination_row (take (length cols - 1) cols) (length s)). split.
    + apply elem_of_map. exists (length s). split; [done|].
      apply elem_of_seq. apply sublist_length in Hsub.
      rewrite length_take in Hsub. lia.
    + apply elem_of_combination_row. eauto.
Qed.

Lemma select_Some df names f :
  pd.select df names = Some f ->
  pd.columns f = names /\ forall n s, (n, s) ∈ f -> pd.getitem df n = Some s.
Proof.
  unfold pd.select. intros Hsel. apply mapM_Some in Hsel.
  induction Hsel as [|n [n' s] names f Hns _ IH].
  - split; [done|]. by intros n s ?%elem_of_nil.
  - apply bind_Some in Hns as (s' & Hs' & [= <- <-]).
    destruct IH as [IH1 IH2]. split.
    + cbn [pd.columns map fst]. f_equal. exact IH1.
    + intros n0 s0 [[= -> ->]|Hin]%elem_of_cons; [done | by apply IH2].
Qed.

Lemma select_None df names :
  pd.select df names = None <-> exists n, n ∈ names /\ n ∉ pd.columns df.
Proof.
  unfold pd.select. rewrite mapM_None, Exists_exists. split.
  - intros (n & Hn & Hnone). exists n. split; [done|].
    apply getitem_None. by destruct (pd.getitem df n).
  - intros (n & Hn & Hcol). exists n. split; [done|].
    apply getitem_None in Hcol. by rewrite Hcol.
Qed.

Lemma sublist_take_elem (cols s : list string) (k : nat) (n : string) :
  s `sublist_of` take k cols -> n ∈ s -> n ∈ cols.
Proof.
  intros Hs Hn. apply (elem_of_sublist _ _ _ Hn) in Hs.
  apply elem_of_take in Hs as (i & Hi & _). by apply list_elem_of_lookup_2 in Hi.
Qed.

(** X13.  Selecting every feature combination from a stock's frame, which
    has at least the columns the combinations were made from, raises exactly
    when that frame has no Close column and there is a combination at all.
    Otherwise there is one frame per combination, whose columns are the
    names of the combination in their order, each with the values the
    stock's frame has under that name. *)
Theorem frames_of_combinations_selects (df0 df : pd.DataFrame) :
  (forall c, c ∈ pd.columns df0 -> c ∈ pd.columns df) ->
  let combos := feature_combinations (pd.columns df0) in
  (frames_of_combinations df combos = None
   <-> ("Close" ∉ pd.columns df) /\ (2 <= length df0)%nat) /\
  forall frames, frames_of_combinations df combos = Some frames ->
    Forall2 (fun c f => pd.columns f = c /\
                        forall n s, (n, s) ∈ f -> pd.getitem df n = Some s)
            combos frames.
Proof.
  intros Hsub combos. unfold frames_of_combinations. split.
  - rewrite mapM_None, Exists_exists. split.
    + intros (c & Hc & Hsel). apply select_None in Hsel as (n & Hn & Hcol).
      apply elem_of_feature_combinations in Hc as (s & -> & Hne & Hs).
      assert (Hlen : (2 <= length df0)%nat).
      { apply sublist_length in Hs. rewrite length_take in Hs.
        unfold pd.columns in Hs. rewrite length_map in Hs.
        destruct s; [done|]. cbn [length] in Hs. lia. }
      split; [|done].
      apply elem_of_app in Hn as [Hn| ->%list_elem_of_singleton]; [|done].
      destruct Hcol. apply Hsub. by apply (sublist_take_elem _ s _ n Hs).
    + intros [Hclose Hlen]. destruct df0 as [|[n0 c0] df0]; [cbn in Hlen; lia|].
      exists ([n0] ++ ["Close"]). split.
      * apply elem_of_feature_combinations. exists [n0]. split; [done|].
        split; [done|]. apply singleton_sublist_l. apply elem_of_take.
        exists 0%nat. split; [done|]. unfold pd.columns. rewrite length_map.
        cbn [length] in *. lia.
      * apply select_None. exists "Close". split; [|done].
        apply elem_of_app. right. by apply list_elem_of_singleton.
  - intros frames Hframes. apply mapM_Some in Hframes.
    eapply Forall2_impl; [exact Hframes|]. intros c f Hsel.
    by apply select_Some.
Qed.

Lemma frames_of_combinations_selects_witness :
  let df := frame_of [("Open", [Qz 1; Qz 2]); ("RSI", [Qz 3; Qz 4]);
                      ("Close", [Qz 5; Qz 6])] in
  exists frames,
    frames_of_combinations df (feature_combinations (pd.columns df)) = Some frames /\
    Forall2 (fun c f => pd.columns f = c /\
                        forall n s, (n, s) ∈ f -> pd.getitem df n = Some s)
            (feature_combinations (pd.columns df)) frames.
Proof.
  intros df.
  destruct (frames_of_combinations df (feature_combinations (pd.columns df)))
    as [frames|] eqn:Hf; [|vm_compute in Hf; discriminate].
  exists frames. split; [reflexivity|].
  destruct (frames_of_combinations_selects df df (fun c H => H)) as [_ Hsel].
  by apply Hsel.
Defined.

(** *** Mean absolute percentage error *)

Lemma Qc_abs_nonneg (q : Qc) : 0 <= Qc_abs q.
Proof.
  unfold Qc_abs, Qc_ltb. case_bool_decide as Hq; [qc_lra|].
  apply Qcnot_lt_le in Hq. done.
Qed.

Lemma Qc_abs_zero (q : Qc) : Qc_abs q = 0 <-> q = 0.
Proof.
  unfold Qc_abs, Qc_ltb. case_bool_decide as Hq; [|done].
  split; intros H0.
  - apply Qc_eq_this. apply Qc_eq_this in H0. rewrite this_opp in H0.
    change (this 0) with 0%Q in *. lra.
  - subst q. done.
Qed.

Lemma fabs_ratio (d a : Qc) :
  a <> 0 -> fabs (fdiv (Num d) (Num a)) = Num (Qc_abs (d / a)).
Proof.
  intros Ha. cbn [fdiv finite]. rewrite (Qc_eqb_false a 0 Ha).
  unfold Qc_eqb. case_bool_decide as Hd.
  - subst d. assert (H0 : 0 / a = 0) by (field; exact Ha). rewrite H0.
    by destruct (xorb _ _).
  - done.
Qed.

Lemma foldl_fadd_Num (x : Qc) (qs : list Qc) :
  foldl fadd (Num x) (map Num qs) = Num (x + pd.Qsum qs).
Proof.
  revert x. induction qs as [|q qs IH]; intros x; cbn [map foldl].
  - apply (f_equal Num). unfold pd.Qsum. cbn [foldr]. ring.
  - cbn [fadd]. rewrite IH. apply (f_equal Num). unfold pd.Qsum.
    cbn [foldr]. ring.
Qed.

Lemma Qsum_nonneg (qs : list Qc) : Forall (fun q => 0 <= q) qs -> 0 <= pd.Qsum qs.
Proof.
  induction 1 as [|q qs Hq _ IH]; cbn [pd.Qsum foldr]; [done|].
  fold (pd.Qsum qs). qc_lra.
Qed.

Lemma Qsum_zero (qs : list Qc) :
  Forall (fun q => 0 <= q) qs -> pd.Qsum qs = 0 -> Forall (fun q => q = 0) qs.
Proof.
  induction 1 as [|q qs Hq Hqs IH]; cbn [pd.Qsum foldr]; [done|].
  fold (pd.Qsum qs). intros Hsum. pose proof (Qsum_nonneg qs Hqs) as Hs.
  assert (q = 0) by (apply (anti_symm Qcle); qc_lra).
  assert (pd.Qsum qs = 0) by (apply (anti_symm Qcle); qc_lra).
  apply Forall_cons. split; [done | by apply IH].
Qed.

Lemma Qz_nat_pos (n : nat) : (1 <= n)%nat -> 0 < Qz (Z.of_nat n).
Proof.
  intros Hn.
  assert (Hn' : (0 < inject_Z (Z.of_nat n))%Q) by (rewrite <- (Zlt_Qlt 0); lia).
  unfold Qclt, Qz. rewrite (this_Q2Qc (inject_Z _)). exact Hn'.
Qed.

Lemma Qc_lt_ne (a : Qc) : 0 < a -> a <> 0.
Proof. intros Ha ->. by destruct (Qclt_not_eq 0 0). Qed.

Lemma np_mean_Num (qs : list Qc) :
  qs <> [] ->
  np_mean (map Num qs) = Num (pd.Qsum qs / Qz (Z.of_nat (length qs))).
Proof.
  destruct qs as [|q qs]; [done|]. intros _. cbn [map np_mean].
  rewrite foldl_fadd_Num. cbn [length]. rewrite length_map.
  unfold pd.Qsum at 2. cbn [foldr]. fold (pd.Qsum qs).
  set (n := Qz (Z.of_nat (S (length qs)))).
  assert (Hpos : 0 < n) by (apply Qz_nat_pos; lia).
  assert (Hn : n <> 0) by (by apply Qc_lt_ne).
  cbn [fdiv finite]. rewrite (Qc_eqb_false n 0 Hn).
  unfold Qc_eqb. case_bool_decide as Hs; [|done].
  rewrite Hs. assert (H0 : 0 / n = 0) by (field; exact Hn). rewrite H0.
  cbn [signbit]. rewrite (Qc_ltb_false n 0) by (by apply Qclt_le_weak). done.
Qed.

Lemma fabs_ratios (actual predicted : list Qc) :
  Forall (fun a => a <> 0) actual ->
  map fabs (zip_with fdiv (map Num (zip_with Qcminus actual predicted))
                          (map Num actual))
  = map Num (relative_errors actual predicted).
Proof.
  intros Hne. revert predicted.
  induction Hne as [|a actual Ha _ IH]; intros [|p predicted]; try done.
  cbn [zip_with map relative_errors]. rewrite fabs_ratio by done.
  f_equal. apply IH.
Qed.

Lemma relative_errors_length (actual predicted : list Qc) :
  length predicted = length actual ->
  length (relative_errors actual predicted) = length actual.
Proof. intros Hlen. unfold relative_errors. rewrite length_zip_with. lia. Qed.

Lemma relative_errors_nonneg (actual predicted : list Qc) :
  Forall (fun q => 0 <= q) (relative_errors actual predicted).
Proof.
  unfold relative_errors. apply Forall_forall. intros q Hq.
  apply list_elem_of_lookup in Hq as [i Hi].
  apply lookup_zip_with_Some in Hi as (a & p & -> & _ & _).
  apply Qc_abs_nonneg.
Qed.

Lemma relative_errors_zero (actual predicted : list Qc) :
  Forall (fun a => a <> 0) actual -> length predicted = length actual ->
  Forall (fun q => q = 0) (relative_errors actual predicted) <->
  predicted = actual.
Proof.
  intros Hne. revert predicted.
  induction Hne as [|a actual Ha _ IH]; intros [|p predicted] Hlen; try done.
  injection Hlen as Hlen. cbn [relative_errors zip_with].
  rewrite Forall_cons. fold (relative_errors actual predicted).
  rewrite (IH predicted Hlen), Qc_abs_zero. split.
  - intros [Hq ->]. f_equal.
    assert (Hm : (a - p) / a * a = 0) by (rewrite Hq; ring).
    assert (Hf : (a - p) / a * a = a - p) by (field; exact Ha).
    rewrite Hf in Hm. apply Qc_eq_this. apply Qc_eq_this in Hm.
    rewrite this_minus in Hm. change (this 0) with 0%Q in Hm. lra.
  - intros [= -> ->]. split; [|done]. field. exact Ha.
Qed.

Lemma fmul_hundred (x : Qc) : 0 <= x -> fmul (Num x) (Num (Qz 100)) = Num (x * Qz 100).
Proof.
  intros Hx. cbn [fmul finite]. unfold Qc_eqb. case_bool_decide as H0; [|done].
  rewrite H0. cbn [signbit]. rewrite (Qc_ltb_false x 0 Hx).
  by rewrite (Qc_ltb_false (Qz 100) 0).
Qed.

(** X14.  For as many finite predictions as actual values, none of the
    actual values zero and at least one of them, [calc_mape] returns 100
    times the mean of [|a - p| / |a|]; it is never negative and it is zero
    exactly when every prediction equals its actual value. *)
Theorem calc_mape_finite (actual predicted : list Qc) :
  actual <> [] -> length predicted = length actual ->
  Forall (fun a => a <> 0) actual ->
  let m := pd.Qsum (relative_errors actual predicted)
             / Qz (Z.of_nat (length actual)) * Qz 100 in
  calc_mape (map Num actual) (map Num predicted) = ret (Num m) /\
  0 <= m /\ (m = 0 <-> predicted = actual).
Proof.
  intros Hne Hlen Hnz m.
  pose proof (relative_errors_nonneg actual predicted) as Hrel.
  pose proof (Qsum_nonneg _ Hrel) as Hsum.
  assert (Hn : 0 < Qz (Z.of_nat (length actual))).
  { apply Qz_nat_pos. destruct actual; [done | cbn [length]; lia]. }
  assert (Hmean : 0 <= pd.Qsum (relative_errors actual predicted)
                       / Qz (Z.of_nat (length actual)))
    by (by apply Qc_div_nonneg).
  split; [|split].
  - unfold calc_mape, np_broadcast.
    rewrite bool_decide_eq_true_2 by (rewrite !length_map; lia).
    cbn [bind ret]. rewrite zip_with_fsub_Num.
    rewrite bool_decide_eq_true_2
      by (rewrite !length_map, length_zip_with; lia).
    cbn [bind ret]. rewrite fabs_ratios by done.
    rewrite np_mean_Num.
    + rewrite relative_errors_length by done. unfold ret. f_equal.
      by apply fmul_hundred.
    + intros Hnil. apply (f_equal length) in Hnil.
      rewrite relative_errors_length in Hnil by done.
      destruct actual; [done | discriminate Hnil].
  - unfold m. pose proof hundred_pos. 
    unfold Qcle, Qclt in *. rewrite this_mult. 
    apply Qmult_le_0_compat; [done | by apply Qlt_le_weak].
  - rewrite <- relative_errors_zero by done. split.
    + intros Hm. apply Qsum_zero; [done|].
      assert (H1 : m / Qz 100 * Qz (Z.of_nat (length actual)) = 0)
        by (rewrite Hm; field; by apply Qc_lt_ne, hundred_pos).
      rewrite <- H1. unfold m. field.
      split; [by apply Qc_lt_ne | by apply Qc_lt_ne, hundred_pos].
    + intros Hz. unfold m.
      assert (Hs : pd.Qsum (relative_errors actual predicted) = 0).
      { clear -Hz. induction Hz as [|q qs -> _ IH]; [done|].
        unfold pd.Qsum. cbn [foldr]. fold (pd.Qsum qs). rewrite IH. ring. }
      rewrite Hs. field. by apply Qc_lt_ne.
Qed.

Lemma calc_mape_finite_witness :
  let actual := [Qz 100; Qz 200] in
  let predicted := [Qz 110; Qz 180] in
  let m := pd.Qsum (relative_errors actual predicted)
             / Qz (Z.of_nat (length actual)) * Qz 100 in
  calc_mape (map Num actual) (map Num predicted) = ret (Num m) /\
  0 <= m /\ (m = 0 <-> predicted = actual).
Proof.
  apply (calc_mape_finite [Qz 100; Qz 200] [Qz 110; Qz 180]).
  - discriminate.
  - reflexivity.
  - repeat constructor; apply (bool_decide_eq_false_1 _); vm_compute; reflexivity.
Defined.

Lemma fadd_abs_value (x y : float64) :
  abs_value x -> abs_value y ->
  abs_value (fadd x y) /\ (not_finite x \/ not_finite y -> not_finite (fadd x y)).
Proof.
  unfold not_finite.
  destruct x as [a| |[]|], y as [b| |[]|]; cbn [abs_value fadd Bool.eqb];
    try done; intros Ha Hb.
  - split; [qc_lra | intros [[?|?]|[?|?]]; done].
  - split; [done | auto].
  - split; [done | auto].
  - split; [done | auto].
  - split; [done | auto].
  - split; [done | auto].
  - split; [done | auto].
  - split; [done | auto].
  - split; [done | auto].
Qed.

Lemma foldl_fadd_abs_value (acc : float64) (xs : list float64) :
  abs_value acc -> Forall abs_value xs ->
  abs_value (foldl fadd acc xs) /\
  (not_finite acc \/ Exists not_finite xs -> not_finite (foldl fadd acc xs)).
Proof.
  intros Hacc Hxs. revert acc Hacc.
  induction Hxs as [|x xs Hx _ IH]; intros acc Hacc; cbn [foldl].
  - split; [done|]. intros [?|?%Exists_nil]; done.
  - destruct (fadd_abs_value acc x Hacc Hx) as [Hv Hnf].
    destruct (IH _ Hv) as [IH1 IH2]. split; [done|].
    intros [Hn|[Hn|Hn]%Exists_cons]; apply IH2; auto.
Qed.

Lemma fabs_fdiv_abs_value (d a : Qc) :
  abs_value (fabs (fdiv (Num d) (Num a))) /\
  (a = 0 -> not_finite (fabs (fdiv (Num d) (Num a)))).
Proof.
  destruct (decide (a = 0)) as [->|Ha].
  - cbn [fdiv finite]. rewrite Qc_eqb_true. unfold not_finite.
    destruct (Qc_eqb d 0); cbn [fabs abs_value]; auto.
  - rewrite fabs_ratio by done. cbn [abs_value].
    split; [apply Qc_abs_nonneg | done].
Qed.

Lemma ratios_abs_value (actual predicted : list Qc) :
  let ratios := map fabs (zip_with fdiv
                  (map Num (zip_with Qcminus actual predicted))
                  (map Num actual)) in
  length predicted = length actual ->
  Forall abs_value ratios /\ (0 ∈ actual -> Exists not_finite ratios).
Proof.
  intros ratios. unfold ratios. clear ratios. revert predicted.
  induction actual as [|a actual IH]; intros [|p predicted] Hlen; try done.
  - split; [constructor | by intros ?%elem_of_nil].
  - injection Hlen as Hlen. cbn [zip_with map].
    destruct (IH predicted Hlen) as [IH1 IH2].
    destruct (fabs_fdiv_abs_value (a - p) a) as [H1 H2]. split.
    + by apply Forall_cons.
    + intros [Ha|Hin]%elem_of_cons.
      * apply Exists_cons. left. by apply H2.
      * apply Exists_cons. right. by apply IH2.
Qed.

(** X15.  [calc_mape] raises nothing on finite arrays of equal length, but
    with an actual value of zero, or with no values at all, what it returns
    is infinite or NaN. *)
Theorem calc_mape_not_finite (actual predicted : list Qc) :
  length predicted = length actual ->
  actual = [] \/ 0 ∈ actual ->
  exists r, calc_mape (map Num actual) (map Num predicted) = ret r /\
            not_finite r.
Proof.
  intros Hlen Hcase. unfold calc_mape, np_broadcast.
  rewrite bool_decide_eq_true_2 by (rewrite !length_map; lia).
  cbn [bind ret]. rewrite zip_with_fsub_Num.
  rewrite bool_decide_eq_true_2 by (rewrite !length_map, length_zip_with; lia).
  cbn [bind ret]. eexists. split; [reflexivity|].
  destruct Hcase as [->|Hzero].
  { destruct predicted; [|done]. right. done. }
  destruct (ratios_abs_value actual predicted Hlen) as [Hall Hex].
  specialize (Hex Hzero).
  destruct (map fabs _) as [|x xs] eqn:Hratios; [by apply Exists_nil in Hex|].
  apply Forall_cons in Hall as [Hx Hxs]. cbn [np_mean].
  destruct (foldl_fadd_abs_value x xs Hx Hxs) as [_ Hnf].
  assert (Hsum : not_finite (foldl fadd x xs)).
  { apply Hnf. apply Exists_cons in Hex. tauto. }
  set (n := Qz (Z.of_nat (length (x :: xs)))).
  assert (Hn : 0 < n) by (apply Qz_nat_pos; cbn [length]; lia).
  destruct Hsum as [-> | ->].
  - cbn [fdiv signbit]. rewrite (Qc_ltb_false n 0) by (by apply Qclt_le_weak).
    left. cbn [xorb fmul is_zero signbit].
    destruct hundred_tests as [-> ->]. done.
  - right. done.
Qed.

Lemma calc_mape_not_finite_witness :
  exists r, calc_mape (map Num [Qz 4; 0]) (map Num [Qz 5; Qz 1]) = ret r /\
            not_finite r.
Proof.
  apply (calc_mape_not_finite [Qz 4; 0] [Qz 5; Qz 1]).
  - reflexivity.
  - right. apply elem_of_cons. right. apply elem_of_cons. by left.
Defined.

(** *** Plot labels *)

Lemma string_app_nil_r (s : string) : s +:+ EmptyString = s.
Proof.
  induction s as [|c s IH]; [done|].
  change (String c (s +:+ EmptyString) = String c s). by rewrite IH.
Qed.

Lemma string_app_assoc (a b c : string) : a +:+ (b +:+ c) = (a +:+ b) +:+ c.
Proof.
  induction a as [|x a IH]; [done|].
  change (String x (a +:+ (b +:+ c)) = String x ((a +:+ b) +:+ c)).
  by rewrite IH.
Qed.

Lemma x_label_loop_join (len j : nat) (s : list string) (str : string) :
  "Close" ∉ s -> (j + length s + 1 = len)%nat ->
  x_label_loop len j (s ++ ["Close"]) str
  = str +:+ String.concat label_separator s.
Proof.
  revert j str. induction s as [|x s IH]; intros j str Hs Hlen.
  - cbn [app x_label_loop String.concat].
    rewrite bool_decide_eq_false_2 by (intros H; by apply H).
    cbn [x_label_loop]. by rewrite string_app_nil_r.
  - apply not_elem_of_cons in Hs as [Hx Hs]. cbn [app x_label_loop length] in *.
    rewrite bool_decide_eq_true_2 by done.
    rewrite IH by (done || lia). destruct s as [|y s].
    + rewrite bool_decide_eq_false_2 by (cbn [length] in Hlen; lia).
      cbn [String.concat]. by rewrite string_app_nil_r.
    + rewrite bool_decide_eq_true_2 by (cbn [length] in Hlen; lia).
      cbn [String.concat]. by rewrite !string_app_assoc.
Qed.

(** X16.  When no feature column is named "Close", the label of every
    feature combination is its feature names, without the target, joined by
    [" + \n"]. *)
Theorem x_labels_join (cols : list string) (i : nat) (c : list string) :
  "Close" ∉ take (length cols - 1) cols ->
  feature_combinations cols !! i = Some c ->
  exists s, c = s ++ ["Close"] /\
    x_labels (feature_combinations cols) !! i
      = Some (String.concat label_separator s).
Proof.
  intros Hclose Hc. pose proof (list_elem_of_lookup_2 _ _ _ Hc) as Hin.
  rewrite feature_combinations_rows, elem_of_concat in Hin.
  destruct Hin as (row & Hrow & Hin). apply elem_of_map in Hrow as (r & -> & _).
  apply elem_of_combination_row in Hin as (s & -> & _ & Hsub & _).
  exists s. split; [done|]. unfold x_labels. rewrite lookup_map, Hc.
  cbn [fmap option_fmap option_map]. f_equal. unfold x_label.
  rewrite x_label_loop_join; [done | | rewrite length_app; cbn [length]; lia].
  intros Hs. apply Hclose. by apply (elem_of_sublist _ _ _ Hs).
Qed.

Lemma x_labels_join_witness :
  exists s, ["Open"; "RSI"; "Close"] = s ++ ["Close"] /\
    x_labels (feature_combinations ["Open"; "RSI"; "Close"]) !! 2%nat
      = Some (String.concat label_separator s).
Proof.
  apply (x_labels_join ["Open"; "RSI"; "Close"] 2 ["Open"; "RSI"; "Close"]).
  - apply (bool_decide_eq_true_1 _). vm_compute. reflexivity.
  - reflexivity.
Defined.

(** *** The checking cell in a namespace that binds [kpss] *)

Lemma check_columns_bound globals kpss (t : string) (cols : pd.DataFrame) :
  globals !! "kpss" = Some (PyKpss kpss) ->
  Forall (fun nc : string * pd.Series => exists v, kpss nc.2 = ret v) cols ->
  check_columns globals (Some t) cols
  = ret (map (not_stationary_line t) (filter (fun nc => reported kpss nc) cols)).
Proof.
  intros Hk Hcols. induction Hcols as [|[name data] cols [v Hv] _ IH]; [done|].
  cbn [check_columns]. unfold test_stationary. rewrite Hk. cbv beta iota.
  cbn [snd] in Hv. rewrite Hv. destruct v as [[[stat p] lags] crit].
  assert (Hrep : reported kpss (name, data)
                 = bool_decide (crit = []) || Qc_ltb p default_significance).
  { unfold reported. cbn [snd]. by rewrite Hv. }
  rewrite IH, filter_cons.
  destruct crit as [|k crit]; cbn [bind ret].
  - rewrite decide_True by (by rewrite Hrep).
    rewrite bool_decide_eq_false_2 by done. reflexivity.
  - rewrite bool_decide_eq_false_2, orb_false_l in Hrep by done.
    destruct (Qc_ltb p default_significance) eqn:Hp; cbn [bind ret].
    + rewrite decide_True by (rewrite Hrep; exact I).
      rewrite bool_decide_eq_false_2 by done. reflexivity.
    + rewrite decide_False by (rewrite Hrep; intros []).
      rewrite bool_decide_eq_true_2 by done. reflexivity.
Qed.

(** X17.  In a namespace that binds [kpss] to a routine that answers on
    every column, and with a ticker for every frame, the checking cell
    prints, frame by frame and column by column, one line for each column
    whose p-value is below 0.05 or whose table of critical values is empty,
    where [test_stationary] returns [None], and nothing else. *)
Theorem stationarity_check_reports globals kpss (tickers : list string)
    (frames : list pd.DataFrame) :
  globals !! "kpss" = Some (PyKpss kpss) ->
  Forall (Forall (fun nc : string * pd.Series => exists v, kpss nc.2 = ret v))
         frames ->
  (length frames <= length tickers)%nat ->
  stationarity_check globals tickers frames 0
  = ret (concat (zip_with
                   (fun t df => map (not_stationary_line t)
                                    (filter (fun nc => reported kpss nc) df))
                   tickers frames)).
Proof.
  intros Hk Hframes Hlen.
  enough (Hgen : forall i, (i + length frames <= length tickers)%nat ->
            stationarity_check globals tickers frames i
            = ret (concat (zip_with
                     (fun t df => map (not_stationary_line t)
                                      (filter (fun nc => reported kpss nc) df))
                     (drop i tickers) frames)))
    by (by apply (Hgen 0%nat)).
  clear Hlen. induction Hframes as [|df frames Hdf _ IH]; intros i Hi.
  - by destruct (drop i tickers).
  - cbn [length] in Hi. cbn [stationarity_check].
    destruct (lookup_lt_is_Some_2 tickers i) as [t Ht]; [lia|].
    rewrite Ht, (check_columns_bound globals kpss t df Hk Hdf).
    rewrite (IH (S i)) by lia. rewrite (drop_S _ _ _ Ht). done.
Qed.

Lemma stationarity_check_reports_witness :
  let kpss := fun data : pd.Series =>
    ret (0, (if bool_decide (length data < 2)%nat then Q2Qc (1 # 100)
             else Q2Qc (1 # 10)), 1%nat, [("5%", Q2Qc (463 # 1000))]) in
  let frames := [[("Open", [Num 1]); ("Close", [Num 1; Num 2])]] in
  stationarity_check (<["kpss" := PyKpss kpss]> notebook_globals) ["AAPL"] frames 0
  = ret (concat (zip_with
                   (fun t df => map (not_stationary_line t)
                                    (filter (fun nc => reported kpss nc) df))
                   ["AAPL"] frames)).
Proof.
  intros kpss frames.
  apply (stationarity_check_reports _ kpss ["AAPL"] frames).
  - apply lookup_insert_eq.
  - repeat constructor; eexists; reflexivity.
  - reflexivity.
Defined.

(** *** From a stationary frame to the windows of one model *)

Lemma mapM_lookup_seq_Some {B} (y dy : list B) (a n : nat) :
  mapM (fun i => y !! i) (seq a n) = Some dy ->
  dy = take n (drop a y) /\ length dy = n.
Proof.
  intros Hm. apply mapM_Some in Hm.
  assert (Hlen : length dy = n).
  { apply Forall2_length in Hm. by rewrite length_seq in Hm. }
  split; [|done]. apply list_eq. intros k.
  destruct (decide (k < n)%nat) as [Hk|Hk].
  - destruct (Forall2_lookup_l _ _ _ k (a + k)%nat Hm) as (b & Hb & Hy).
    { by rewrite lookup_seq_lt. }
    by rewrite Hb, lookup_take_lt, lookup_drop.
  - rewrite lookup_ge_None_2 by lia. symmetry. apply lookup_ge_None_2.
    rewrite length_take. lia.
Qed.

Lemma format_dataset_Some {A B} (x : list A) (y : list B) (L : nat)
    (dataX : list (list A)) (dataY : list B) :
  format_dataset x y L = Some (dataX, dataY) ->
  dataX = map (fun i => py_slice (i - L) i x) (seq L (length x - L)) /\
  dataY = take (length x - L) (drop L y) /\
  length dataX = (length x - L)%nat /\ length dataY = (length x - L)%nat /\
  Forall (fun w => length w = L /\ forall r, r ∈ w -> r ∈ x) dataX.
Proof.
  unfold format_dataset. intros H.
  apply bind_Some in H as (dy & Hdy & [= <- <-]).
  apply mapM_lookup_seq_Some in Hdy as [-> Hlen].
  split; [done|]. split; [done|]. rewrite length_map, length_seq.
  split; [done|]. split; [done|].
  apply Forall_forall. intros w Hw. apply elem_of_map in Hw as (i & -> & Hi).
  apply elem_of_seq in Hi. split.
  - apply py_slice_window. lia.
  - intros r Hr. unfold py_slice in Hr.
    apply elem_of_take in Hr as (j & Hj & _).
    rewrite lookup_drop in Hj. by apply list_elem_of_lookup_2 in Hj.
Qed.

Lemma to_numpy_length (df : pd.DataFrame) (M : sklearn.matrix) :
  to_numpy df = Some M -> length M = pd.nrows df.
Proof.
  unfold to_numpy. intros HM. apply length_mapM in HM.
  by rewrite length_seq in HM.
Qed.

Lemma to_numpy_single (name : string) (c : pd.Series) (T : sklearn.matrix) :
  to_numpy [(name, c)] = Some T ->
  exists qs, mapM finite c = Some qs /\ T = column qs.
Proof.
  unfold to_numpy. cbn [pd.nrows]. intros HT. apply mapM_Some in HT.
  assert (Hrow : forall i x, c !! i = Some x ->
            exists q, finite x = Some q /\ T !! i = Some [q]).
  { intros i x Hx.
    destruct (Forall2_lookup_l _ _ _ i i HT) as (row & Hrow & Hm).
    { rewrite lookup_seq_lt; [done | by apply lookup_lt_Some in Hx]. }
    cbn [mapM snd] in Hm. rewrite Hx in Hm. cbn [mbind option_bind] in Hm.
    destruct (finite x) as [q|]; [|done]. cbn in Hm. injection Hm as <-.
    by exists q. }
  destruct (mapM finite c) as [qs|] eqn:Hqs.
  - exists qs. split; [done|]. apply mapM_Some in Hqs.
    apply list_eq. intros i. rewrite lookup_column.
    destruct (c !! i) as [x|] eqn:Hx.
    + destruct (Hrow i x Hx) as (q & Hq & ->).
      destruct (Forall2_lookup_l _ _ _ i x Hqs Hx) as (q' & -> & Hq').
      cbn [fmap option_fmap option_map]. congruence.
    + apply lookup_ge_None in Hx.
      rewrite (lookup_ge_None_2 qs)
        by (apply Forall2_length in Hqs; lia).
      apply lookup_ge_None_2. apply Forall2_length in HT.
      rewrite length_seq in HT. lia.
  - exfalso. apply mapM_None in Hqs. apply Exists_exists in Hqs
      as (x & Hin & Hx). apply list_elem_of_lookup in Hin as [i Hi].
    destruct (Hrow i x Hi) as (q & Hq & _). congruence.
Qed.

Lemma filter_none {A} (P : A -> Prop) `{forall x, Decision (P x)} (l : list A) :
  Forall (fun x => ~ P x) l -> filter P l = [].
Proof.
  induction 1 as [|x l Hx _ IH]; [done|]. by rewrite filter_cons_False, IH.
Qed.

Lemma select_app_close (df : pd.DataFrame) (s : list string)
    (sel : pd.DataFrame) :
  "Close" ∉ s -> pd.select df (s ++ ["Close"]) = Some sel ->
  exists feats close,
    sel = feats ++ [("Close", close)] /\ pd.columns feats = s /\
    pd.getitem df "Close" = Some close /\
    (forall n c, (n, c) ∈ feats -> (n, c) ∈ df) /\
    filter (fun nc => negb (is_close nc)) sel = feats /\
    filter (fun nc => is_close nc) sel = [("Close", close)].
Proof.
  intros Hs Hsel. unfold pd.select in Hsel. apply mapM_Some in Hsel.
  apply Forall2_app_inv_l in Hsel as (feats & tl & Hfeats & Htl & ->).
  apply Forall2_cons_inv_l in Htl as ([n close] & tl' & Hc & Hnil & ->).
  apply Forall2_nil_inv_l in Hnil as ->.
  apply bind_Some in Hc as (c1 & Hclose & [= <- <-]).
  assert (Hcols : pd.columns feats = s /\
                  forall n c, (n, c) ∈ feats -> (n, c) ∈ df).
  { clear Hs. induction Hfeats as [|n [n' c'] s feats Hn _ IH].
    - split; [done|]. by intros n c ?%elem_of_nil.
    - apply bind_Some in Hn as (c0 & Hc0 & [= <- <-]).
      destruct IH as [IH1 IH2]. split.
      + cbn [pd.columns map fst]. f_equal. exact IH1.
      + intros n0 c0' [[= -> ->]|Hin]%elem_of_cons; [|by apply IH2].
        by apply getitem_Some_elem. }
  destruct Hcols as [Hcols Hin].
  assert (Hnot : Forall (fun nc : string * pd.Series => nc.1 <> "Close") feats).
  { apply Forall_forall. intros [n c'] Hnc Heq. cbn [fst] in Heq. subst n.
    apply Hs. rewrite <- Hcols. apply elem_of_map. by exists ("Close", c'). }
  exists feats, c1. repeat split; try done.
  - rewrite filter_app, filter_all.
    + rewrite filter_cons_False, filter_nil, app_nil_r; [done|].
      unfold is_close. cbn [fst]. rewrite bool_decide_eq_true_2 by done.
      intros [].
    + eapply Forall_impl; [exact Hnot|]. intros [n c'] Hn. unfold is_close.
      cbn [fst] in *. by rewrite bool_decide_eq_false_2.
  - rewrite filter_app, filter_none.
    + rewrite filter_cons_True; [done|]. unfold is_close. cbn [fst].
      by rewrite bool_decide_eq_true_2.
    + eapply Forall_impl; [exact Hnot|]. intros [n c'] Hn. unfold is_close.
      cbn [fst] in *. rewrite bool_decide_eq_false_2 by done. intros [].
Qed.

Lemma transform_length sc X : length (sklearn.transform sc X) = length X.
Proof. unfold sklearn.transform. apply length_map. Qed.

Lemma transform_rectangular (X X' : sklearn.matrix) (sc : sklearn.MinMaxScaler)
    (m : nat) :
  sklearn.fit X = Some sc -> rectangular m X -> rectangular m X' ->
  rectangular m (sklearn.transform sc X').
Proof.
  intros Hfit Hrect Hrect'.
  destruct (fit_lengths X sc m Hfit Hrect) as [Hls Hlm].
  unfold rectangular, sklearn.transform in *. rewrite Forall_map.
  eapply Forall_impl; [exact Hrect'|]. intros row Hrow. cbn beta.
  cbn beta in Hrow. rewrite !length_zip_with. lia.
Qed.

Lemma nrows_frame_rows (df : pd.DataFrame) (N : nat) :
  df <> [] -> frame_rows N df -> pd.nrows df = N.
Proof.
  destruct df as [|[n c] df]; [done|]. intros _ Hrows.
  by apply Forall_cons in Hrows as [Hc _].
Qed.

Lemma column_drop (k : nat) (qs : list Qc) : drop k (column qs) = column (drop k qs).
Proof. unfold column. change (map ?f ?l) with (f <$> l). by rewrite fmap_drop. Qed.

Lemma column_take (k : nat) (qs : list Qc) : take k (column qs) = column (take k qs).
Proof. unfold column. change (map ?f ?l) with (f <$> l). by rewrite fmap_take. Qed.

Lemma rectangular_column (qs : list Qc) : rectangular 1 (column qs).
Proof. unfold rectangular, column. rewrite Forall_map. by apply Forall_true. Qed.

(** What [prepare] returns for a combination of feature names and the
    target. *)
Lemma prepare_Some (stationary : pd.DataFrame) (s : list string) (N : nat)
    (p : prepared) :
  frame_rows N stationary -> "Close" ∉ s ->
  prepare stationary (s ++ ["Close"]) = Some p ->
  let n := n_train_of default_train_size N in
  exists closes : list Qc,
    pd.getitem stationary "Close" ≫= mapM finite = Some closes /\
    length closes = N /\ s <> [] /\ (1 <= n)%nat /\ (n < N)%nat /\
    y_test p
      = drop (n + default_lookback)
          (sklearn.transform (target_scaler p) (column closes)) /\
    y_train p
      = drop default_lookback
          (take n (sklearn.transform (target_scaler p) (column closes))) /\
    length (x_train p) = (n - default_lookback)%nat /\
    length (x_test p) = (N - n - default_lookback)%nat /\
    Forall (fun w => length w = default_lookback /\
                     Forall (fun row => length row = length s) w)
           (x_train p ++ x_test p) /\
    sklearn.fit (column closes) = Some (target_scaler p) /\
    length (y_test p) = (N - n - default_lookback)%nat.
Proof.
  intros Hrows Hs Hprep n. unfold prepare in Hprep.
  apply bind_Some in Hprep as (df & Hsel & Hprep).
  apply bind_Some in Hprep as ([[[sf st] fs] ts] & Hscale & Hprep).
  apply bind_Some in Hprep as ([[[xtr xte] ytr] yte] & Hsplit & Hprep).
  apply bind_Some in Hprep as ([dXtr dYtr] & Hf1 & Hprep).
  apply bind_Some in Hprep as ([dXte dYte] & Hf2 & [= <-]).
  cbn [x_train y_train x_test y_test target_scaler].
  destruct (select_app_close _ _ _ Hs Hsel)
    as (feats & close & -> & Hcols & Hclose & Hin & Hff & Hfc).
  unfold scale_values_frame in Hscale. rewrite Hff, Hfc in Hscale.
  apply bind_Some in Hscale as (F & HF & Hscale).
  apply bind_Some in Hscale as (fs' & Hfs & Hscale).
  apply bind_Some in Hscale as (T & HT & Hscale).
  apply bind_Some in Hscale as (ts' & Hts & [= <- <- <- <-]).
  destruct (to_numpy_single _ _ _ HT) as (closes & Hcloses & ->).
  unfold frame_rows in Hrows. rewrite Forall_forall in Hrows.
  assert (HlenC : length closes = N).
  { apply length_mapM in Hcloses. rewrite <- Hcloses.
    apply getitem_Some_elem in Hclose. by apply (Hrows _ Hclose). }
  assert (Hfeats : feats <> []).
  { intros ->. cbv in HF. injection HF as <-. discriminate Hfs. }
  assert (HlenF : length F = N).
  { rewrite (to_numpy_length _ _ HF). apply nrows_frame_rows; [done|].
    apply Forall_forall. intros [n0 c0] Hnc. apply Hrows. by apply Hin. }
  assert (HrF : rectangular (length s) F).
  { rewrite <- Hcols. unfold pd.columns. rewrite length_map.
    by apply to_numpy_rectangular. }
  pose proof (rectangular_column closes) as HrT.
  assert (Hlsf : length (sklearn.transform fs' F) = N)
    by (by rewrite transform_length).
  assert (Hlst : length (sklearn.transform ts' (column closes)) = N)
    by (rewrite transform_length; unfold column; by rewrite length_map).
  destruct (train_test_split_Some _ _ _ _ _ _ _ Hsplit)
    as (Hxtr & Hxte & Hytr & Hyte & _ & Hn1 & Hn2).
  rewrite Hlsf in Hxtr, Hxte, Hytr, Hyte, Hn1, Hn2.
  fold n in Hxtr, Hxte, Hytr, Hyte, Hn1, Hn2. subst xtr xte ytr yte.
  destruct (format_dataset_Some _ _ _ _ _ Hf1) as (_ & -> & Hl1 & _ & Hw1).
  destruct (format_dataset_Some _ _ _ _ _ Hf2) as (_ & -> & Hl2 & _ & Hw2).
  rewrite length_take, Hlsf in Hl1 |- *.
  rewrite length_drop, Hlsf in Hl2 |- *.
  exists closes. rewrite Hclose. cbn [mbind option_bind].
  split; [done|]. split; [done|]. split.
  { intros ->. apply Hfeats. by destruct feats. }
  split; [done|]. split; [done|].
  split; [|split; [|split; [|split; [|split; [|split]]]]]; [| | | | |done|].
  - by rewrite drop_drop, take_ge by (rewrite length_drop, Hlst; lia).
  - by rewrite take_ge by (rewrite length_drop, length_take, Hlst; lia).
  - rewrite Hl1. lia.
  - rewrite Hl2. lia.
  - assert (Hsf : rectangular (length s) (sklearn.transform fs' F))
      by (by apply (transform_rectangular F F fs')).
    unfold rectangular in Hsf. rewrite Forall_forall in Hsf.
    apply Forall_app. split.
    + eapply Forall_impl; [exact Hw1|]. intros w [Hlw Hw]. split; [done|].
      apply Forall_forall. intros r Hr. apply Hsf.
      apply Hw in Hr. by apply elem_of_take in Hr as (i & ?%list_elem_of_lookup_2 & _).
    + eapply Forall_impl; [exact Hw2|]. intros w [Hlw Hw]. split; [done|].
      apply Forall_forall. intros r Hr. apply Hsf.
      apply Hw in Hr. apply list_elem_of_lookup in Hr as [i Hi].
      rewrite lookup_drop in Hi. by apply list_elem_of_lookup_2 in Hi.
  - rewrite length_take, !length_drop, Hlst. lia.
Qed.

(** X18.  For a stationary frame with [N] rows in every column and a
    combination of feature names followed by the target, the cells from
    [scale_values] to the windowing succeed only for at least one feature
    and two rows.  With [n = floor(0.8 N)]: the target scaler is the one
    fitted on the whole Close column, there are [n - 10] training and
    [N - n - 10] test windows, of ten rows with one value per feature each,
    and the training and the test targets are the rows [10 .. n - 1] and the
    rows from [n + 10] on of the scaled Close column. *)
Theorem prepare_windows (stationary : pd.DataFrame) (s : list string) (N : nat)
    (p : prepared) :
  frame_rows N stationary -> "Close" ∉ s ->
  prepare stationary (s ++ ["Close"]) = Some p ->
  let n := n_train_of default_train_size N in
  exists closes : list Qc,
    pd.getitem stationary "Close" ≫= mapM finite = Some closes /\
    length closes = N /\ s <> [] /\ (2 <= N)%nat /\
    sklearn.fit (column closes) = Some (target_scaler p) /\
    y_train p
      = drop default_lookback
          (take n (sklearn.transform (target_scaler p) (column closes))) /\
    y_test p
      = drop (n + default_lookback)
          (sklearn.transform (target_scaler p) (column closes)) /\
    length (x_train p) = (n - default_lookback)%nat /\
    length (x_test p) = (N - n - default_lookback)%nat /\
    Forall (fun w => length w = default_lookback /\
                     Forall (fun row => length row = length s) w)
           (x_train p ++ x_test p).
Proof.
  intros Hrows Hs Hprep n.
  destruct (prepare_Some stationary s N p Hrows Hs Hprep)
    as (closes & H1 & H2 & H3 & H4 & H5 & H6 & H7 & H8 & H9 & H10 & H11 & _).
  exists closes. fold n in H4, H5, H6, H7, H8, H9.
  repeat (split; [done || lia|]). done.
Qed.

Lemma prepare_windows_witness :
  let cols := [("Open", example_open_prices); ("Close", example_close_prices)] in
  exists p closes,
    prepare (frame_of (differenced cols)) (["Open"] ++ ["Close"]) = Some p /\
    pd.getitem (frame_of (differenced cols)) "Close" ≫= mapM finite
      = Some closes /\
    length closes = 89%nat /\
    length (x_train p) = 61%nat /\ length (x_test p) = 8%nat /\
    length (y_train p) = 61%nat /\ length (y_test p) = 8%nat.
Proof.
  intros cols.
  destruct (prepare (frame_of (differenced cols)) (["Open"] ++ ["Close"]))
    as [p|] eqn:Hp; [|vm_compute in Hp; discriminate].
  assert (Hrows : frame_rows 89 (frame_of (differenced cols)))
    by (repeat constructor).
  assert (Hs : "Close" ∉ ["Open"]).
  { apply (bool_decide_eq_true_1 _). reflexivity. }
  destruct (prepare_windows _ ["Open"] 89 p Hrows Hs Hp)
    as (closes & H1 & H2 & _ & _ & _ & H6 & H7 & H8 & H9 & _).
  exists p, closes. split; [done|]. split; [done|]. split; [done|].
  split; [rewrite H8; vm_compute; reflexivity|].
  split; [rewrite H9; vm_compute; reflexivity|].
  assert (Hl : length (sklearn.transform (target_scaler p) (column closes))
               = 89%nat).
  { rewrite transform_length. unfold column. by rewrite length_map. }
  split.
  - rewrite H6, length_drop, length_take, Hl. vm_compute. reflexivity.
  - rewrite H7, length_drop, Hl. vm_compute. reflexivity.
Defined.

(** *** The reconstruction of prices, for every finite frame *)

Lemma map_Num_inj (xs ys : list Qc) : map Num xs = map Num ys -> xs = ys.
Proof.
  revert ys. induction xs as [|x xs IH]; intros [|y ys]; try done.
  cbn [map]. intros [= -> Hxs]. f_equal. by apply IH.
Qed.

Lemma getitem_frame_of (cols : list (string * list Qc)) (name : string)
    (cs : list Qc) :
  pd.getitem (frame_of cols) name = Some (map Num cs) ->
  (name, cs) ∈ cols /\
  pd.getitem (frame_of (differenced cols)) name
    = Some (map Num (first_differences cs)).
Proof.
  induction cols as [|[n qs] cols IH]; [done|].
  cbn [frame_of differenced map pd.getitem fst snd].
  destruct (decide (n = name)) as [->|Hn].
  - intros [= ->%map_Num_inj]. split; [apply elem_of_cons; by left | done].
  - intros H. destruct (IH H) as [Hin Hd]. split; [|done].
    apply elem_of_cons. by right.
Qed.

Lemma inverse_transform_column (qs : list Qc) (ts : sklearn.MinMaxScaler) :
  sklearn.fit (column qs) = Some ts ->
  exists f : Qc -> Qc,
    forall ps, ps <> [] ->
      sklearn.inverse_transform ts (column ps) = Some (column (map f ps)).
Proof.
  intros Hfit.
  destruct (fit_lengths _ _ 1 Hfit (rectangular_column qs)) as [Hs Hm].
  destruct (sklearn.scale_ ts) as [|sc [|]] eqn:Hsc; try done.
  destruct (sklearn.min_ ts) as [|mn [|]] eqn:Hmn; try done.
  exists (fun v => (v - mn) / sc). intros [|p0 ps] Hps; [done|].
  unfold sklearn.inverse_transform, column. cbn [map]. rewrite Hsc, Hmn, !map_map.
  done.
Qed.

(** X19.  For every frame of finite numbers with equally long columns, taken
    as the non-stationary copy, every feature combination and every array
    of one prediction per test window: the evaluation succeeds, and the
    price it reconstructs for test row [k] is the Close of row
    [len - P + k] plus the difference between that row and the row before
    it, where adding the difference to the row before would give the Close
    itself. *)
Theorem reconstruction_adds_own_difference (cols : list (string * list Qc))
    (M : nat) (cs : list Qc) (s : list string) (p : prepared) (ps : list Qc) :
  cols <> [] -> Forall (fun nc => length nc.2 = M) cols ->
  pd.getitem (frame_of cols) "Close" = Some (map Num cs) ->
  "Close" ∉ s ->
  prepare (make_stationary_frame (frame_of cols)) (s ++ ["Close"]) = Some p ->
  ps <> [] -> length ps = length (y_test p) ->
  exists ev,
    evaluate (map Num cs) (target_scaler p) (y_test p) (column ps) = ret ev /\
    length (y_test_rescaled_inversed_difference ev) = length ps /\
    forall k c_prev c_t,
      (k < length ps)%nat ->
      cs !! (M - length ps + k - 1)%nat = Some c_prev ->
      cs !! (M - length ps + k)%nat = Some c_t ->
      y_test_rescaled_inversed_difference ev !! k
        = Some [Num (c_t + (c_t - c_prev))].
Proof.
  intros Hne Hlen Hclose Hs Hprep Hps Hlps.
  rewrite (make_stationary_frame_Num cols M Hne Hlen) in Hprep.
  destruct (getitem_frame_of cols "Close" cs Hclose) as [Hin Hdiff].
  assert (HM : length cs = M).
  { rewrite Forall_forall in Hlen. by apply (Hlen _ Hin). }
  assert (Hrows : frame_rows (M - 1) (frame_of (differenced cols))).
  { unfold frame_rows, frame_of. rewrite Forall_map.
    eapply Forall_impl; [apply (differenced_lengths cols M Hlen)|].
    intros [n qs] Hq. cbn [snd] in *. by rewrite length_map. }
  destruct (prepare_Some _ s (M - 1) p Hrows Hs Hprep)
    as (closes & Hc & HlenC & _ & Hn1 & Hn2 & Hy & _ & _ & _ & _ & Hfit & Hly).
  rewrite Hdiff in Hc. cbn [mbind option_bind] in Hc.
  rewrite mapM_finite_Num in Hc. injection Hc as <-.
  set (n := n_train_of default_train_size (M - 1)) in *.
  destruct (inverse_transform_column _ _ Hfit) as (f & Hf).
  assert (HP : length ps = (M - 1 - n - default_lookback)%nat) by congruence.
  assert (HP1 : (1 <= length ps)%nat) by (destruct ps; [done | cbn [length]; lia]).
  unfold evaluate. rewrite Hy, transform_drop.
  rewrite (inverse_transform_transform (column (first_differences cs)) _
             (target_scaler p) 1 Hfit (rectangular_column _)); cycle 1.
  { by apply Forall_drop, rectangular_column. }
  { intros Hnil. apply (f_equal length) in Hnil.
    rewrite length_drop in Hnil. unfold column in Hnil.
    rewrite length_map, length_first_differences in Hnil.
    cbn [length] in Hnil. lia. }
  rewrite column_drop, (Hf ps Hps).
  rewrite evaluate_rescaled_value.
  2: { by destruct ps. }
  2: { rewrite length_drop, length_map, length_first_differences. lia. }
  2: { rewrite !length_map. lia. }
  eexists. split; [reflexivity|].
  cbn [y_test_rescaled_inversed_difference]. rewrite !length_map.
  unfold onto_levels. split.
  - rewrite length_zip_with, !length_drop, length_map,
      length_first_differences. lia.
  - intros k c_prev c_t Hk Hprev Ht.
    rewrite lookup_zip_with, !lookup_drop, lookup_map.
    replace (length cs - length ps + k)%nat with (M - length ps + k)%nat by lia.
    rewrite Ht. cbn [fmap option_fmap option_map mbind option_bind].
    rewrite (lookup_first_differences cs (n + default_lookback + k) c_prev c_t).
    + done.
    + rewrite <- Hprev. f_equal. lia.
    + rewrite <- Ht. f_equal. lia.
Qed.

Lemma reconstruction_adds_own_difference_witness :
  let cols := [("Open", example_open_prices); ("Close", example_close_prices)] in
  exists p ev,
    prepare (make_stationary_frame (frame_of cols)) (["Open"] ++ ["Close"])
      = Some p /\
    evaluate (map Num example_close_prices) (target_scaler p) (y_test p)
      (column (replicate 8 0)) = ret ev /\
    length (y_test_rescaled_inversed_difference ev) = 8%nat.
Proof.
  intros cols.
  destruct (prepare (make_stationary_frame (frame_of cols))
              (["Open"] ++ ["Close"])) as [p|] eqn:Hp;
    [|vm_compute in Hp; discriminate].
  assert (Hne : cols <> []) by discriminate.
  assert (Hlen : Forall (fun nc : string * list Qc => length nc.2 = 90%nat) cols)
    by (repeat constructor).
  assert (Hs : "Close" ∉ ["Open"]).
  { apply (bool_decide_eq_true_1 _). reflexivity. }
  assert (Hly : length (y_test p) = 8%nat).
  { pose proof Hp as Hp'.
    rewrite (make_stationary_frame_Num cols 90 Hne Hlen) in Hp'.
    assert (Hrows : frame_rows 89 (frame_of (differenced cols)))
      by (repeat constructor).
    destruct (prepare_Some _ ["Open"] 89 p Hrows Hs Hp')
      as (closes & _ & _ & _ & _ & _ & _ & _ & _ & _ & _ & _ & Hly).
    rewrite Hly. vm_compute. reflexivity. }
  destruct (reconstruction_adds_own_difference cols 90 example_close_prices
              ["Open"] p (replicate 8 0) Hne Hlen eq_refl Hs Hp)
    as (ev & Hev & Hl & _).
  - discriminate.
  - by rewrite Hly.
  - exists p, ev. split; [done|]. split; [exact Hev | exact Hl].
Defined.

(** *** Errors of the evaluation *)



(** *** The lists of one stock after the evaluation *)

Lemma evaluation_inner_loop_lists mape_of ns (pred_l y_l : positive) models :
  pred_l <> y_l ->
  forall st st' preds ys,
  lists st !! pred_l = Some preds -> lists st !! y_l = Some ys ->
  evaluation_inner_loop mape_of ns pred_l y_l models st = ret st' ->
  exists evs,
    Forall2 (fun (m : prepared * sklearn.matrix) ev =>
               evaluate ns (target_scaler m.1) (y_test m.1) m.2 = ret ev)
            models evs /\
    lists st' !! pred_l
      = Some (preds ++ map (fun ev => PySeries (pred_rescaled_inversed_difference ev)) evs) /\
    lists st' !! y_l = Some (ys ++ replicate (length models) (PyListRef y_l)) /\
    y_test_direction_accuracy st'
      = y_test_direction_accuracy st ++ map direction_accuracy evs /\
    length (mape st') = (length (mape st) + length models)%nat.
Proof.
  intros Hne. induction models as [|[p pred] models IH];
    intros st st' preds ys Hp Hy Hloop.
  - injection Hloop as <-. exists []. cbn [map replicate length].
    rewrite !app_nil_r, Nat.add_0_r.
    split; [constructor|]. split; [exact Hp|]. split; [exact Hy|].
    split; reflexivity.
  - cbn [evaluation_inner_loop] in Hloop.
    destruct (evaluate ns (target_scaler p) (y_test p) pred) as [e|ev] eqn:Hev;
      [discriminate Hloop|].
    cbn [bind] in Hloop.
    destruct (mape_of _ _) as [e|m]; [discriminate Hloop|]. cbn [bind] in Hloop.
    set (h := list_append y_l (PyListRef y_l)
                (list_append pred_l
                   (PySeries (pred_rescaled_inversed_difference ev))
                   (lists st))) in Hloop.
    assert (Hp' : h !! pred_l
                  = Some (preds ++ [PySeries (pred_rescaled_inversed_difference ev)])).
    { unfold h, list_append.
      rewrite lookup_alter_ne by (intros ?; by apply Hne).
      rewrite lookup_alter_eq, Hp. reflexivity. }
    assert (Hy' : h !! y_l = Some (ys ++ [PyListRef y_l])).
    { unfold h, list_append.
      rewrite lookup_alter_eq, lookup_alter_ne, Hy by exact Hne.
      reflexivity. }
    destruct (IH {| lists := h;
                    y_test_direction_accuracy :=
                      y_test_direction_accuracy st ++ [direction_accuracy ev];
                    mape := mape st ++ [m] |} st' _ _ Hp' Hy' Hloop)
      as (evs & Hevs & H1 & H2 & H3 & H4).
    exists (ev :: evs). split; [by constructor|].
    cbn [map length replicate lists y_test_direction_accuracy mape] in *.
    rewrite H1, H2, H3, H4, length_app. cbn [length].
    rewrite <- (app_assoc preds), <- (app_assoc ys),
      <- (app_assoc (y_test_direction_accuracy st)). cbn [app].
    split; [reflexivity|]. split; [reflexivity|]. split; [reflexivity|]. lia.
Qed.

(** X20.  When the evaluation cell completes the loop over the feature
    combinations of a stock, the stock's list of reconstructed predictions
    holds one series per model, but its list of reconstructed targets holds,
    once per model, a reference to that list itself: no reconstructed target
    series is kept in it.  One accuracy and one MAPE are recorded per
    model. *)
Theorem evaluation_appends_list_to_itself mape_of (ns : pd.Series)
    (pred_l y_l : positive) (models : list (prepared * sklearn.matrix))
    (st st' : cell_state) :
  pred_l <> y_l ->
  evaluation_single_stock mape_of ns pred_l y_l models st = ret st' ->
  lists st' !! y_l = Some (replicate (length models) (PyListRef y_l)) /\
  exists evs,
    Forall2 (fun (m : prepared * sklearn.matrix) ev =>
               evaluate ns (target_scaler m.1) (y_test m.1) m.2 = ret ev)
            models evs /\
    lists st' !! pred_l
      = Some (map (fun ev => PySeries (pred_rescaled_inversed_difference ev)) evs) /\
    y_test_direction_accuracy st'
      = y_test_direction_accuracy st ++ map direction_accuracy evs /\
    length (mape st') = (length (mape st) + length models)%nat.
Proof.
  intros Hne Hrun. unfold evaluation_single_stock in Hrun.
  eapply (evaluation_inner_loop_lists _ _ _ _ _ Hne _ _ [] []) in Hrun
    as (evs & Hevs & H1 & H2 & H3 & H4).
  - split; [exact H2|]. exists evs.
    split; [exact Hevs|]. split; [exact H1|]. split; [exact H3 | exact H4].
  - cbn [lists]. rewrite lookup_insert_ne by (intros ?; by apply Hne).
    apply lookup_insert_eq.
  - cbn [lists]. apply lookup_insert_eq.
Qed.

Lemma evaluation_appends_list_to_itself_witness :
  exists st',
    evaluation_single_stock calc_mape_columns [Num (Qz 10); Num (Qz 11); Num (Qz 9)]
      1%positive 2%positive example_models
      {| lists := ∅; y_test_direction_accuracy := []; mape := [] |} = ret st' /\
    lists st' !! 2%positive = Some (replicate 2 (PyListRef 2%positive)).
Proof.
  destruct (evaluation_single_stock calc_mape_columns
              [Num (Qz 10); Num (Qz 11); Num (Qz 9)] 1%positive 2%positive
              example_models
              {| lists := ∅; y_test_direction_accuracy := []; mape := [] |})
    as [e|st'] eqn:Hrun; [vm_compute in Hrun; discriminate|].
  assert (Hne : 1%positive <> 2%positive) by discriminate.
  destruct (evaluation_appends_list_to_itself _ _ _ _ _ _ _ Hne Hrun) as [Hy _].
  exists st'. split; [reflexivity | exact Hy].
Defined.

(** *** The result tables *)

(** X21.  The table of accuracies, and likewise the table of MAPEs, is built
    exactly when there is at least one label and the number of recorded
    values is the number of tickers times the number of labels; otherwise
    the cell raises [ValueError].  Row [i] of the table then holds, in
    order, the values recorded for the models of stock [i]. *)
Theorem results_frame_rows {A} (values : list A) (x_labels tickers : list string) :
  let J := length x_labels in
  ((exists rows, results_frame values x_labels tickers = ret rows)
   <-> (1 <= J)%nat /\ length values = (length tickers * J)%nat) /\
  forall rows, results_frame values x_labels tickers = ret rows ->
    length rows = length tickers /\
    forall i j, (i < length tickers)%nat -> (j < J)%nat ->
      rows !! i ≫= (.!! j) = values !! (i * J + j)%nat.
Proof.
  intros J. unfold results_frame, np_reshape_rows. fold J.
  case_bool_decide as HJ.
  { split; [|done]. split; [by intros [rows ?] | lia]. }
  case_bool_decide as Hmod; cbn [bind ret raise].
  2: { split; [|done]. split; [by intros [rows ?]|].
       intros [_ Hlen]. destruct Hmod. rewrite Hlen.
       by apply Nat.Div0.mod_mul. }
  rewrite length_map, length_seq.
  assert (Hdiv : length values = (J * (length values `div` J))%nat)
    by (by apply Nat.Div0.div_exact).
  case_bool_decide as Hrows.
  - split.
    + split; [intros _ | by eexists]. split; [lia|]. rewrite <- Hrows. lia.
    + intros rows [= <-]. rewrite length_map, length_seq. split; [done|].
      intros i j Hi Hj. rewrite lookup_map, lookup_seq_lt by lia.
      cbn [fmap option_fmap option_map mbind option_bind].
      rewrite lookup_take_lt by lia. by rewrite lookup_drop.
  - split; [|done]. split; [by intros [rows ?]|].
    intros [_ Hlen]. destruct Hrows. rewrite Hlen. by apply Nat.div_mul.
Qed.
